(** * code.pyret.org: the grading dashboard (cpo-grade.js) and the modal prompt

    A shallow embedding of the two browser modules and the properties their
    specification states about them.

    - [Table]: the class bookkeeping of the grading table ([makeTarget]).
    - [Exporter]: the result exporter ([generateJSON], [generateJSONFile]).
    - [Q]: the promise kernel both modules are written against (the Q
      library: [Q.defer], [then], [fail], [Q.all], the tick queue).
    - [Grade]: [promiseRetry], [getFile], [getFilesInFolder],
      [gatherSubmissions].
    - [Modal]: the [Prompt] constructor, [show], [onClose], [onSubmit].
    - [Submission]: [getSubmission], [makeRunner], [toTargets] and the loop
      of [processSubmission].
    - [Render]: [renderSubmissionsHeader], [renderSubmissionsRows],
      [renderSubmissions] and the cells their handlers select.
    - [RunAll]: the interval of [runTDs]. *)

From Stdlib Require Import List String Bool Arith NArith Lia.
From Stdlib Require Import DecimalString DecimalNat Sorted Permutation.
From Stdlib Require Import FunctionalExtensionality.
Import ListNotations.
Open Scope string_scope.
Set Warnings "-register-all".

(** ** JavaScript objects, arrays and the default sort *)

Module Js.

(** An object: its own enumerable properties in the order they were
    created.  Keys are unique; [set] keeps them so. *)
Definition obj (V : Type) := list (string * V).

Fixpoint get {V : Type} (k : string) (o : obj V) : option V :=
  match o with
  | [] => None
  | (k', v) :: o' => if String.eqb k k' then Some v else get k o'
  end.

(** The own property [k] is given the value [v]: an existing property
    keeps its place, a new one becomes the last. *)
Fixpoint put {V : Type} (k : string) (v : V) (o : obj V) : obj V :=
  match o with
  | [] => [(k, v)]
  | (k', v') :: o' =>
      if String.eqb k k' then (k, v) :: o' else (k', v') :: put k v o'
  end.

(** The one name for which [Object.prototype] has a setter. *)
Definition proto : string := "__proto__".

(** A key other than "__proto__". *)
Definition ordinary (k : string) : bool := negb (String.eqb k proto).

(** The assignment [o[k] = v].  For the key "__proto__" on an object
    without an own property of that name, the assignment calls the setter
    of [Object.prototype]: it creates no own property (it changes the
    prototype of the object at most, which nothing here reads). *)
Definition set {V : Type} (k : string) (v : V) (o : obj V) : obj V :=
  if ordinary k then put k v o
  else match get k o with
       | Some _ => put k v o
       | None => o
       end.

(** Insertion into a list ordered by [le]. *)
Fixpoint insert_by {A : Type} (le : A -> A -> bool) (x : A) (l : list A) : list A :=
  match l with
  | [] => [x]
  | y :: l' => if le x y then x :: y :: l' else y :: insert_by le x l'
  end.

Definition sort_by {A : Type} (le : A -> A -> bool) (l : list A) : list A :=
  fold_right (insert_by le) [] l.

(** [Array.prototype.sort()] without a comparator, on an array of strings:
    ascending in the order of the code units. *)
Definition sort (l : list string) : list string := sort_by String.leb l.

(** The decimal numeral of an array index, as [String(i)] writes it. *)
Definition index_string (i : nat) : string :=
  NilZero.string_of_uint (Nat.to_uint i).

(** A property key is an array index when it is the canonical numeral of
    an integer below 2^32 - 1. *)
Definition array_index (k : string) : option N :=
  match NilZero.uint_of_string k with
  | Some d =>
      let n := N.of_uint d in
      if (String.eqb (NilZero.string_of_uint (N.to_uint n)) k && (n <? 4294967295)%N)%bool
      then Some n else None
  | None => None
  end.

Definition index_keys (ks : list string) : list (N * string) :=
  flat_map (fun k => match array_index k with
                     | Some n => [(n, k)]
                     | None => []
                     end) ks.

Definition is_index (k : string) : bool :=
  match array_index k with Some _ => true | None => false end.

(** The order in which [Object.keys], [for-in] and [JSON.stringify] list
    the own properties: array indices ascending, then the other keys in
    creation order. *)
Definition own_keys {V : Type} (o : obj V) : list string :=
  let ks := map fst o in
  map snd (sort_by (fun a b => (fst a <=? fst b)%N) (index_keys ks))
  ++ filter (fun k => negb (is_index k)) ks.

(** [Object.keys] of an array of length [n]. *)
Definition array_keys (n : nat) : list string := map index_string (seq 0 n).

(** The element [a[k]] for a key [k] of the array [a]. *)
Definition array_get {A : Type} (a : list A) (k : string) : option A :=
  get k (combine (array_keys (List.length a)) a).

End Js.

(** ** The grading table: [makeTarget] *)

Module Table.

(** The outcome handed to the completion callback by the runner.
    [runtime.isSuccessResult(result)] selects the first constructor, whose
    argument is [result.exn.exn.$name] when [result.exn] is defined. *)
Inductive runresult :=
| RunSuccess (exn : option string)
| RunFailure (exn : string).

(** A [td] or [th] of [#tbl]: its class attribute, inline background colour,
    [title] attribute and, for a target cell, [target.result]. *)
Record cell := mkCell {
  classes : list string;
  background : option string;
  title : option string;
  result : option runresult
}.

Definition table := list cell.

Definition hasClass (c : string) (e : cell) : bool :=
  existsb (String.eqb c) (classes e).

Definition addClass (c : string) (e : cell) : cell :=
  if hasClass c e then e
  else mkCell (classes e ++ [c]) (background e) (title e) (result e).

Definition removeClass (c : string) (e : cell) : cell :=
  mkCell (filter (fun x => negb (String.eqb c x)) (classes e))
         (background e) (title e) (result e).

Definition css_background (col : string) (e : cell) : cell :=
  mkCell (classes e) (Some col) (title e) (result e).

Definition attr_title (t : string) (e : cell) : cell :=
  mkCell (classes e) (background e) (Some t) (result e).

Definition set_result (r : runresult) (e : cell) : cell :=
  mkCell (classes e) (background e) (title e) (Some r).

(** [$(this)] applied to the clicked cell: the cell at position [i]. *)
Fixpoint at_cell (i : nat) (f : cell -> cell) (t : table) : table :=
  match t, i with
  | [], _ => []
  | e :: t', O => f e :: t'
  | e :: t', S i' => e :: at_cell i' f t'
  end.

(** [$("#tbl td.c, #tbl th.c").addClass(d).removeClass(c)]. *)
Definition switch_class (c d : string) (t : table) : table :=
  map (fun e => if hasClass c e then removeClass c (addClass d e) else e) t.

(** The click handler returned by [makeTarget], up to the call of
    [target.eval]. *)
Definition click (i : nat) (t : table) : table :=
  let t1 := at_cell i (fun e => css_background "#f7cb2a" (removeClass "def" e)) t in
  switch_class "def" "dis" t1.

(** The colour and tooltip the completion callback gives the clicked cell. *)
Definition paint (r : runresult) (e : cell) : cell :=
  match r with
  | RunSuccess None =>
      attr_title "Run (compile, runtime success)" (css_background "#30ba40" e)
  | RunSuccess (Some n) =>
      attr_title ("Run (compile success, runtime error: " ++ n ++ ")")
                 (css_background "#30ba40" e)
  | RunFailure n =>
      attr_title ("Run (compile error: " ++ n ++ ")") (css_background "#de1d10" e)
  end.

(** The completion callback passed to [target.eval]. *)
Definition completed (i : nat) (r : runresult) (t : table) : table :=
  let t1 := at_cell i (fun e => addClass "fin" (set_result r (paint r e))) t in
  switch_class "dis" "def" t1.

Definition has (c : string) (i : nat) (t : table) : bool :=
  match nth_error t i with
  | Some e => hasClass c e
  | None => false
  end.

(** What can happen to the table while a run is in flight: other cells are
    clicked and other runs complete. *)
Inductive event :=
| Click (j : nat)
| Completed (j : nat) (r : runresult).

Definition step (ev : event) (t : table) : table :=
  match ev with
  | Click j => click j t
  | Completed j r => completed j r t
  end.

Definition steps (evs : list event) (t : table) : table :=
  fold_left (fun t ev => step ev t) evs t.

End Table.

(** ** Facts about the grading table *)

Module TableFacts.
Import Table.

Lemma hasClass_addClass_same (c : string) (e : cell) :
  hasClass c (addClass c e) = true.
Proof.
  unfold addClass. destruct (hasClass c e) eqn:E; [exact E|].
  unfold hasClass; cbn. rewrite existsb_app; cbn.
  rewrite String.eqb_refl. now rewrite orb_true_r.
Qed.

Lemma hasClass_addClass_other (c d : string) (e : cell) :
  c <> d -> hasClass c (addClass d e) = hasClass c e.
Proof.
  intros N. unfold addClass. destruct (hasClass d e); [reflexivity|].
  unfold hasClass; cbn. rewrite existsb_app; cbn.
  apply String.eqb_neq in N. rewrite N. now rewrite !orb_false_r.
Qed.

Lemma hasClass_removeClass_same (c : string) (e : cell) :
  hasClass c (removeClass c e) = false.
Proof.
  unfold hasClass, removeClass; cbn.
  induction (classes e) as [|x l IH]; cbn; [reflexivity|].
  destruct (String.eqb c x) eqn:E; cbn; [exact IH|].
  now rewrite E, IH.
Qed.

Lemma hasClass_removeClass_other (c d : string) (e : cell) :
  c <> d -> hasClass c (removeClass d e) = hasClass c e.
Proof.
  intros N. unfold hasClass, removeClass; cbn.
  induction (classes e) as [|x l IH]; cbn; [reflexivity|].
  destruct (String.eqb d x) eqn:E; cbn.
  - apply String.eqb_eq in E; subst x.
    apply String.eqb_neq in N. now rewrite N, IH.
  - now rewrite IH.
Qed.

Lemma nth_error_at_cell_same (i : nat) (f : cell -> cell) (t : table) :
  nth_error (at_cell i f t) i = option_map f (nth_error t i).
Proof.
  revert i; induction t as [|e t IH]; intros [|i]; cbn; auto.
Qed.

Lemma nth_error_at_cell_other (i j : nat) (f : cell -> cell) (t : table) :
  j <> i -> nth_error (at_cell i f t) j = nth_error t j.
Proof.
  revert i j; induction t as [|e t IH]; intros [|i] [|j] N; cbn; auto.
  congruence.
Qed.

Lemma has_switch_class (c d x : string) (j : nat) (t : table) :
  has x j (switch_class c d t) =
  match nth_error t j with
  | Some e => hasClass x (if hasClass c e then removeClass c (addClass d e) else e)
  | None => false
  end.
Proof.
  unfold has, switch_class. rewrite nth_error_map.
  now destruct (nth_error t j).
Qed.

(** Every cell carrying [c] carries [d], and no longer [c], after the
    switch. *)
Lemma switch_class_moves (c d : string) (j : nat) (t : table) :
  c <> d -> has c j t = true ->
  has d j (switch_class c d t) = true /\ has c j (switch_class c d t) = false.
Proof.
  intros N H. rewrite !has_switch_class. unfold has in H.
  destruct (nth_error t j) as [e|]; [|discriminate].
  rewrite H. split.
  - rewrite hasClass_removeClass_other by congruence.
    apply hasClass_addClass_same.
  - apply hasClass_removeClass_same.
Qed.

(** Painting and recording the result leave the class attribute alone. *)
Lemma hasClass_completed_cell (x : string) (r : runresult) (e : cell) :
  x <> "fin" ->
  hasClass x (addClass "fin" (set_result r (paint r e))) = hasClass x e.
Proof.
  intros N. rewrite hasClass_addClass_other by exact N.
  destruct r as [[n|]|n]; reflexivity.
Qed.

(** C10. While a clicked cell's target runs, every other cell marked "def"
    is marked "dis" instead; when its completion callback fires, the
    clicked cell is marked "fin" and every cell marked "dis" is marked
    "def" again, so that the cells that were runnable when the run began,
    the clicked one apart, are runnable when it ends. *)
Theorem makeTarget_disables_then_restores (t : table) (i : nat) (r : runresult) :
  i < List.length t ->
  let running := click i t in
  let finished := completed i r running in
  (forall j, j <> i -> has "def" j t = true ->
     has "dis" j running = true /\ has "def" j running = false) /\
  has "fin" i finished = true /\
  (forall j, has "dis" j running = true ->
     has "def" j finished = true /\ has "dis" j finished = false) /\
  (forall j, j <> i -> has "def" j t = true -> has "def" j finished = true).
Proof.
  intros Hi running finished.
  assert (D : forall j, j <> i -> has "def" j t = true ->
     has "dis" j running = true /\ has "def" j running = false).
  { intros j N H. subst running. unfold click.
    apply switch_class_moves; [discriminate|].
    unfold has in *. now rewrite nth_error_at_cell_other. }
  assert (R : forall j, has "dis" j running = true ->
     has "def" j finished = true /\ has "dis" j finished = false).
  { intros j H. subst finished. unfold completed.
    apply switch_class_moves; [discriminate|].
    unfold has in *.
    destruct (Nat.eq_dec j i) as [->|N].
    - rewrite nth_error_at_cell_same.
      destruct (nth_error running i) as [e|]; [cbn|discriminate].
      now rewrite hasClass_completed_cell by discriminate.
    - now rewrite nth_error_at_cell_other. }
  repeat split; try (intros; apply D; assumption); try (intros; apply R; assumption).
  - subst finished. unfold completed. rewrite has_switch_class.
    rewrite nth_error_at_cell_same.
    destruct (nth_error running i) as [e|] eqn:E.
    + cbn.
      match goal with
      | |- hasClass _ (if hasClass "dis" ?c then _ else _) = true =>
          assert (F : hasClass "fin" c = true) by apply hasClass_addClass_same;
          destruct (hasClass "dis" c)
      end.
      * rewrite hasClass_removeClass_other by discriminate.
        rewrite hasClass_addClass_other by discriminate. exact F.
      * exact F.
    + apply nth_error_None in E. subst running. unfold click, switch_class in E.
      rewrite List.length_map in E.
      assert (L : forall k f u, List.length (at_cell k f u) = List.length u).
      { intros k f u; revert k; induction u; intros [|k]; cbn; auto. }
      rewrite L in E. lia.
  - intros j N H. apply R. now apply D.
Qed.

Example makeTarget_disables_then_restores_witness :
  let t := [mkCell ["def"] None None None; mkCell ["def"; "tooltip"] None None None] in
  has "def" 1 (completed 0 (RunSuccess None) (click 0 t)) = true.
Proof.
  intros t.
  apply (makeTarget_disables_then_restores t 0 (RunSuccess None)); [cbn; lia| |reflexivity].
  discriminate.
Defined.

End TableFacts.

(** ** The result exporter: [generateJSONFile], [generateJSON] *)

Module Exporter.

(** What the exporter writes: the values [JSON.stringify] serialises. *)
Inductive json :=
| JBool (b : bool)
| JStr (s : string)
| JArr (l : list json)
| JObj (o : list (string * json)).

(** One outcome of a check block: its variant name ([$name]), the [code]
    field and the dictionary of the [loc] field. *)
Record test := mkTest { test_name : string; test_code : json; test_loc : json }.

(** A check block: its [name] field and its [test-results]. *)
Record check := mkCheck { check_name : string; test_results : list test }.

(** A run result as the Pyret runtime hands it over. *)
Inductive runresult :=
| SuccessRight (checks : list check)
    (* isSuccessResult(result) and ffi.isRight(result.result) *)
| SuccessLeft
| Failure (errorName : string) (stack : json) (loc : json).

(** A target of a student: [name] and the [result] its run stored, if any. *)
Record target := mkTarget { name : string; result : option runresult }.

Definition toObject (t : test) : json :=
  JObj [("isSuccess", JBool (String.eqb (test_name t) "success"));
        ("result", JStr (test_name t));
        ("code", test_code t);
        ("loc", test_loc t)].

Definition generateJSONFile (r : runresult) : json :=
  match r with
  | SuccessRight checks =>
      JObj (fold_left
              (fun o c => Js.set (check_name c) (JArr (map toObject (test_results c))) o)
              checks
              (Js.set "isError" (JBool false) []))
  | SuccessLeft => JObj []
  | Failure errorName stack loc =>
      JObj [("isError", JBool true); ("errorName", JStr errorName);
            ("stack", stack); ("loc", loc)]
  end.

(** The body of the inner loop: one file key [fk[j]] of the student [s]. *)
Definition export_file (s : list target) (student : Js.obj json) (k : string)
  : Js.obj json :=
  match Js.array_get s k with
  | Some f =>
      match result f with
      | Some r => Js.set (name f) (generateJSONFile r) student
      | None => student
      end
  | None => student
  end.

(** The object [student] built for one key [sk[i]]. *)
Definition export_student (entry : option (option (list target))) : Js.obj json :=
  match entry with
  | Some (Some s) =>
      fold_left (export_file s) (Js.sort (Js.array_keys (List.length s))) []
  | _ => []
  end.

(** [generateJSON]: the object [blob] that is stringified into [#out].  A
    student maps to [None] for [null] and to the array of its targets
    otherwise. *)
Definition generateJSON (submissions : Js.obj (option (list target))) : Js.obj json :=
  fold_left
    (fun blob k => Js.set k (JObj (export_student (Js.get k submissions))) blob)
    (Js.sort (Js.own_keys submissions))
    [].

(** The member names in the order [JSON.stringify] writes them. *)
Definition written_keys (o : Js.obj json) : list string := Js.own_keys o.

End Exporter.

(** ** Facts about objects and the default sort *)

Module JsFacts.
Import Js.

Lemma get_put_same {V : Type} (k : string) (v : V) (o : obj V) :
  get k (put k v o) = Some v.
Proof.
  induction o as [|[k' v'] o IH]; cbn.
  - now rewrite String.eqb_refl.
  - destruct (String.eqb k k') eqn:E; cbn; rewrite ?String.eqb_refl, ?E; auto.
Qed.

Lemma get_put_other {V : Type} (k k' : string) (v : V) (o : obj V) :
  k' <> k -> get k' (put k v o) = get k' o.
Proof.
  intros N. induction o as [|[k0 v0] o IH]; cbn.
  - apply String.eqb_neq in N. now rewrite N.
  - destruct (String.eqb k k0) eqn:E; cbn.
    + apply String.eqb_eq in E; subst k0.
      apply String.eqb_neq in N. now rewrite N.
    + now rewrite IH.
Qed.

Lemma get_none_iff {V : Type} (k : string) (o : obj V) :
  get k o = None <-> ~ In k (map fst o).
Proof.
  induction o as [|[k' v] o IH]; cbn; [tauto|].
  destruct (String.eqb_spec k k') as [->|N].
  - split; [discriminate|]. intros H; exfalso; apply H; now left.
  - rewrite IH. split; intros H; [intros [E|I]; [congruence|tauto]|tauto].
Qed.

(** A key that is new becomes the last property. *)
Lemma put_fresh {V : Type} (k : string) (v : V) (o : obj V) :
  ~ In k (map fst o) -> put k v o = (o ++ [(k, v)])%list.
Proof.
  induction o as [|[k' v'] o IH]; cbn; intros H; [reflexivity|].
  destruct (String.eqb_spec k k') as [->|N]; [tauto|].
  rewrite IH; tauto.
Qed.

(** An existing property keeps its place, and no key is lost or added. *)
Lemma put_keys_own {V : Type} (k : string) (v : V) (o : obj V) :
  In k (map fst o) -> map fst (put k v o) = map fst o.
Proof.
  induction o as [|[k' v'] o IH]; cbn; [tauto|].
  destruct (String.eqb_spec k k') as [->|N]; [reflexivity|].
  intros [E|I]; [congruence|]. cbn. now rewrite IH.
Qed.

Lemma ordinary_true (k : string) : ordinary k = true <-> k <> proto.
Proof.
  unfold ordinary. destruct (String.eqb_spec k proto); cbn; split; congruence.
Qed.

Lemma ordinary_false (k : string) : ordinary k = false <-> k = proto.
Proof.
  unfold ordinary. destruct (String.eqb_spec k proto); cbn; split; congruence.
Qed.

(** For any key but "__proto__" the assignment stores the value. *)
Lemma set_ordinary {V : Type} (k : string) (v : V) (o : obj V) :
  k <> proto -> set k v o = put k v o.
Proof. intros N. unfold set. apply ordinary_true in N. now rewrite N. Qed.

(** An own property is assigned to, whatever its name. *)
Lemma set_own {V : Type} (k : string) (v v' : V) (o : obj V) :
  get k o = Some v' -> set k v o = put k v o.
Proof. intros G. unfold set. rewrite G. now destruct (ordinary k). Qed.

(** On an object without an own property "__proto__", the assignment to
    that key leaves the own properties as they are. *)
Lemma set_proto {V : Type} (v : V) (o : obj V) :
  get proto o = None -> set proto v o = o.
Proof. intros G. unfold set. now rewrite G. Qed.

Lemma get_set_same {V : Type} (k : string) (v : V) (o : obj V) :
  k <> proto -> get k (set k v o) = Some v.
Proof. intros N. rewrite set_ordinary by exact N. apply get_put_same. Qed.

Lemma get_set_other {V : Type} (k k' : string) (v : V) (o : obj V) :
  k' <> k -> get k' (set k v o) = get k' o.
Proof.
  intros N. unfold set. destruct (ordinary k); [now apply get_put_other|].
  destruct (get k o); [now apply get_put_other|reflexivity].
Qed.

(** No assignment creates an own property "__proto__". *)
Lemma get_set_proto {V : Type} (k : string) (v : V) (o : obj V) :
  get proto o = None -> get proto (set k v o) = None.
Proof.
  intros G. destruct (String.eqb_spec k proto) as [->|N].
  - now rewrite set_proto.
  - rewrite get_set_other by congruence. exact G.
Qed.


Lemma set_fresh {V : Type} (k : string) (v : V) (o : obj V) :
  k <> proto -> ~ In k (map fst o) -> set k v o = (o ++ [(k, v)])%list.
Proof. intros N F. rewrite set_ordinary by exact N. now apply put_fresh. Qed.

(** Keys assigned one after the other, all different and all new, are
    created in the order of the assignments, but for "__proto__". *)
Lemma fold_set_fresh {V : Type} (f : string -> V) (ks : list string) (o : obj V) :
  NoDup ks -> (forall k, In k ks -> ~ In k (map fst o)) ->
  fold_left (fun b k => set k (f k) b) ks o
  = (o ++ map (fun k => (k, f k)) (filter ordinary ks))%list.
Proof.
  revert o; induction ks as [|k ks IH]; intros o D F; cbn.
  - now rewrite app_nil_r.
  - inversion D as [|? ? Hk Dk]; subst.
    destruct (ordinary k) eqn:O.
    + apply ordinary_true in O.
      rewrite set_fresh by (auto; apply F; now left).
      rewrite IH; auto.
      * cbn. now rewrite <- app_assoc.
      * intros k' I. rewrite map_app, in_app_iff; cbn.
        intros [J|[J|[]]]; [apply (F k'); [now right|exact J]|subst; tauto].
    + apply ordinary_false in O. subst k.
      rewrite set_proto by (apply get_none_iff, F; now left).
      apply IH; auto. intros k' I. apply F. now right.
Qed.

Lemma insert_by_perm {A : Type} (le : A -> A -> bool) (x : A) (l : list A) :
  Permutation (insert_by le x l) (x :: l).
Proof.
  induction l as [|y l IH]; cbn; [apply Permutation_refl|].
  destruct (le x y); [apply Permutation_refl|].
  eapply perm_trans; [apply perm_skip, IH|apply perm_swap].
Qed.

Lemma sort_by_perm {A : Type} (le : A -> A -> bool) (l : list A) :
  Permutation (sort_by le l) l.
Proof.
  induction l as [|x l IH]; cbn; [constructor|].
  eapply perm_trans; [apply insert_by_perm|now apply perm_skip].
Qed.

Lemma insert_by_sorted {A : Type} (le : A -> A -> bool) (x : A) (l : list A) :
  (forall a b, le a b = true \/ le b a = true) ->
  Sorted (fun a b => le a b = true) l ->
  Sorted (fun a b => le a b = true) (insert_by le x l).
Proof.
  intros T S. induction S as [|y l S IH H]; cbn.
  - repeat constructor.
  - destruct (le x y) eqn:E.
    + constructor; [now constructor|now constructor].
    + constructor; [exact IH|].
      destruct (T x y) as [C|C]; [congruence|].
      destruct H as [|z l' Hz]; cbn.
      * now constructor.
      * destruct (le x z); now constructor.
Qed.

Lemma sort_by_sorted {A : Type} (le : A -> A -> bool) (l : list A) :
  (forall a b, le a b = true \/ le b a = true) ->
  Sorted (fun a b => le a b = true) (sort_by le l).
Proof.
  intros T. induction l as [|x l IH]; cbn; [constructor|].
  now apply insert_by_sorted.
Qed.

Lemma sort_sorted (l : list string) :
  Sorted (fun a b => String.leb a b = true) (sort l).
Proof. apply sort_by_sorted, String.leb_total. Qed.

Lemma sort_perm (l : list string) : Permutation (sort l) l.
Proof. apply sort_by_perm. Qed.

Lemma index_keys_filter (ks : list string) :
  map snd (index_keys ks) = filter is_index ks.
Proof.
  unfold index_keys, is_index.
  induction ks as [|k ks IH]; cbn; [reflexivity|].
  destruct (array_index k); cbn; now rewrite IH.
Qed.

Lemma filter_split_perm {A : Type} (p : A -> bool) (l : list A) :
  Permutation (filter p l ++ filter (fun x => negb (p x)) l)%list l.
Proof.
  induction l as [|x l IH]; cbn; [constructor|].
  destruct (p x); cbn.
  - now apply perm_skip.
  - apply Permutation_sym, Permutation_cons_app, Permutation_sym, IH.
Qed.

(** [own_keys] lists every key once. *)
Lemma own_keys_perm {V : Type} (o : obj V) :
  Permutation (own_keys o) (map fst o).
Proof.
  unfold own_keys.
  eapply perm_trans; [|apply (filter_split_perm is_index)].
  apply Permutation_app_tail.
  rewrite <- index_keys_filter.
  apply Permutation_map, sort_by_perm.
Qed.

(** With no array index among the keys, the listing is the creation order. *)
Lemma own_keys_plain {V : Type} (o : obj V) :
  (forall k, In k (map fst o) -> is_index k = false) ->
  own_keys o = map fst o.
Proof.
  intros H. unfold own_keys.
  assert (E : index_keys (map fst o) = []).
  { unfold index_keys. induction (map fst o) as [|k ks IH]; cbn; [reflexivity|].
    assert (K := H k (or_introl eq_refl)). unfold is_index in K.
    destruct (array_index k); [discriminate|]. cbn.
    apply IH. intros k' I. apply H. now right. }
  rewrite E; cbn.
  induction (map fst o) as [|k ks IH]; cbn; [reflexivity|].
  rewrite (H k (or_introl eq_refl)); cbn. f_equal.
  apply IH; [intros k' I; apply H; now right|].
  unfold index_keys in E; cbn in E.
  destruct (array_index k); [discriminate|exact E].
Qed.

Lemma ascii_compare_refl (c : Ascii.ascii) : Ascii.compare c c = Eq.
Proof. unfold Ascii.compare. apply N.compare_refl. Qed.

Lemma ascii_compare_lt_trans (a b c : Ascii.ascii) :
  Ascii.compare a b = Lt -> Ascii.compare b c = Lt -> Ascii.compare a c = Lt.
Proof.
  unfold Ascii.compare. rewrite !N.compare_lt_iff. apply N.lt_trans.
Qed.

Lemma string_leb_trans (s1 s2 s3 : string) :
  String.leb s1 s2 = true -> String.leb s2 s3 = true -> String.leb s1 s3 = true.
Proof.
  unfold String.leb. revert s2 s3.
  induction s1 as [|c1 s1 IH]; intros [|c2 s2] [|c3 s3]; cbn; try easy.
  destruct (Ascii.compare c1 c2) eqn:E12; try discriminate;
    destruct (Ascii.compare c2 c3) eqn:E23; try discriminate.
  - apply Ascii.compare_eq_iff in E12, E23. subst.
    rewrite ascii_compare_refl. apply IH.
  - apply Ascii.compare_eq_iff in E12. subst. now rewrite E23.
  - apply Ascii.compare_eq_iff in E23. subst. now rewrite E12.
  - now rewrite (ascii_compare_lt_trans c1 c2 c3 E12 E23).
Qed.









End JsFacts.

(** ** Facts about the result exporter *)

Module ExporterFacts.
Import Exporter.

Lemma to_uint_not_nil (n : nat) : Nat.to_uint n <> Decimal.Nil.
Proof.
  intros E. assert (H := DecimalNat.Unsigned.of_to n). rewrite E in H.
  cbn in H. subst n. discriminate E.
Qed.

Lemma index_string_inj (i j : nat) :
  Js.index_string i = Js.index_string j -> i = j.
Proof.
  unfold Js.index_string. intros E.
  apply (f_equal NilZero.uint_of_string) in E.
  rewrite !NilZero.usu in E by apply to_uint_not_nil.
  injection E as E. now apply DecimalNat.Unsigned.to_uint_inj.
Qed.



Lemma get_in {V : Type} (k : string) (v : V) (o : Js.obj V) :
  Js.get k o = Some v -> In (k, v) o.
Proof.
  induction o as [|[k' v'] o IH]; cbn; [discriminate|].
  destruct (String.eqb_spec k k') as [->|N].
  - intros [= ->]. now left.
  - intros H. right. now apply IH.
Qed.

Lemma array_get_in {A : Type} (a : list A) (k : string) (x : A) :
  Js.array_get a k = Some x -> In x a.
Proof.
  unfold Js.array_get. intros H. apply get_in in H.
  now apply in_combine_r in H.
Qed.









(** The object [generateJSON] builds, written out. *)
Lemma generateJSON_eq (submissions : Js.obj (option (list target))) :
  NoDup (map fst submissions) ->
  generateJSON submissions =
  map (fun k => (k, JObj (export_student (Js.get k submissions))))
      (filter Js.ordinary (Js.sort (Js.own_keys submissions))).
Proof.
  intros D. unfold generateJSON.
  rewrite (JsFacts.fold_set_fresh
             (fun k => JObj (export_student (Js.get k submissions)))); auto.
  eapply Permutation_NoDup; [|exact D].
  apply Permutation_sym.
  eapply perm_trans; [apply JsFacts.sort_perm|apply JsFacts.own_keys_perm].
Qed.

Definition le_string (a b : string) : Prop := String.leb a b = true.


(** A student with two finished targets and a student without targets. *)
Definition two_students : Js.obj (option (list target)) :=
  [("bob", None);
   ("alice", Some [mkTarget "test" (Some SuccessLeft);
                   mkTarget "gold" (Some SuccessLeft)])].






End ExporterFacts.

(** ** The promise kernel

    Both modules are written against the Q promise library.  This is its
    behaviour as the modules rely on it: a promise is pending until it is
    settled once; handlers registered with [then] and [fail] run in a
    later tick, in the order of registration, and their outcome settles
    the promise [then] returned; a handler that returns a promise makes
    the returned promise follow it; a handler that throws rejects it;
    [Q.all] waits for every element and rejects with the first rejection.

    Promises are named by the caller that creates them; [faulty] records a
    name created twice.  Handlers are the closures of the program, given
    as a type [cont] with an interpretation passed to [run_reaction]. *)

Module Q.
Section Kernel.

Context {pid cont value W : Type}.
Variable pid_eqb : pid -> pid -> bool.
(** [Q.isPromise]. *)
Variable as_promise : value -> option pid.
(** The array [Q.all] resolves with. *)
Variable array_of : list value -> value.

Inductive settled :=
| Fulfilled (v : value)
| Rejected (e : value).

(** What waits for a promise to settle. *)
Inductive reaction :=
| Then (onFulfilled onRejected : option cont) (derived : pid)
    (* handlers registered by then/fail, with the promise they returned *)
| Follow (p : pid)
    (* p was resolved with this promise *)
| AllItem (agg : pid) (index : nat).
    (* element [index] of the array given to Q.all *)

Inductive cell :=
| Free
| Pending (waiting : list reaction)
| Settled (s : settled).

Record state := mkState {
  heap : pid -> cell;
  slots : pid -> list (option value);   (* the array a Q.all promise fills *)
  ticks : list (reaction * settled);    (* handler calls queued for later ticks *)
  faulty : bool;
  world : W   (* the rest of the page: what the handlers read and write *)
}.

Definition put (p : pid) (c : cell) (st : state) : state :=
  mkState (fun q => if pid_eqb q p then c else heap st q)
          (slots st) (ticks st) (faulty st) (world st).

Definition put_slots (p : pid) (l : list (option value)) (st : state) : state :=
  mkState (heap st) (fun q => if pid_eqb q p then l else slots st q)
          (ticks st) (faulty st) (world st).

Definition enqueue (ts : list (reaction * settled)) (st : state) : state :=
  mkState (heap st) (slots st) (ticks st ++ ts) (faulty st) (world st).

Definition with_world (u : W) (st : state) : state :=
  mkState (heap st) (slots st) (ticks st) (faulty st) u.

(** A new pending promise named [p]: [Q.defer()], or the promise a [then]
    returns. *)
Definition defer (p : pid) (st : state) : state :=
  match heap st p with
  | Free => put p (Pending []) st
  | _ => mkState (heap st) (slots st) (ticks st) true (world st)
  end.

(** Register [r] on [p]: it waits while [p] is pending and is queued at
    once when [p] is settled. *)
Definition subscribe (p : pid) (r : reaction) (st : state) : state :=
  match heap st p with
  | Pending rs => put p (Pending (rs ++ [r])) st
  | Settled s => enqueue [(r, s)] st
  | Free => st
  end.

(** Settle a pending promise and queue what waited for it; a settled
    promise stays as it is. *)
Definition settle (p : pid) (s : settled) (st : state) : state :=
  match heap st p with
  | Pending rs => enqueue (map (fun r => (r, s)) rs) (put p (Settled s) st)
  | _ => st
  end.

(** [deferred.resolve(v)]. *)
Definition resolve (p : pid) (v : value) (st : state) : state :=
  match as_promise v with
  | Some q =>
      match heap st p with
      | Pending _ => subscribe q (Follow p) st
      | _ => st
      end
  | None => settle p (Fulfilled v) st
  end.

(** [deferred.reject(e)]. *)
Definition reject (p : pid) (e : value) (st : state) : state :=
  settle p (Rejected e) st.

(** [p.then(onFulfilled, onRejected)], returning the promise [d]. *)
Definition then_ (d p : pid) (onFulfilled onRejected : option cont) (st : state)
  : state :=
  subscribe p (Then onFulfilled onRejected d) (defer d st).

Fixpoint fill (i : nat) (v : value) (l : list (option value)) : list (option value) :=
  match l, i with
  | [], _ => []
  | _ :: l', O => Some v :: l'
  | x :: l', S i' => x :: fill i' v l'
  end.

Fixpoint filled (l : list (option value)) : option (list value) :=
  match l with
  | [] => Some []
  | Some v :: l' => option_map (cons v) (filled l')
  | None :: _ => None
  end.

(** Element [i] of a [Q.all] array has the value [v]; the last one to
    arrive resolves the promise with the array. *)
Definition all_item (a : pid) (i : nat) (v : value) (st : state) : state :=
  let l := fill i v (slots st a) in
  let st1 := put_slots a l st in
  match filled l with
  | Some vs => settle a (Fulfilled (array_of vs)) st1
  | None => st1
  end.

(** One element of the array given to [Q.all]: the value of a fulfilled
    promise or of a plain value is taken at once, any other promise is
    waited for. *)
Definition all_element (a : pid) (i : nat) (x : value) (st : state) : state :=
  match as_promise x with
  | Some q =>
      match heap st q with
      | Settled (Fulfilled v) => put_slots a (fill i v (slots st a)) st
      | _ => subscribe q (AllItem a i) st
      end
  | None => put_slots a (fill i x (slots st a)) st
  end.

Fixpoint all_elements (a : pid) (i : nat) (xs : list value) (st : state) : state :=
  match xs with
  | [] => st
  | x :: xs' => all_elements a (S i) xs' (all_element a i x st)
  end.

(** [Q.all(xs)], returning the promise [a]. *)
Definition all (a : pid) (xs : list value) (st : state) : state :=
  let st1 := put_slots a (map (fun _ => None) xs) (defer a st) in
  let st2 := all_elements a 0 xs st1 in
  match filled (slots st2 a) with
  | Some vs => settle a (Fulfilled (array_of vs)) st2
  | None => st2
  end.

(** How a handler call ends. *)
Inductive completion :=
| Return (v : value)
| Throw (e : value).

(** The closures of the program: what [k] does when called with [v]. *)
Variable call : cont -> value -> state -> completion * state.

Definition settle_with (d : pid) (r : completion * state) : state :=
  match r with
  | (Return v, st) => resolve d v st
  | (Throw e, st) => reject d e st
  end.

(** One queued handler call. *)
Definition run_reaction (r : reaction) (s : settled) (st : state) : state :=
  match r with
  | Then onF onR d =>
      match s with
      | Fulfilled v =>
          match onF with
          | Some k => settle_with d (call k v st)
          | None => settle d s st
          end
      | Rejected e =>
          match onR with
          | Some k => settle_with d (call k e st)
          | None => settle d s st
          end
      end
  | Follow p => settle p s st
  | AllItem a i =>
      match s with
      | Fulfilled v => all_item a i v st
      | Rejected e => reject a e st
      end
  end.

Definition tick (st : state) : state :=
  match ticks st with
  | [] => st
  | (r, s) :: rest =>
      run_reaction r s (mkState (heap st) (slots st) rest (faulty st) (world st))
  end.

(** Run queued handler calls until none is left, at most [fuel] of them. *)
Fixpoint drain (fuel : nat) (st : state) : state :=
  match fuel with
  | O => st
  | S fuel' =>
      match ticks st with
      | [] => st
      | _ => drain fuel' (tick st)
      end
  end.

Definition quiet (st : state) : Prop := ticks st = [].

Definition state_of (p : pid) (st : state) : cell := heap st p.

End Kernel.

Arguments settled : clear implicits.
Arguments reaction : clear implicits.
Arguments cell : clear implicits.
Arguments completion : clear implicits.
Arguments state : clear implicits.

End Q.

(** ** The grading dashboard: [promiseRetry], [getFile], [getFilesInFolder],
    [gatherSubmissions] *)

Module Grade.

(** A file or folder object of the storage API: [getName()] and
    [getUniqueId()]. *)
Record file := mkFile { getName : string; getUniqueId : string }.

(** *** Promise names

    A promise is named after the place that creates it and the call it is
    created in. *)

(** The calls of the storage API: [getFile(suiteID)], the listing of the
    assignment folder, of the folder of student [i], and of the
    final-submission folder of student [i]. *)
Inductive ctx :=
| Suite
| Root
| Student (i : nat)
| Final (i : nat).

(** The three promises [promiseRetry] creates: [Q.defer()], the result of
    [promise.then(...)] and the result of [.fail(...)]. *)
Inductive rsite := Deferred | ThenP | FailP.

(** The promises of [gatherSubmissions]: [Q.defer()] and the results of its
    [.then(...)], [.then(...)] and [.fail(...)]. *)
Inductive gsite := GDeferred | GStudents | GDone | GFail.

(** The promises of the three [.then(...)] in the function mapped over
    [students]. *)
Inductive csite := CFind | CList | CStore.

Inductive pid :=
| Api (c : ctx)                                (* returned by the storage API *)
| Retry (p : pid) (iteration : nat) (s : rsite)  (* promiseRetry(p, iteration, _) *)
| Gather (s : gsite)
| Chain (i : nat) (s : csite)
| AllP.                                        (* returned by Q.all *)

Definition ctx_eqb (a b : ctx) : bool :=
  match a, b with
  | Suite, Suite | Root, Root => true
  | Student i, Student j | Final i, Final j => Nat.eqb i j
  | _, _ => false
  end.

Definition rsite_eqb (a b : rsite) : bool :=
  match a, b with
  | Deferred, Deferred | ThenP, ThenP | FailP, FailP => true
  | _, _ => false
  end.

Definition gsite_eqb (a b : gsite) : bool :=
  match a, b with
  | GDeferred, GDeferred | GStudents, GStudents | GDone, GDone | GFail, GFail => true
  | _, _ => false
  end.

Definition csite_eqb (a b : csite) : bool :=
  match a, b with
  | CFind, CFind | CList, CList | CStore, CStore => true
  | _, _ => false
  end.

Fixpoint pid_eqb (a b : pid) : bool :=
  match a, b with
  | Api c, Api c' => ctx_eqb c c'
  | Retry p i s, Retry p' i' s' => rsite_eqb s s' && (Nat.eqb i i' && pid_eqb p p')
  | Gather s, Gather s' => gsite_eqb s s'
  | Chain i s, Chain i' s' => csite_eqb s s' && Nat.eqb i i'
  | AllP, AllP => true
  | _, _ => false
  end.

(** *** Values *)

Inductive error :=
| RemoteError (msg : string)        (* a failure reported by the storage API *)
| ReferenceError (ident : string)   (* an identifier that is not defined *)
| TypeError (msg : string).

Inductive value :=
| VUndefined
| VNull
| VString (s : string)
| VFile (f : file)
| VFiles (l : list file)     (* an array of file objects *)
| VArray (l : list value)
| VError (e : error)
| VPromise (p : pid)
| VSubmissions.              (* the object [submissions] of gatherSubmissions *)

Definition as_promise (v : value) : option pid :=
  match v with VPromise p => Some p | _ => None end.

(** [if (v)]. *)
Definition truthy (v : value) : bool :=
  match v with
  | VUndefined | VNull => false
  | VString s => negb (String.eqb s "")
  | _ => true
  end.

(** *** The storage API and the page *)

Inductive request :=
| GetFileById (id : string)
| GetFilesInFolder (id : string).

Inductive answer :=
| Found (v : value)
| Failed (e : value).

(** The storage API object: what each remote call eventually answers. *)
Definition drive := request -> answer.

(** The closures of the module. *)
Inductive cont :=
| RetryResolve (deferred : pid)
    (* function(resolvedObject) { deferred.resolve(resolvedObject); } *)
| RetryFail (deferred promise : pid) (iteration max : nat)
    (* function(err) { if (iteration >= max) ... else ... } *)
| Students
    (* function(students) { return Q.all(students.map(...)); } *)
| FindFinal
    (* function(dirs) { return dirs.find(...); } *)
| ListFinal (i : nat)
    (* function(dir) { if (dir !== undefined) ... else return null; } *)
| Store (name : string)
    (* function(files) { if (files) { submissions[name] = files; } return files; } *)
| GatherDone
    (* function() { deferred.resolve(submissions); } *)
| GatherFail.
    (* function(err) { console.error(err); } *)

(** The callback [promiseRetry] hands to [setTimeout]; [iteration] is the
    value of [iteration + 1]. *)
Inductive timeout :=
| RetryNow (promise : pid) (iteration max : nat).

Inductive log :=
| Log (msg : string)                (* console.log(msg) *)
| LogRetrying (timeToWait : nat)    (* "Retrying request in " + timeToWait / 1000 + " seconds..." *)
| LogError (v : value).             (* console.error(v) *)

Record page := mkPage {
  api : option drive;                 (* [var api], unset until storageAPI resolves *)
  global_n : option nat;              (* the binding of the free identifier [n], if any *)
  random : nat -> nat;                (* the k-th value of Math.round(Math.random() * 1000) *)
  drawn : nat;                        (* how many have been drawn *)
  console : list log;
  timers : list (nat * timeout);      (* setTimeout: the delay and the callback *)
  requests : list (pid * request);    (* calls of the storage API not answered yet *)
  submissions : Js.obj value          (* [var submissions] of gatherSubmissions *)
}.

Definition state := Q.state pid cont value page.

Definition errNoApiMessage : string :=
  "Attempted to get file(s) before storageAPI defined".

Definition on_page (f : page -> page) (st : state) : state :=
  Q.with_world (f (Q.world st)) st.

Definition console_add (l : log) (st : state) : state :=
  on_page (fun g => mkPage (api g) (global_n g) (random g) (drawn g) (console g ++ [l])
                           (timers g) (requests g) (submissions g)) st.

Definition setTimeout (t : timeout) (delay : nat) (st : state) : state :=
  on_page (fun g => mkPage (api g) (global_n g) (random g) (drawn g) (console g)
                           (timers g ++ [(delay, t)]) (requests g) (submissions g)) st.

Definition set_timers (ts : list (nat * timeout)) (st : state) : state :=
  on_page (fun g => mkPage (api g) (global_n g) (random g) (drawn g) (console g)
                           ts (requests g) (submissions g)) st.

Definition set_requests (rs : list (pid * request)) (st : state) : state :=
  on_page (fun g => mkPage (api g) (global_n g) (random g) (drawn g) (console g)
                           (timers g) rs (submissions g)) st.

Definition set_submissions (o : Js.obj value) (st : state) : state :=
  on_page (fun g => mkPage (api g) (global_n g) (random g) (drawn g) (console g)
                           (timers g) (requests g) o) st.

Definition set_api (d : drive) (st : state) : state :=
  on_page (fun g => mkPage (Some d) (global_n g) (random g) (drawn g) (console g)
                           (timers g) (requests g) (submissions g)) st.

(** [Math.round(Math.random() * 1000)]. *)
Definition next_random (st : state) : nat * state :=
  (random (Q.world st) (drawn (Q.world st)),
   on_page (fun g => mkPage (api g) (global_n g) (random g) (S (drawn g)) (console g)
                            (timers g) (requests g) (submissions g)) st).

(** A call of a method of [api]: the promise [p] it returns is pending
    until the call is answered. *)
Definition api_call (p : pid) (r : request) (st : state) : state :=
  let st1 := Q.defer pid_eqb p st in
  set_requests (requests (Q.world st1) ++ [(p, r)]) st1.

(** *** The functions of the module *)

Definition promiseRetry (promise : pid) (iteration max : nat) (st : state)
  : pid * state :=
  let deferred := Retry promise iteration Deferred in
  let st1 := Q.defer pid_eqb deferred st in
  let st2 := Q.then_ pid_eqb (Retry promise iteration ThenP) promise
               (Some (RetryResolve deferred)) None st1 in
  let st3 := Q.then_ pid_eqb (Retry promise iteration FailP)
               (Retry promise iteration ThenP)
               None (Some (RetryFail deferred promise iteration max)) st2 in
  (deferred, st3).

(** [getFile(id)]: the promise of [promiseRetry], or [undefined] after
    [console.error] when [api] is unset. *)
Definition getFile (id : string) (st : state) : value * state :=
  match api (Q.world st) with
  | Some _ =>
      let st1 := api_call (Api Suite) (GetFileById id) st in
      let (d, st2) := promiseRetry (Api Suite) 0 5 st1 in
      (VPromise d, st2)
  | None => (VUndefined, console_add (LogError (VString errNoApiMessage)) st)
  end.

(** [getFilesInFolder(folderId)], called in the context [c]. *)
Definition getFilesInFolder (c : ctx) (folderId : string) (st : state)
  : value * state :=
  match api (Q.world st) with
  | Some _ =>
      let st1 := api_call (Api c) (GetFilesInFolder folderId) st in
      let (d, st2) := promiseRetry (Api c) 0 5 st1 in
      (VPromise d, st2)
  | None => (VUndefined, console_add (LogError (VString errNoApiMessage)) st)
  end.

Definition not_a_promise : value :=
  VError (TypeError "Cannot read property 'then' of undefined").

(** The function mapped over [students], for the student at index [i]. *)
Definition student_chain (i : nat) (student : file) (st : state)
  : Q.completion value * state :=
  let name := getName student in
  match getFilesInFolder (Student i) (getUniqueId student) st with
  | (VPromise p, st1) =>
      let st2 := Q.then_ pid_eqb (Chain i CFind) p (Some FindFinal) None st1 in
      let st3 := Q.then_ pid_eqb (Chain i CList) (Chain i CFind)
                   (Some (ListFinal i)) None st2 in
      let st4 := Q.then_ pid_eqb (Chain i CStore) (Chain i CList)
                   (Some (Store name)) None st3 in
      (Q.Return (VPromise (Chain i CStore)), st4)
  | (_, st1) => (Q.Throw not_a_promise, st1)
  end.

(** [students.map(function(student) {...})], from index [i] on. *)
Fixpoint map_students (i : nat) (students : list file) (st : state)
  : (list value + value) * state :=
  match students with
  | [] => (inl [], st)
  | s :: rest =>
      match student_chain i s st with
      | (Q.Return v, st1) =>
          match map_students (S i) rest st1 with
          | (inl vs, st2) => (inl (v :: vs), st2)
          | (inr e, st2) => (inr e, st2)
          end
      | (Q.Throw e, st1) => (inr e, st1)
      end
  end.

Definition is_final_submission (dir : file) : bool :=
  String.eqb (getName dir) "final-submission".

Definition gather_deferred : pid := Gather GDeferred.

(** The closures, called with the value or the error [v]. *)
Definition call (k : cont) (v : value) (st : state) : Q.completion value * state :=
  match k with
  | RetryResolve deferred =>
      (Q.Return VUndefined, Q.resolve pid_eqb as_promise deferred v st)
  | RetryFail deferred promise iteration max =>
      if (max <=? iteration)%nat then
        (Q.Return VUndefined, Q.reject pid_eqb deferred v st)
      else
        match global_n (Q.world st) with
        | None => (Q.Throw (VError (ReferenceError "n")), st)
        | Some n =>
            let (jitter, st1) := next_random st in
            let timeToWait := 2 ^ n * 1000 + jitter in
            let st2 := console_add (LogRetrying timeToWait) st1 in
            (Q.Return VUndefined,
             setTimeout (RetryNow promise (iteration + 1) max) timeToWait st2)
        end
  | Students =>
      match v with
      | VFiles students =>
          match map_students 0 students st with
          | (inl ps, st1) =>
              (Q.Return (VPromise AllP), Q.all pid_eqb as_promise VArray AllP ps st1)
          | (inr e, st1) => (Q.Throw e, st1)
          end
      | _ => (Q.Throw (VError (TypeError "students.map is not a function")), st)
      end
  | FindFinal =>
      match v with
      | VFiles dirs =>
          (Q.Return (match find is_final_submission dirs with
                     | Some dir => VFile dir
                     | None => VUndefined
                     end), st)
      | _ => (Q.Throw (VError (TypeError "dirs.find is not a function")), st)
      end
  | ListFinal i =>
      match v with
      | VUndefined => (Q.Return VNull, st)
      | VFile dir =>
          let (r, st1) := getFilesInFolder (Final i) (getUniqueId dir) st in
          (Q.Return r, st1)
      | _ => (Q.Throw (VError (TypeError "dir.getUniqueId is not a function")), st)
      end
  | Store name =>
      if truthy v then
        (Q.Return v, set_submissions (Js.set name v (submissions (Q.world st))) st)
      else (Q.Return v, st)
  | GatherDone =>
      (Q.Return VUndefined, Q.resolve pid_eqb as_promise gather_deferred VSubmissions st)
  | GatherFail =>
      (Q.Return VUndefined, console_add (LogError v) st)
  end.

(** [gatherSubmissions(submissionsFolderId)]: the promise it returns, or
    the exception of [undefined.then]. *)
Definition gatherSubmissions (submissionsFolderId : string) (st : state)
  : Q.completion value * state :=
  let st0 := set_submissions [] (Q.defer pid_eqb gather_deferred st) in
  match getFilesInFolder Root submissionsFolderId st0 with
  | (VPromise p, st1) =>
      let st2 := Q.then_ pid_eqb (Gather GStudents) p (Some Students) None st1 in
      let st3 := Q.then_ pid_eqb (Gather GDone) (Gather GStudents)
                   (Some GatherDone) None st2 in
      let st4 := Q.then_ pid_eqb (Gather GFail) (Gather GDone)
                   None (Some GatherFail) st3 in
      (Q.Return (VPromise gather_deferred), st4)
  | (_, st1) => (Q.Throw not_a_promise, st1)
  end.

(** *** The event loop *)

(** The function given to [window.storageAPI.then]: the storage API is
    published. *)
Definition storageAPI_resolved (programCollectionAPI : drive) (st : state) : state :=
  set_api programCollectionAPI (console_add (Log "programCollectionAPI:") st).

(** What the browser does between two runs of the tick queue: the call at
    position [k] of [requests] is answered, or the timer at position [k]
    of [timers] fires. *)
Inductive event :=
| Answer (k : nat)
| Timeout (k : nat).

Fixpoint remove_nth {A : Type} (k : nat) (l : list A) : list A :=
  match l, k with
  | [], _ => []
  | _ :: l', O => l'
  | x :: l', S k' => x :: remove_nth k' l'
  end.

Definition perform (ev : event) (st : state) : state :=
  match ev with
  | Answer k =>
      match nth_error (requests (Q.world st)) k, api (Q.world st) with
      | Some (p, r), Some d =>
          let st1 := set_requests (remove_nth k (requests (Q.world st))) st in
          match d r with
          | Found v => Q.settle pid_eqb p (Q.Fulfilled v) st1
          | Failed e => Q.settle pid_eqb p (Q.Rejected e) st1
          end
      | _, _ => st
      end
  | Timeout k =>
      match nth_error (timers (Q.world st)) k with
      | Some (_, RetryNow promise iteration max) =>
          let st1 := set_timers (remove_nth k (timers (Q.world st))) st in
          let st2 := console_add (Log "...retrying request now.") st1 in
          snd (promiseRetry promise iteration max st2)
      | None => st
      end
  end.

Definition drain (fuel : nat) (st : state) : state :=
  Q.drain pid_eqb as_promise VArray call fuel st.

(** One turn of the event loop: the event, then the tick queue. *)
Definition turn (fuel : nat) (ev : event) (st : state) : state :=
  drain fuel (perform ev st).

Definition run (fuel : nat) (evs : list event) (st : state) : state :=
  fold_left (fun st ev => turn fuel ev st) evs st.

(** The page when the module has been loaded. *)
Definition loaded (n : option nat) (rnd : nat -> nat) : state :=
  Q.mkState (fun _ => Q.Free) (fun _ => []) [] false
            (mkPage None n rnd 0 [] [] [] []).

Definition promise_state (p : pid) (st : state) : Q.cell pid cont value :=
  Q.heap st p.

End Grade.

(** ** The modal prompt: [Prompt], [show], [populateModal], [onClose],
    [onSubmit] *)

Module Modal.

(** A [ModalOption]. *)
Record modal_option := mkOption {
  message : string;
  option_value : string;
  example : option string
}.

(** The argument of the constructor. *)
Record config := mkConfig {
  style : string;
  options : option (list modal_option);   (* [options.options], when given *)
  hideSubmit : bool;
  title : string
}.

Inductive value :=
| VUndefined
| VNull
| VString (s : string)
| VError (msg : string)
| VPromise (p : nat).

Definition as_promise (v : value) : option nat :=
  match v with VPromise p => Some p | _ => None end.

(** A [Prompt] object.  [deferred] and [promise] are [None] when the
    property is absent; [filled] tells whether [this.elts] holds the option
    elements; [checked] is the radio button of this prompt that is checked. *)
Record prompt := mkPrompt {
  this_options : config;
  deferred : option nat;
  promise : option nat;
  isCompiled : bool;
  filled : bool;
  checked : option nat
}.

(** The functions bound to the page.  The number tells apart the closures
    [docClick] and [docKeydown] of different calls of the queue callback. *)
Inductive handler :=
| OnClose (i : nat)               (* this.onClose.bind(this) *)
| OnSubmit (i : nat)              (* this.onSubmit.bind(this) *)
| DocClick (i : nat) (fn : nat)
| DocKeydown (i : nat) (fn : nat).

Definition handler_eqb (a b : handler) : bool :=
  match a, b with
  | OnClose i, OnClose j | OnSubmit i, OnSubmit j => Nat.eqb i j
  | DocClick i f, DocClick j g | DocKeydown i f, DocKeydown j g =>
      Nat.eqb i j && Nat.eqb f g
  | _, _ => false
  end.

(** The closures given to [then]. *)
Inductive cont :=
| ShowTurn (i : nat)
    (* the function given to promptQueue.then in show *)
| Callback (f : value -> Q.completion value).
    (* the callback given to show *)

(** The page: the [Prompt] objects, the modal [#promptModal] with its
    inline [display], the prompt whose [elts] is in [.modal-body], the
    title, the submit button, and the handlers bound to the close button,
    the submit button and the document. *)
Record page := mkPage {
  prompts : list prompt;
  display_block : bool;
  body : option nat;
  title_text : string;
  submit_shown : bool;
  close_click : list handler;
  submit_click : list handler;
  document_click : list handler;
  document_keydown : list handler;
  next_promise : nat;
  next_fn : nat
}.

Definition state := Q.state nat cont value page.

(** [promptQueue = Q()]: promise 0, fulfilled with [undefined]. *)
Definition promptQueue : nat := 0.

Definition on_page (f : page -> page) (st : state) : state :=
  Q.with_world (f (Q.world st)) st.

Fixpoint update {A : Type} (i : nat) (f : A -> A) (l : list A) : list A :=
  match l, i with
  | [], _ => []
  | x :: l', O => f x :: l'
  | x :: l', S i' => x :: update i' f l'
  end.

Definition on_prompt (i : nat) (f : prompt -> prompt) (st : state) : state :=
  on_page (fun g => mkPage (update i f (prompts g)) (display_block g) (body g)
                           (title_text g) (submit_shown g) (close_click g)
                           (submit_click g) (document_click g)
                           (document_keydown g) (next_promise g) (next_fn g)) st.

Definition get_prompt (i : nat) (st : state) : option prompt :=
  nth_error (prompts (Q.world st)) i.

(** A fresh promise name. *)
Definition fresh_promise (st : state) : nat * state :=
  let p := next_promise (Q.world st) in
  (p, on_page (fun g => mkPage (prompts g) (display_block g) (body g)
                               (title_text g) (submit_shown g) (close_click g)
                               (submit_click g) (document_click g)
                               (document_keydown g) (S p) (next_fn g)) st).

Definition fresh_fn (st : state) : nat * state :=
  let n := next_fn (Q.world st) in
  (n, on_page (fun g => mkPage (prompts g) (display_block g) (body g)
                               (title_text g) (submit_shown g) (close_click g)
                               (submit_click g) (document_click g)
                               (document_keydown g) (next_promise g) (S n)) st).

Definition invalid_options : value := VError "Invalid Prompt Options".

(** The test the constructor makes. *)
Definition valid (options : option config) : bool :=
  match options with
  | None => false
  | Some c =>
      (String.eqb (style c) "radio" || String.eqb (style c) "tiles")
      && match Modal.options c with
         | Some (_ :: _) => true
         | _ => false
         end
  end.

(** [new Prompt(options)]: the index of the new object. *)
Definition Prompt (options : option config) (st : state)
  : Q.completion value * option nat * state :=
  match options with
  | Some c =>
      if valid options then
        let i := List.length (prompts (Q.world st)) in
        (Q.Return VUndefined, Some i,
         on_page (fun g => mkPage (prompts g ++ [mkPrompt c None None false false None])
                                  (display_block g) (body g)
                                  (title_text g) (submit_shown g) (close_click g)
                                  (submit_click g) (document_click g)
                                  (document_keydown g) (next_promise g) (next_fn g)) st)
      else (Q.Throw invalid_options, None, st)
  | None => (Q.Throw invalid_options, None, st)
  end.

Definition set_display (b : bool) (st : state) : state :=
  on_page (fun g => mkPage (prompts g) b (body g)
                           (title_text g) (submit_shown g) (close_click g)
                           (submit_click g) (document_click g)
                           (document_keydown g) (next_promise g) (next_fn g)) st.

(** [clearModal]: [this.elts.empty()]. *)
Definition clearModal (i : nat) (st : state) : state :=
  on_prompt i (fun p => mkPrompt (this_options p) (deferred p) (promise p)
                                 (isCompiled p) false (checked p)) st.

(** [populateModal]: the option elements are built once, the first radio
    button is checked, the elements are put into [this.elts], and
    [this.elts] replaces the content of [.modal-body]. *)
Definition populateModal (i : nat) (st : state) : state :=
  let st1 :=
    on_prompt i (fun p =>
      mkPrompt (this_options p) (deferred p) (promise p) true true
               (if String.eqb (style (this_options p)) "radio" then Some 0
                else checked p)) st in
  on_page (fun g => mkPage (prompts g) (display_block g) (Some i)
                           (title_text g) (submit_shown g) (close_click g)
                           (submit_click g) (document_click g)
                           (document_keydown g) (next_promise g) (next_fn g)) st1.

(** [$("input[type='radio']:checked", this.modal).val()]: the value of the
    checked radio button among the elements in the modal, [undefined]
    when there is none. *)
Definition checked_value (st : state) : value :=
  match body (Q.world st) with
  | Some j =>
      match get_prompt j st with
      | Some p =>
          if filled p && String.eqb (style (this_options p)) "radio" then
            match checked p, options (this_options p) with
            | Some k, Some os =>
                match nth_error os k with
                | Some o => VString (option_value o)
                | None => VUndefined
                end
            | _, _ => VUndefined
            end
          else VUndefined
      | None => VUndefined
      end
  | None => VUndefined
  end.

Definition no_deferred : value :=
  VError "Cannot read property 'resolve' of undefined".

(** The tail of [onClose] and [onSubmit]: hide the modal, clear it,
    resolve [this.deferred] with [v], delete [deferred] and [promise]. *)
Definition finish (i : nat) (v : value) (st : state) : Q.completion value * state :=
  let st1 := clearModal i (set_display false st) in
  match get_prompt i st1 with
  | Some p =>
      match deferred p with
      | Some d =>
          let st2 := Q.resolve Nat.eqb as_promise d v st1 in
          (Q.Return VUndefined,
           on_prompt i (fun p => mkPrompt (this_options p) None None
                                          (isCompiled p) (filled p) (checked p)) st2)
      | None => (Q.Throw no_deferred, st1)
      end
  | None => (Q.Throw no_deferred, st1)
  end.

Definition onClose (i : nat) (st : state) : Q.completion value * state :=
  finish i VNull st.

Definition onSubmit (i : nat) (st : state) : Q.completion value * state :=
  let retval := checked_value st in
  finish i retval st.

Definition off (h : handler) (l : list handler) : list handler :=
  filter (fun x => negb (handler_eqb x h)) l.

Definition off_click (h : handler) (st : state) : state :=
  on_page (fun g => mkPage (prompts g) (display_block g) (body g)
                           (title_text g) (submit_shown g) (close_click g)
                           (submit_click g) (off h (document_click g))
                           (document_keydown g) (next_promise g) (next_fn g)) st.

Definition off_keydown (h : handler) (st : state) : state :=
  on_page (fun g => mkPage (prompts g) (display_block g) (body g)
                           (title_text g) (submit_shown g) (close_click g)
                           (submit_click g) (document_click g)
                           (off h (document_keydown g)) (next_promise g) (next_fn g)) st.

(** What the user does. *)
Inductive action :=
| ClickClose              (* a click on the close button *)
| ClickSubmit             (* a click on the submit button *)
| ClickModal              (* a click on the modal itself, outside its content *)
| ClickElsewhere
| Key (key : string)      (* a key pressed *)
| Select (k : nat).       (* the radio button of option [k] chosen *)

Definition is_deferred (i : nat) (st : state) : bool :=
  match get_prompt i st with
  | Some p => match deferred p with Some _ => true | None => false end
  | None => false
  end.

(** A bound function called for the event [a]. *)
Definition handle (h : handler) (a : action) (st : state) : Q.completion value * state :=
  match h with
  | OnClose i => onClose i st
  | OnSubmit i => onSubmit i st
  | DocClick i fn =>
      match a with
      | ClickModal =>
          if is_deferred i st then
            match onClose i st with
            | (Q.Return _, st1) => (Q.Return VUndefined, off_click (DocClick i fn) st1)
            | r => r
            end
          else (Q.Return VUndefined, st)
      | _ => (Q.Return VUndefined, st)
      end
  | DocKeydown i fn =>
      match a with
      | Key k =>
          if String.eqb k "Escape" then
            match onClose i st with
            | (Q.Return _, st1) => (Q.Return VUndefined, off_keydown (DocKeydown i fn) st1)
            | r => r
            end
          else (Q.Return VUndefined, st)
      | _ => (Q.Return VUndefined, st)
      end
  end.

(** jQuery calls the functions bound to an element for an event in the
    order they were bound; an exception ends the calls. *)
Fixpoint dispatch (hs : list handler) (a : action) (st : state) : state :=
  match hs with
  | [] => st
  | h :: hs' =>
      match handle h a st with
      | (Q.Return _, st1) => dispatch hs' a st1
      | (Q.Throw _, st1) => st1
      end
  end.

Definition select (k : nat) (st : state) : state :=
  match body (Q.world st) with
  | Some j =>
      on_prompt j (fun p => mkPrompt (this_options p) (deferred p) (promise p)
                                     (isCompiled p) (filled p) (Some k)) st
  | None => st
  end.

(** The event reaches the element clicked and then the document. *)
Definition act (a : action) (st : state) : state :=
  match a with
  | ClickClose =>
      let st1 := dispatch (close_click (Q.world st)) a st in
      dispatch (document_click (Q.world st1)) a st1
  | ClickSubmit =>
      let st1 := dispatch (submit_click (Q.world st)) a st in
      dispatch (document_click (Q.world st1)) a st1
  | ClickModal | ClickElsewhere => dispatch (document_click (Q.world st)) a st
  | Key _ => dispatch (document_keydown (Q.world st)) a st
  | Select k => select k st
  end.

(** The function given to [promptQueue.then]. *)
Definition show_turn (i : nat) (st : state) : Q.completion value * state :=
  match get_prompt i st with
  | Some p =>
      let (f1, st1) := fresh_fn st in
      let (f2, st2) := fresh_fn st1 in
      let st3 :=
        on_page (fun g =>
          mkPage (prompts g) (display_block g) (body g)
                 (title (this_options p))
                 (negb (hideSubmit (this_options p)))
                 (close_click g ++ [OnClose i])
                 (submit_click g ++ [OnSubmit i])
                 (document_click g ++ [DocClick i f1])
                 (document_keydown g ++ [DocKeydown i f2])
                 (next_promise g) (next_fn g)) st2 in
      let st4 := set_display true (populateModal i st3) in
      (Q.Return (match promise p with Some d => VPromise d | None => VUndefined end),
       st4)
  | None => (Q.Throw (VError "not a Prompt"), st)
  end.

Definition call (k : cont) (v : value) (st : state) : Q.completion value * state :=
  match k with
  | ShowTurn i => show_turn i st
  | Callback f => (f v, st)
  end.

Definition already_showing : value := VError "Already showing prompt".

(** [show(callback)]. *)
Definition show (i : nat) (callback : option (value -> Q.completion value))
  (st : state) : Q.completion value * state :=
  if is_deferred i st then (Q.Throw already_showing, st)
  else
    let (d, st1) := fresh_promise st in
    let st2 := Q.defer Nat.eqb d st1 in
    let st3 := on_prompt i (fun p => mkPrompt (this_options p) (Some d) (Some d)
                                              (isCompiled p) (filled p) (checked p)) st2 in
    let (q, st4) := fresh_promise st3 in
    let st5 := Q.then_ Nat.eqb q promptQueue (Some (ShowTurn i)) None st4 in
    match callback with
    | Some f =>
        let (r, st6) := fresh_promise st5 in
        (Q.Return (VPromise r),
         Q.then_ Nat.eqb r d (Some (Callback f)) None st6)
    | None => (Q.Return (VPromise d), st5)
    end.

Definition drain (fuel : nat) (st : state) : state :=
  Q.drain Nat.eqb as_promise (fun _ => VUndefined) call fuel st.

(** The page when the module has been loaded: no prompt yet, the modal
    hidden and empty, nothing bound. *)
Definition loaded : state :=
  Q.mkState (fun p => if Nat.eqb p promptQueue then Q.Settled (Q.Fulfilled VUndefined)
                      else Q.Free)
            (fun _ => []) [] false
            (mkPage [] false None "" true [] [] [] [] 1 0).

(** The prompt the user sees, if any: the modal is displayed and
    [.modal-body] holds the filled elements of prompt [i]. *)
Definition visible (st : state) : option nat :=
  if display_block (Q.world st) then
    match body (Q.world st) with
    | Some i =>
        match get_prompt i st with
        | Some p => if filled p then Some i else None
        | None => None
        end
    | None => None
    end
  else None.

End Modal.

(** ** Facts about the promise kernel *)

Module QFacts.
Section Kernel.

Context {pid cont value W : Type}.
Variable pid_eqb : pid -> pid -> bool.
Variable as_promise : value -> option pid.
Variable array_of : list value -> value.
Variable call : cont -> value -> Q.state pid cont value W
                -> Q.completion value * Q.state pid cont value W.

(** With nothing queued the tick queue run changes nothing. *)
Lemma drain_quiet (fuel : nat) (st : Q.state pid cont value W) :
  Q.ticks st = [] -> Q.drain pid_eqb as_promise array_of call fuel st = st.
Proof.
  intros H. destruct fuel; cbn; [reflexivity|]. now rewrite H.
Qed.

(** The kernel operations leave the rest of the page alone. *)
Lemma world_settle (p : pid) (s : Q.settled value) (st : Q.state pid cont value W) :
  Q.world (Q.settle pid_eqb p s st) = Q.world st.
Proof. unfold Q.settle. now destruct (Q.heap st p). Qed.

Lemma world_subscribe (p : pid) (r : Q.reaction pid cont) (st : Q.state pid cont value W) :
  Q.world (Q.subscribe pid_eqb p r st) = Q.world st.
Proof. unfold Q.subscribe. now destruct (Q.heap st p). Qed.

Lemma world_resolve (p : pid) (v : value) (st : Q.state pid cont value W) :
  Q.world (Q.resolve pid_eqb as_promise p v st) = Q.world st.
Proof.
  unfold Q.resolve. destruct (as_promise v).
  - destruct (Q.heap st p); auto using world_subscribe.
  - apply world_settle.
Qed.

Lemma world_defer (p : pid) (st : Q.state pid cont value W) :
  Q.world (Q.defer pid_eqb p st) = Q.world st.
Proof. unfold Q.defer. now destruct (Q.heap st p). Qed.

Lemma world_then (d p : pid) (f r : option cont) (st : Q.state pid cont value W) :
  Q.world (Q.then_ pid_eqb d p f r st) = Q.world st.
Proof. unfold Q.then_. now rewrite world_subscribe, world_defer. Qed.

End Kernel.
End QFacts.

(** ** Facts about the grading dashboard *)

Module GradeFacts.
Import Grade.

Definition is_pending (p : pid) (st : state) : Prop :=
  exists rs, promise_state p st = Q.Pending rs.

Definition is_settled (p : pid) (st : state) : Prop :=
  exists s, promise_state p st = Q.Settled s.

Lemma nth_error_nil {A : Type} (k : nat) : nth_error (@nil A) k = None.
Proof. now destruct k. Qed.

Lemma nth_error_single {A : Type} (x : A) (k : nat) :
  nth_error [x] (S k) = None.
Proof. now destruct k. Qed.

Lemma drain_at_rest (fuel : nat) (st : state) :
  Q.ticks st = [] -> drain fuel st = st.
Proof. apply QFacts.drain_quiet. Qed.

(** *** [getFile] and [getFilesInFolder] before the storage API is there *)

(** C6, as stated, fails: on the page as loaded, with [api] unset, both
    functions return [undefined], which is no promise, so that nothing is
    rejected; [gatherSubmissions] then throws on [undefined.then]. *)
Lemma getFile_unset_returns_no_promise :
  let st := loaded None (fun _ => 0) in
  fst (getFile "suite" st) = VUndefined /\
  fst (getFilesInFolder Root "folder" st) = VUndefined /\
  as_promise (fst (getFile "suite" st)) = None /\
  as_promise (fst (getFilesInFolder Root "folder" st)) = None /\
  fst (gatherSubmissions "folder" st) = Q.Throw not_a_promise.
Proof. repeat split. Qed.

(** C6, amended.  While [api] is unset, [getFile] and [getFilesInFolder]
    write the message "Attempted to get file(s) before storageAPI defined"
    with [console.error] and return [undefined]: they return no promise,
    make no call of the storage API and create no promise. *)
Theorem getFile_unset_logs_and_returns_undefined
  (st : state) (id : string) (c : ctx) :
  api (Q.world st) = None ->
  getFile id st =
    (VUndefined, console_add (LogError (VString errNoApiMessage)) st) /\
  getFilesInFolder c id st =
    (VUndefined, console_add (LogError (VString errNoApiMessage)) st) /\
  requests (Q.world (snd (getFile id st))) = requests (Q.world st) /\
  requests (Q.world (snd (getFilesInFolder c id st))) = requests (Q.world st) /\
  Q.heap (snd (getFile id st)) = Q.heap st /\
  Q.heap (snd (getFilesInFolder c id st)) = Q.heap st.
Proof.
  intros H. unfold getFile, getFilesInFolder. rewrite H. cbn. repeat split.
Qed.

Lemma getFile_unset_logs_and_returns_undefined_witness :
  fst (getFile "suite" (loaded None (fun _ => 0))) = VUndefined.
Proof.
  pose proof (getFile_unset_logs_and_returns_undefined
                (loaded None (fun _ => 0)) "suite" Root eq_refl) as [E _].
  now rewrite E.
Defined.

(** *** [promiseRetry] *)

(** A page at rest with one call not answered and no timer: an event
    either changes nothing or answers that call. *)
Lemma turn_one_request (fuel : nat) (st : state) (x : pid * request) (ev : event) :
  Q.ticks st = [] -> requests (Q.world st) = [x] -> timers (Q.world st) = [] ->
  turn fuel ev st = st \/ turn fuel ev st = turn fuel (Answer 0) st.
Proof.
  intros T R M. destruct ev as [[|k]|k]; [now right| |]; left; unfold turn, perform.
  - rewrite R, nth_error_single. now apply drain_at_rest.
  - rewrite M, nth_error_nil. now apply drain_at_rest.
Qed.

(** A page at rest with no call to answer and at most one timer: an event
    either changes nothing or fires that timer. *)
Lemma turn_one_timer (fuel : nat) (st : state) (ev : event) :
  Q.ticks st = [] -> requests (Q.world st) = [] ->
  (List.length (timers (Q.world st)) <= 1)%nat ->
  turn fuel ev st = st \/ turn fuel ev st = turn fuel (Timeout 0) st.
Proof.
  intros T R M. destruct ev as [k|[|k]]; [| now right |]; left; unfold turn, perform.
  - rewrite R, nth_error_nil. now apply drain_at_rest.
  - destruct (timers (Q.world st)) as [|t [|t' ts]]; cbn in M; try lia.
    + cbn. now apply drain_at_rest.
    + rewrite nth_error_single. now apply drain_at_rest.
Qed.

(** The states a page with one call goes through: the answer, then the
    timers one after the other. *)
Fixpoint after (fuel : nat) (st : state) (k : nat) : state :=
  match k with
  | O => st
  | 1 => turn fuel (Answer 0) st
  | S k' => turn fuel (Timeout 0) (after fuel st k')
  end.

Definition at_rest (st : state) : Prop :=
  Q.ticks st = [] /\ requests (Q.world st) = [] /\
  (List.length (timers (Q.world st)) <= 1)%nat.

Lemma run_after (fuel : nat) (st : state) (x : pid * request) (evs : list event) :
  Q.ticks st = [] -> requests (Q.world st) = [x] -> timers (Q.world st) = [] ->
  (forall k, at_rest (after fuel st (S k))) ->
  exists k, run fuel evs st = after fuel st k.
Proof.
  intros T R M C.
  assert (G : forall evs k, exists k', run fuel evs (after fuel st k) = after fuel st k').
  { clear evs. induction evs as [|ev evs IH]; intros k; [now exists k|].
    cbn [run fold_left]. fold (run fuel evs (turn fuel ev (after fuel st k))).
    destruct k as [|k].
    - cbn [after].
      destruct (turn_one_request fuel st x ev T R M) as [E|E]; rewrite E.
      + apply (IH 0).
      + apply (IH 1).
    - destruct (C k) as (T' & R' & M').
      destruct (turn_one_timer fuel _ ev T' R' M') as [E|E]; rewrite E.
      + apply (IH (S k)).
      + apply (IH (S (S k))). }
  apply (G evs 0).
Qed.


(** Once no timer is left the page stays as it is. *)
Lemma after_settled (fuel : nat) (st : state) (k0 k : nat) :
  Q.ticks (after fuel st (S k0)) = [] ->
  timers (Q.world (after fuel st (S k0))) = [] ->
  after fuel st (S k0 + k) = after fuel st (S k0).
Proof.
  intros T M. induction k as [|k IH]; [now rewrite Nat.add_0_r|].
  replace (S k0 + S k) with (S (S k0 + k)) by lia.
  change (after fuel st (S (S k0 + k)))
    with (turn fuel (Timeout 0) (after fuel st (S k0 + k))).
  rewrite IH. unfold turn, perform. rewrite M. cbn [nth_error].
  now apply drain_at_rest.
Qed.

Section Retrying.

Variables (d : drive) (id : string) (e : value) (rnd : nat -> nat).
Hypothesis fails : d (GetFilesInFolder id) = Failed e.

(** The page after [getFilesInFolder(id)], and the promise it returned. *)
Definition listing (n : option nat) : state :=
  snd (getFilesInFolder Root id (storageAPI_resolved d (loaded n rnd))).

Definition wrapper : pid := Retry (Api Root) 0 Deferred.

Lemma listing_returns (n : option nat) :
  fst (getFilesInFolder Root id (storageAPI_resolved d (loaded n rnd)))
  = VPromise wrapper.
Proof. reflexivity. Qed.

Lemma listing_requests (n : option nat) :
  requests (Q.world (listing n)) = [(Api Root, GetFilesInFolder id)].
Proof. reflexivity. Qed.

Lemma listing_api (n : option nat) : api (Q.world (listing n)) = Some d.
Proof. reflexivity. Qed.

Lemma answer_failed (fuel : nat) (n : option nat) :
  turn fuel (Answer 0) (listing n) =
  drain fuel (Q.settle pid_eqb (Api Root) (Q.Rejected e)
                (set_requests [] (listing n))).
Proof.
  unfold turn, perform. rewrite listing_requests, listing_api.
  cbn [nth_error remove_nth]. now rewrite fails.
Qed.

Ltac path_step :=
  cbn [after]; rewrite answer_failed;
  unfold at_rest, promise_state; vm_compute; repeat split; lia.

(** The first seven states after the call; in the seventh no timer is
    left. *)
Lemma after_failed_first (n : option nat) (f k : nat) :
  (k <= 6)%nat ->
  at_rest (after (8 + f) (listing n) (S k)) /\
  promise_state wrapper (after (8 + f) (listing n) (S k)) = Q.Pending [].
Proof.
  intros H.
  destruct n as [m|];
    (destruct k as [|[|[|[|[|[|[|k]]]]]]]; [path_step ..|lia]).
Qed.

Lemma after_failed_last (n : option nat) (f : nat) :
  timers (Q.world (after (8 + f) (listing n) 7)) = [].
Proof.
  destruct n as [m|]; cbn [after]; rewrite answer_failed; reflexivity.
Qed.

Lemma after_failed (n : option nat) (f k : nat) :
  at_rest (after (8 + f) (listing n) (S k)) /\
  promise_state wrapper (after (8 + f) (listing n) (S k)) = Q.Pending [].
Proof.
  destruct (Nat.le_gt_cases k 6) as [H|H]; [now apply after_failed_first|].
  replace (S k) with (7 + (k - 6)) by lia.
  rewrite (after_settled (8 + f) (listing n) 6 (k - 6)).
  - apply after_failed_first; lia.
  - apply (after_failed_first n f 6); lia.
  - apply after_failed_last.
Qed.

(** C1, at a request that fails.  [getFilesInFolder(id)] wraps the call in
    [promiseRetry(_, 0, 5)]; when the storage API rejects the call, the
    promise the wrapper returned is still pending after any sequence of
    answers and timers: it is never rejected with the failure and never
    resolved, whether or not the page binds the identifier [n]. *)
Theorem promiseRetry_failed_request_never_settles
  (n : option nat) (f : nat) (evs : list event) :
  fst (getFilesInFolder Root id (storageAPI_resolved d (loaded n rnd)))
    = VPromise wrapper /\
  exists rs, promise_state wrapper (run (8 + f) evs (listing n)) = Q.Pending rs.
Proof.
  split; [reflexivity|].
  destruct (run_after (8 + f) (listing n) (Api Root, GetFilesInFolder id) evs)
    as [k E]; try reflexivity.
  - intros k. apply after_failed.
  - rewrite E. destruct k as [|k].
    + cbn [after]. eexists. reflexivity.
    + exists []. apply after_failed.
Qed.

(** With [n] unbound, as in the module, the failure is followed by no
    retry at all: the handler given to [fail] throws the reference error,
    no timer is set and nothing is logged. *)
Lemma promiseRetry_failed_request_no_retry (f : nat) :
  let st := turn (8 + f) (Answer 0) (listing None) in
  promise_state (Retry (Api Root) 0 FailP) st
    = Q.Settled (Q.Rejected (VError (ReferenceError "n"))) /\
  timers (Q.world st) = [] /\ requests (Q.world st) = [] /\
  console (Q.world st) = [Log "programCollectionAPI:"] /\
  promise_state wrapper st = Q.Pending [].
Proof.
  cbv zeta. rewrite answer_failed. repeat split.
Qed.

End Retrying.

(** A request that succeeds at once resolves the wrapper with its value,
    without a retry. *)
Lemma promiseRetry_success (d : drive) (id : string) (files : list file)
  (n : option nat) (rnd : nat -> nat) (f : nat) :
  d (GetFilesInFolder id) = Found (VFiles files) ->
  let st := turn (8 + f) (Answer 0) (listing d id rnd n) in
  promise_state wrapper st = Q.Settled (Q.Fulfilled (VFiles files)) /\
  timers (Q.world st) = [] /\
  console (Q.world st) = [Log "programCollectionAPI:"].
Proof.
  intros H. cbv zeta. unfold turn, perform.
  rewrite listing_requests, listing_api. cbn [nth_error remove_nth]. rewrite H.
  repeat split.
Qed.

Definition always_fails : drive := fun _ => Failed (VError (RemoteError "500")).

Lemma promiseRetry_failed_request_never_settles_witness :
  always_fails (GetFilesInFolder "folder") = Failed (VError (RemoteError "500")) /\
  exists rs,
    promise_state wrapper
      (run 8 [Answer 0; Timeout 0]
           (listing always_fails "folder" (fun _ => 0) None)) = Q.Pending rs.
Proof.
  split; [reflexivity|].
  apply (promiseRetry_failed_request_never_settles
           always_fails "folder" (VError (RemoteError "500")) (fun _ => 0)
           eq_refl None 0 [Answer 0; Timeout 0]).
Defined.

(** *** The wait before a retry *)

(** C5, at every failed attempt that is followed by a retry.  The handler
    reads the identifier [n], not the attempt: with [n] unbound, as in the
    module, it throws the reference error before any wait is computed and
    sets no timer; were [n] bound to a number [m], the wait would be
    2^m * 1000 plus the jitter at every attempt. *)
Theorem promiseRetry_wait_ignores_attempt
  (st : state) (deferred promise : pid) (iteration max : nat) (err : value) :
  (iteration < max)%nat ->
  match global_n (Q.world st) with
  | None =>
      call (RetryFail deferred promise iteration max) err st
      = (Q.Throw (VError (ReferenceError "n")), st)
  | Some m =>
      fst (call (RetryFail deferred promise iteration max) err st)
        = Q.Return VUndefined /\
      timers (Q.world (snd (call (RetryFail deferred promise iteration max) err st)))
        = (timers (Q.world st)
           ++ [(2 ^ m * 1000 + random (Q.world st) (drawn (Q.world st)),
                RetryNow promise (iteration + 1) max)])%list
  end.
Proof.
  intros H. cbn [call]. apply Nat.leb_gt in H. rewrite H.
  destruct (global_n (Q.world st)) as [m|]; [|reflexivity].
  split; reflexivity.
Qed.

Lemma promiseRetry_wait_ignores_attempt_witness :
  call (RetryFail wrapper (Api Root) 0 5) (VError (RemoteError "500"))
       (loaded None (fun _ => 0))
  = (Q.Throw (VError (ReferenceError "n")), loaded None (fun _ => 0)).
Proof.
  apply (promiseRetry_wait_ignores_attempt
           (loaded None (fun _ => 0)) wrapper (Api Root) 0 5
           (VError (RemoteError "500"))).
  lia.
Defined.

(** *** [gatherSubmissions] on two students *)

(** An assignment folder with the students alice and bob; alice has a
    final-submission folder with two files, bob has none. *)
Definition alice_bob : drive := fun r =>
  match r with
  | GetFilesInFolder fid =>
      if String.eqb fid "root" then
        Found (VFiles [mkFile "alice" "a"; mkFile "bob" "b"])
      else if String.eqb fid "a" then
        Found (VFiles [mkFile "drafts" "ad"; mkFile "final-submission" "af"])
      else if String.eqb fid "af" then
        Found (VFiles [mkFile "impl.arr" "f1"; mkFile "tests.arr" "f2"])
      else if String.eqb fid "b" then
        Found (VFiles [mkFile "drafts" "bd"])
      else Failed (VError (RemoteError "404"))
  | GetFileById _ => Failed (VError (RemoteError "404"))
  end.

(** The page after [gatherSubmissions(id)]. *)
Definition gathering (d : drive) (id : string) (n : option nat) (rnd : nat -> nat)
  : state :=
  snd (gatherSubmissions id (storageAPI_resolved d (loaded n rnd))).

(** C3, as stated, fails: when every call has been answered, the promise
    of [gatherSubmissions] is resolved with a mapping that holds the files
    of alice and has no key for bob; it is not {alice: files, bob: null}. *)
Lemma gatherSubmissions_drops_bob :
  let st := run 16 [Answer 0; Answer 0; Answer 0; Answer 0]
                (gathering alice_bob "root" None (fun _ => 0)) in
  Q.ticks st = [] /\ requests (Q.world st) = [] /\
  promise_state gather_deferred st = Q.Settled (Q.Fulfilled VSubmissions) /\
  submissions (Q.world st)
    = [("alice", VFiles [mkFile "impl.arr" "f1"; mkFile "tests.arr" "f2"])] /\
  Js.get "bob" (submissions (Q.world st)) = None /\
  Js.get "bob" (submissions (Q.world st)) <> Some VNull.
Proof. vm_compute. repeat split. discriminate. Qed.

(** C4, as stated, fails: when the listing of the assignment folder is
    rejected, the page comes to rest with the promise of
    [gatherSubmissions] pending: it is not rejected, and nothing is left
    that could settle it. *)
Lemma gatherSubmissions_failure_not_rejected :
  let st := run 16 [Answer 0] (gathering always_fails "root" None (fun _ => 0)) in
  Q.ticks st = [] /\ requests (Q.world st) = [] /\ timers (Q.world st) = [] /\
  promise_state gather_deferred st = Q.Pending [] /\
  (forall e, promise_state gather_deferred st <> Q.Settled (Q.Rejected e)).
Proof. vm_compute. repeat split. discriminate. Qed.

(** *** [gatherSubmissions] when the assignment folder cannot be listed *)

Section RootFails.

Variables (d : drive) (id : string) (e : value) (rnd : nat -> nat).
Hypothesis fails : d (GetFilesInFolder id) = Failed e.

Lemma gathering_requests (n : option nat) :
  requests (Q.world (gathering d id n rnd)) = [(Api Root, GetFilesInFolder id)].
Proof. reflexivity. Qed.

Lemma gathering_api (n : option nat) :
  api (Q.world (gathering d id n rnd)) = Some d.
Proof. reflexivity. Qed.

Lemma gathering_answer_failed (fuel : nat) (n : option nat) :
  turn fuel (Answer 0) (gathering d id n rnd) =
  drain fuel (Q.settle pid_eqb (Api Root) (Q.Rejected e)
                (set_requests [] (gathering d id n rnd))).
Proof.
  unfold turn, perform. rewrite gathering_requests, gathering_api.
  cbn [nth_error remove_nth]. now rewrite fails.
Qed.

Lemma gathering_after_first (n : option nat) (f k : nat) :
  (k <= 6)%nat ->
  at_rest (after (8 + f) (gathering d id n rnd) (S k)) /\
  promise_state gather_deferred (after (8 + f) (gathering d id n rnd) (S k))
    = Q.Pending [] /\
  Forall (fun l => forall v, l <> LogError v)
         (console (Q.world (after (8 + f) (gathering d id n rnd) (S k)))).
Proof.
  intros H.
  destruct n as [m|];
    (destruct k as [|[|[|[|[|[|[|k]]]]]]];
     [cbn [after]; rewrite gathering_answer_failed;
      unfold at_rest, promise_state; vm_compute;
      (split; [repeat split; lia|split; [reflexivity|]]);
      repeat constructor; discriminate ..|lia]).
Qed.

Lemma gathering_after_last (n : option nat) (f : nat) :
  timers (Q.world (after (8 + f) (gathering d id n rnd) 7)) = [].
Proof.
  destruct n as [m|]; cbn [after]; rewrite gathering_answer_failed; reflexivity.
Qed.

Lemma gathering_after (n : option nat) (f k : nat) :
  at_rest (after (8 + f) (gathering d id n rnd) (S k)) /\
  promise_state gather_deferred (after (8 + f) (gathering d id n rnd) (S k))
    = Q.Pending [] /\
  Forall (fun l => forall v, l <> LogError v)
         (console (Q.world (after (8 + f) (gathering d id n rnd) (S k)))).
Proof.
  destruct (Nat.le_gt_cases k 6) as [H|H]; [now apply gathering_after_first|].
  replace (S k) with (7 + (k - 6)) by lia.
  rewrite (after_settled (8 + f) (gathering d id n rnd) 6 (k - 6)).
  - apply gathering_after_first; lia.
  - apply (gathering_after_first n f 6); lia.
  - apply gathering_after_last.
Qed.

(** When the storage API rejects the listing of the assignment folder, the
    promise [gatherSubmissions] returned is pending after any sequence of
    answers and timers, and [console.error] has not been called. *)
Lemma gatherSubmissions_root_failure_pending
  (n : option nat) (f : nat) (evs : list event) :
  fst (gatherSubmissions id (storageAPI_resolved d (loaded n rnd)))
    = Q.Return (VPromise gather_deferred) /\
  promise_state gather_deferred (run (8 + f) evs (gathering d id n rnd))
    = Q.Pending [] /\
  Forall (fun l => forall v, l <> LogError v)
         (console (Q.world (run (8 + f) evs (gathering d id n rnd)))).
Proof.
  split; [reflexivity|].
  destruct (run_after (8 + f) (gathering d id n rnd)
              (Api Root, GetFilesInFolder id) evs) as [k E]; try reflexivity.
  - intros k. apply gathering_after.
  - rewrite E. destruct k as [|k].
    + cbn [after]. split.
      * vm_compute. reflexivity.
      * vm_compute. repeat constructor; discriminate.
    + split; apply gathering_after.
Qed.

End RootFails.

End GradeFacts.

(** ** Facts about [gatherSubmissions] on any assignment folder *)

Module GatherFacts.
Import Grade GradeFacts.

(** *** Running the module on a page written out

    The functions that transform the page are run one after the other on a
    page given by its components. *)

Section Explicit.

Variables (h : pid -> Q.cell pid cont value) (sl : pid -> list (option value))
          (tk : list (Q.reaction pid cont * Q.settled value)) (fl : bool) (w : page).

Definition upd (p : pid) (c : Q.cell pid cont value) : pid -> Q.cell pid cont value :=
  fun q => if pid_eqb q p then c else h q.

Lemma defer_eq (p : pid) :
  Q.defer pid_eqb p (Q.mkState h sl tk fl w) =
  match h p with
  | Q.Free => Q.mkState (upd p (Q.Pending [])) sl tk fl w
  | _ => Q.mkState h sl tk true w
  end.
Proof. unfold Q.defer; cbn. now destruct (h p). Qed.

Lemma subscribe_eq (p : pid) (r : Q.reaction pid cont) :
  Q.subscribe pid_eqb p r (Q.mkState h sl tk fl w) =
  match h p with
  | Q.Pending rs => Q.mkState (upd p (Q.Pending (rs ++ [r]))) sl tk fl w
  | Q.Settled s => Q.mkState h sl (tk ++ [(r, s)]) fl w
  | Q.Free => Q.mkState h sl tk fl w
  end.
Proof. unfold Q.subscribe; cbn. now destruct (h p). Qed.

Lemma settle_eq (p : pid) (s : Q.settled value) :
  Q.settle pid_eqb p s (Q.mkState h sl tk fl w) =
  match h p with
  | Q.Pending rs =>
      Q.mkState (upd p (Q.Settled s)) sl (tk ++ map (fun r => (r, s)) rs) fl w
  | _ => Q.mkState h sl tk fl w
  end.
Proof. unfold Q.settle; cbn. now destruct (h p). Qed.

Lemma resolve_eq (p : pid) (v : value) :
  Q.resolve pid_eqb as_promise p v (Q.mkState h sl tk fl w) =
  match as_promise v with
  | Some q =>
      match h p with
      | Q.Pending _ => Q.subscribe pid_eqb q (Q.Follow p) (Q.mkState h sl tk fl w)
      | _ => Q.mkState h sl tk fl w
      end
  | None => Q.settle pid_eqb p (Q.Fulfilled v) (Q.mkState h sl tk fl w)
  end.
Proof. reflexivity. Qed.

Lemma reject_eq (p : pid) (e : value) :
  Q.reject pid_eqb p e (Q.mkState h sl tk fl w) =
  Q.settle pid_eqb p (Q.Rejected e) (Q.mkState h sl tk fl w).
Proof. reflexivity. Qed.

Lemma then_eq (dp p : pid) (f r : option cont) :
  Q.then_ pid_eqb dp p f r (Q.mkState h sl tk fl w) =
  Q.subscribe pid_eqb p (Q.Then f r dp) (Q.defer pid_eqb dp (Q.mkState h sl tk fl w)).
Proof. reflexivity. Qed.

Lemma all_item_eq (a : pid) (i : nat) (v : value) :
  Q.all_item pid_eqb VArray a i v (Q.mkState h sl tk fl w) =
  match Q.filled (Q.fill i v (sl a)) with
  | Some vs =>
      Q.settle pid_eqb a (Q.Fulfilled (VArray vs))
        (Q.mkState h (fun q => if pid_eqb q a then Q.fill i v (sl a) else sl q) tk fl w)
  | None =>
      Q.mkState h (fun q => if pid_eqb q a then Q.fill i v (sl a) else sl q) tk fl w
  end.
Proof. reflexivity. Qed.

Lemma set_requests_eq (rs : list (pid * request)) :
  set_requests rs (Q.mkState h sl tk fl w) =
  Q.mkState h sl tk fl
    (mkPage (api w) (global_n w) (random w) (drawn w) (console w) (timers w) rs
            (submissions w)).
Proof. reflexivity. Qed.

Lemma set_submissions_eq (o : Js.obj value) :
  set_submissions o (Q.mkState h sl tk fl w) =
  Q.mkState h sl tk fl
    (mkPage (api w) (global_n w) (random w) (drawn w) (console w) (timers w)
            (requests w) o).
Proof. reflexivity. Qed.

Lemma console_add_eq (l : log) :
  console_add l (Q.mkState h sl tk fl w) =
  Q.mkState h sl tk fl
    (mkPage (api w) (global_n w) (random w) (drawn w) (console w ++ [l]) (timers w)
            (requests w) (submissions w)).
Proof. reflexivity. Qed.

Lemma setTimeout_eq (t : timeout) (delay : nat) :
  setTimeout t delay (Q.mkState h sl tk fl w) =
  Q.mkState h sl tk fl
    (mkPage (api w) (global_n w) (random w) (drawn w) (console w)
            (timers w ++ [(delay, t)]) (requests w) (submissions w)).
Proof. reflexivity. Qed.

Lemma set_timers_eq (ts : list (nat * timeout)) :
  set_timers ts (Q.mkState h sl tk fl w) =
  Q.mkState h sl tk fl
    (mkPage (api w) (global_n w) (random w) (drawn w) (console w) ts
            (requests w) (submissions w)).
Proof. reflexivity. Qed.

Lemma next_random_eq :
  next_random (Q.mkState h sl tk fl w) =
  (random w (drawn w),
   Q.mkState h sl tk fl
     (mkPage (api w) (global_n w) (random w) (S (drawn w)) (console w) (timers w)
             (requests w) (submissions w))).
Proof. reflexivity. Qed.

Lemma api_call_eq (p : pid) (r : request) :
  api_call p r (Q.mkState h sl tk fl w) =
  match h p with
  | Q.Free =>
      Q.mkState (upd p (Q.Pending [])) sl tk fl
        (mkPage (api w) (global_n w) (random w) (drawn w) (console w) (timers w)
                (requests w ++ [(p, r)]) (submissions w))
  | _ =>
      Q.mkState h sl tk true
        (mkPage (api w) (global_n w) (random w) (drawn w) (console w) (timers w)
                (requests w ++ [(p, r)]) (submissions w))
  end.
Proof. unfold api_call, Q.defer; cbn. now destruct (h p). Qed.

Lemma promiseRetry_eq (promise : pid) (iteration max : nat) :
  promiseRetry promise iteration max (Q.mkState h sl tk fl w) =
  (Retry promise iteration Deferred,
   Q.then_ pid_eqb (Retry promise iteration FailP) (Retry promise iteration ThenP)
     None (Some (RetryFail (Retry promise iteration Deferred) promise iteration max))
     (Q.then_ pid_eqb (Retry promise iteration ThenP) promise
        (Some (RetryResolve (Retry promise iteration Deferred))) None
        (Q.defer pid_eqb (Retry promise iteration Deferred)
           (Q.mkState h sl tk fl w)))).
Proof. reflexivity. Qed.

Lemma getFilesInFolder_eq (c : ctx) (folderId : string) :
  getFilesInFolder c folderId (Q.mkState h sl tk fl w) =
  match api w with
  | Some _ =>
      let (dp, st2) :=
        promiseRetry (Api c) 0 5
          (api_call (Api c) (GetFilesInFolder folderId) (Q.mkState h sl tk fl w)) in
      (VPromise dp, st2)
  | None =>
      (VUndefined,
       console_add (LogError (VString errNoApiMessage)) (Q.mkState h sl tk fl w))
  end.
Proof. reflexivity. Qed.

Lemma drain_eq (f : nat) (r : Q.reaction pid cont) (s : Q.settled value)
  (rest : list (Q.reaction pid cont * Q.settled value)) :
  drain (S f) (Q.mkState h sl ((r, s) :: rest) fl w) =
  drain f (Q.run_reaction pid_eqb as_promise VArray call r s (Q.mkState h sl rest fl w)).
Proof. reflexivity. Qed.

Lemma drain_done (f : nat) : drain f (Q.mkState h sl [] fl w) = Q.mkState h sl [] fl w.
Proof. now destruct f. Qed.

Lemma call_eq (k : cont) (v : value) :
  call k v (Q.mkState h sl tk fl w) =
  ltac:(let t := eval cbv beta delta [call] in (call k v (Q.mkState h sl tk fl w)) in
        exact t).
Proof. reflexivity. Qed.

Lemma run_reaction_eq (r : Q.reaction pid cont) (s : Q.settled value) :
  Q.run_reaction pid_eqb as_promise VArray call r s (Q.mkState h sl tk fl w) =
  ltac:(let t := eval cbv beta delta [Q.run_reaction Q.reject] in
                 (Q.run_reaction pid_eqb as_promise VArray call r s
                    (Q.mkState h sl tk fl w)) in
        exact t).
Proof. reflexivity. Qed.

End Explicit.


#[local] Arguments Q.defer : simpl never.
#[local] Arguments Q.subscribe : simpl never.
#[local] Arguments Q.settle : simpl never.
#[local] Arguments Q.resolve : simpl never.
#[local] Arguments Q.reject : simpl never.
#[local] Arguments Q.then_ : simpl never.
#[local] Arguments Q.all_item : simpl never.
#[local] Arguments Q.all : simpl never.
#[local] Arguments Q.run_reaction : simpl never.
#[local] Arguments Q.drain : simpl never.
#[local] Arguments drain : simpl never.
#[local] Arguments call : simpl never.
#[local] Arguments set_requests : simpl never.
#[local] Arguments set_submissions : simpl never.
#[local] Arguments set_timers : simpl never.
#[local] Arguments console_add : simpl never.
#[local] Arguments setTimeout : simpl never.
#[local] Arguments next_random : simpl never.
#[local] Arguments api_call : simpl never.
#[local] Arguments promiseRetry : simpl never.
#[local] Arguments getFilesInFolder : simpl never.
#[local] Arguments upd : simpl never.

(** *** The pages [gatherSubmissions] goes through

    The storage API lists the assignment folder with [students]; from then
    on the page is determined by how far the chain of each student is, the
    mapping built so far, the calls and timers that are outstanding, the
    number of random draws and the console. *)

Section Gather.

Variables (d : drive) (n : option nat) (rnd : nat -> nat).
Variable students : list file.

(** What the storage API lists for the folder [fid], and the error it
    fails with. *)
Definition listing_of (fid : string) : list file :=
  match d (GetFilesInFolder fid) with
  | Found (VFiles l) => l
  | _ => []
  end.

Definition error_of (fid : string) : value :=
  match d (GetFilesInFolder fid) with
  | Failed e => e
  | _ => VUndefined
  end.

Definition final_of (s : file) : option file :=
  find is_final_submission (listing_of (getUniqueId s)).

(** The value of [dirs.find(...)] for the student [s]. *)
Definition found_of (s : file) : value :=
  match final_of s with
  | Some dir => VFile dir
  | None => VUndefined
  end.

(** The value the chain of the student [s] ends with. *)
Definition value_of (s : file) : value :=
  match final_of s with
  | Some dir => VFiles (listing_of (getUniqueId dir))
  | None => VNull
  end.

(** How far the chain of a student is: the listing of its folder is
    awaited, or has failed and been followed by [r] timers; the listing of
    its final-submission folder is awaited, or has failed and been followed
    by [r] timers; the chain has ended. *)
Inductive phase :=
| Listing
| ListingFailed (r : nat)
| ListingFinal
| FinalFailed (r : nat)
| Done.

Definition is_done (ph : phase) : bool :=
  match ph with Done => true | _ => false end.

Section Build.

Variables (phases : list phase) (subs : Js.obj value) (reqs : list (pid * request)).
Variables (tms : list (nat * timeout)) (draws : nat) (cons : list log).

Definition all_done : bool := forallb is_done phases.

Definition results : list value := map value_of students.

(** The promise of a call of the storage API ([None]) and the promises of
    its [promiseRetry(_, 0, 5)], while the call is in flight and [w] waits
    for the wrapper. *)
Definition flight (c : ctx) (w : list (Q.reaction pid cont)) (q : option rsite)
  : Q.cell pid cont value :=
  match q with
  | None =>
      Q.Pending [Q.Then (Some (RetryResolve (Retry (Api c) 0 Deferred))) None
                        (Retry (Api c) 0 ThenP)]
  | Some Deferred => Q.Pending w
  | Some ThenP =>
      Q.Pending [Q.Then None (Some (RetryFail (Retry (Api c) 0 Deferred) (Api c) 0 5))
                        (Retry (Api c) 0 FailP)]
  | Some FailP => Q.Pending []
  end.

(** The same promises after the answer [v]. *)
Definition landed (v : value) (q : option rsite) : Q.cell pid cont value :=
  match q with
  | None | Some Deferred => Q.Settled (Q.Fulfilled v)
  | Some _ => Q.Settled (Q.Fulfilled VUndefined)
  end.

(** The same promises after the failure [e]: the wrapper stays pending. *)
Definition crashed (e : value) (w : list (Q.reaction pid cont)) (q : option rsite)
  : Q.cell pid cont value :=
  match q with
  | None | Some ThenP => Q.Settled (Q.Rejected e)
  | Some Deferred => Q.Pending w
  | Some FailP =>
      match n with
      | None => Q.Settled (Q.Rejected (VError (ReferenceError "n")))
      | Some _ => Q.Settled (Q.Fulfilled VUndefined)
      end
  end.

(** The promises of [promiseRetry(_, j, 5)] for a timer that has fired
    after the failure [e]. *)
Definition retried (e : value) (j : nat) (q : rsite) : Q.cell pid cont value :=
  match q with
  | Deferred => if (5 <=? j)%nat then Q.Settled (Q.Rejected e) else Q.Pending []
  | ThenP => Q.Settled (Q.Rejected e)
  | FailP => Q.Settled (Q.Fulfilled VUndefined)
  end.

Definition call_cell (c : ctx) (q : option rsite) : Q.cell pid cont value :=
  match c with
  | Suite => Q.Free
  | Root => landed (VFiles students) q
  | Student i =>
      match nth_error students i, nth_error phases i with
      | Some s, Some Listing =>
          flight (Student i) [Q.Then (Some FindFinal) None (Chain i CFind)] q
      | Some s, Some (ListingFailed _) =>
          crashed (error_of (getUniqueId s))
                  [Q.Then (Some FindFinal) None (Chain i CFind)] q
      | Some s, Some _ => landed (VFiles (listing_of (getUniqueId s))) q
      | _, _ => Q.Free
      end
  | Final i =>
      match nth_error students i, nth_error phases i with
      | Some s, Some ph =>
          match final_of s, ph with
          | Some dir, ListingFinal =>
              flight (Final i) [Q.Follow (Chain i CList)] q
          | Some dir, FinalFailed _ =>
              crashed (error_of (getUniqueId dir)) [Q.Follow (Chain i CList)] q
          | Some dir, Done => landed (VFiles (listing_of (getUniqueId dir))) q
          | _, _ => Q.Free
          end
      | _, _ => Q.Free
      end
  end.

(** The promises of the timers of the call [c]. *)
Definition retry_cell (c : ctx) (j : nat) (q : rsite) : Q.cell pid cont value :=
  match c with
  | Student i =>
      match nth_error students i, nth_error phases i with
      | Some s, Some (ListingFailed r) =>
          if (j <=? r)%nat then retried (error_of (getUniqueId s)) j q else Q.Free
      | _, _ => Q.Free
      end
  | Final i =>
      match nth_error students i, nth_error phases i with
      | Some s, Some (FinalFailed r) =>
          match final_of s with
          | Some dir =>
              if (j <=? r)%nat then retried (error_of (getUniqueId dir)) j q
              else Q.Free
          | None => Q.Free
          end
      | _, _ => Q.Free
      end
  | _ => Q.Free
  end.

Definition chain_cell (i : nat) (site : csite) : Q.cell pid cont value :=
  match nth_error students i, nth_error phases i with
  | Some s, Some ph =>
      match site, ph with
      | CFind, (Listing | ListingFailed _) =>
          Q.Pending [Q.Then (Some (ListFinal i)) None (Chain i CList)]
      | CFind, _ => Q.Settled (Q.Fulfilled (found_of s))
      | CList, Done => Q.Settled (Q.Fulfilled (value_of s))
      | CList, _ => Q.Pending [Q.Then (Some (Store (getName s))) None (Chain i CStore)]
      | CStore, Done => Q.Settled (Q.Fulfilled (value_of s))
      | CStore, _ => Q.Pending [Q.AllItem AllP i]
      end
  | _, _ => Q.Free
  end.

Definition gather_cell (site : gsite) : Q.cell pid cont value :=
  if all_done then
    match site with
    | GDeferred => Q.Settled (Q.Fulfilled VSubmissions)
    | GStudents => Q.Settled (Q.Fulfilled (VArray results))
    | GDone | GFail => Q.Settled (Q.Fulfilled VUndefined)
    end
  else
    match site with
    | GDeferred => Q.Pending []
    | GStudents => Q.Pending [Q.Then (Some GatherDone) None (Gather GDone)]
    | GDone => Q.Pending [Q.Then None (Some GatherFail) (Gather GFail)]
    | GFail => Q.Pending []
    end.

Definition heap_of (p : pid) : Q.cell pid cont value :=
  match p with
  | Api c => call_cell c None
  | Retry (Api c) 0 s => call_cell c (Some s)
  | Retry (Api c) (S j) s => retry_cell c (S j) s
  | Retry _ _ _ => Q.Free
  | Gather s => gather_cell s
  | Chain i s => chain_cell i s
  | AllP =>
      if all_done then Q.Settled (Q.Fulfilled (VArray results))
      else Q.Pending [Q.Follow (Gather GStudents)]
  end.

Definition slot_of (sp : file * phase) : option value :=
  if is_done (snd sp) then Some (value_of (fst sp)) else None.

Definition slots_of (p : pid) : list (option value) :=
  match p with
  | AllP => map slot_of (combine students phases)
  | _ => []
  end.

(** The page when the chains of the students are at [phases], the mapping
    holds [subs], the calls [reqs] are to be answered and the timers [tms]
    to fire. *)
Definition build : state :=
  Q.mkState heap_of slots_of [] false
    (mkPage (Some d) n rnd draws cons tms reqs subs).

End Build.


Fixpoint set_nth {A : Type} (i : nat) (x : A) (l : list A) : list A :=
  match l, i with
  | [], _ => []
  | _ :: l', O => x :: l'
  | y :: l', S i' => y :: set_nth i' x l'
  end.

Lemma nth_error_set_nth_same {A : Type} (i : nat) (x y : A) (l : list A) :
  nth_error l i = Some y -> nth_error (set_nth i x l) i = Some x.
Proof.
  revert i; induction l as [|z l IH]; intros [|i]; cbn; try discriminate; auto.
Qed.

Lemma nth_error_set_nth_other {A : Type} (i j : nat) (x : A) (l : list A) :
  j <> i -> nth_error (set_nth i x l) j = nth_error l j.
Proof.
  revert i j; induction l as [|z l IH]; intros [|i] [|j] N; cbn; auto. congruence.
Qed.

Lemma length_set_nth {A : Type} (i : nat) (x : A) (l : list A) :
  List.length (set_nth i x l) = List.length l.
Proof. revert i; induction l as [|z l IH]; intros [|i]; cbn; auto. Qed.

Lemma all_done_false (phases : list phase) (i : nat) (ph : phase) :
  nth_error phases i = Some ph -> is_done ph = false -> all_done phases = false.
Proof.
  unfold all_done. revert i; induction phases as [|p l IH]; intros [|i]; cbn;
    try discriminate.
  - intros [= ->] ->. reflexivity.
  - intros H D. rewrite (IH i H D). apply andb_false_r.
Qed.

Lemma fill_slots (phases : list phase) (i : nat) (s : file) (ph : phase) :
  nth_error students i = Some s -> nth_error phases i = Some ph ->
  Q.fill i (value_of s) (map slot_of (combine students phases))
  = map slot_of (combine students (set_nth i Done phases)).
Proof.
  generalize students. clear students.
  intros ss; revert i phases; induction ss as [|x ss IH]; intros [|i] [|p phases];
    cbn; try discriminate; auto.
  - intros [= ->] _. reflexivity.
  - intros Hs Hp. f_equal. now apply IH.
Qed.

Lemma filled_slots (phases : list phase) :
  List.length phases = List.length students ->
  Q.filled (map slot_of (combine students phases))
  = if all_done phases then Some results else None.
Proof.
  unfold all_done, results. generalize students. clear students.
  intros ss; revert phases; induction ss as [|x ss IH]; intros [|p phases];
    cbn; try discriminate; auto.
  intros [= L]. unfold slot_of at 1; cbn.
  destruct (is_done p); cbn; [|reflexivity].
  rewrite (IH phases L). now destruct (forallb is_done phases).
Qed.

Lemma slots_set_nth_waiting (phases : list phase) (i : nat) (ph ph' : phase) :
  nth_error phases i = Some ph -> is_done ph = false -> is_done ph' = false ->
  map slot_of (combine students (set_nth i ph' phases))
  = map slot_of (combine students phases).
Proof.
  generalize students. clear students.
  intros ss; revert i phases; induction ss as [|x ss IH]; intros [|i] [|p phases];
    cbn; try discriminate; auto.
  - intros [= ->] D D'. unfold slot_of; cbn. now rewrite D, D'.
  - intros H D D'. f_equal. now apply (IH i phases).
Qed.

Lemma leb_succ_self (r : nat) : (S r <=? r)%nat = false.
Proof. apply Nat.leb_gt. lia. Qed.

Lemma leb_succ_other (j r : nat) : j <> r -> (S j <=? r)%nat = (j <=? r)%nat.
Proof.
  intros N. destruct (Nat.leb_spec j r), (Nat.leb_spec (S j) r); auto; lia.
Qed.

#[local] Arguments Q.fill : simpl never.
#[local] Arguments Q.filled : simpl never.
#[local] Arguments build : simpl never.
#[local] Arguments Nat.leb : simpl never.
#[local] Arguments Nat.pow : simpl never.
#[local] Arguments Nat.mul : simpl never.

Ltac exec1 :=
  first [ rewrite drain_eq | rewrite drain_done
        | rewrite run_reaction_eq | rewrite call_eq
        | rewrite settle_eq | rewrite resolve_eq | rewrite reject_eq | rewrite subscribe_eq
        | rewrite defer_eq | rewrite then_eq | rewrite all_item_eq
        | rewrite set_requests_eq | rewrite set_submissions_eq
        | rewrite console_add_eq | rewrite setTimeout_eq | rewrite set_timers_eq
        | rewrite next_random_eq
        | rewrite api_call_eq | rewrite promiseRetry_eq | rewrite getFilesInFolder_eq ].

Ltac unfold_cells :=
  unfold upd, heap_of, slots_of, chain_cell, call_cell, retry_cell, gather_cell,
         flight, landed, crashed, retried, found_of, value_of, final_of.

Ltac simp tac :=
  repeat (progress (unfold_cells; cbn;
                    rewrite ?Nat.eqb_refl, ?leb_succ_self, ?Nat.add_1_r; tac; cbn)).

Ltac run_ticks tac := repeat (exec1; simp tac).

Ltac start_turn Hk :=
  unfold turn, perform;
  match goal with |- _ = ?R => set (target := R) end;
  unfold build; cbn [Q.world requests api timers]; rewrite Hk; cbv iota beta;
  cbn [plus].

Ltac same_slots :=
  apply functional_extensionality;
  let q := fresh "q" in
  intros q; unfold slots_of; destruct q; reflexivity.

Ltac waiting_slots phases i ph :=
  apply functional_extensionality;
  let q := fresh "q" in
  intros q; unfold slots_of; destruct q; try reflexivity;
  symmetry; now apply (slots_set_nth_waiting phases i ph).

Ltac by_index i j tac :=
  destruct (Nat.eqb_spec j i) as [->|Hne];
  [ tac | rewrite ?(nth_error_set_nth_other i j) by exact Hne ].

Ltac same_heap i tac :=
  apply functional_extensionality;
  let q := fresh "q" in
  intros q; unfold_cells;
  destruct q as [[ | |j|j]|[[ | |j|j]|? ? ?|?|? ?|] [|it] [| |]|[| | |]|j [| |]|];
  cbn; tac;
  try reflexivity;
  try (by_index i j tac; cbn; tac; reflexivity).

(** The folder of student [i] is listed and holds no final-submission
    folder: the chain ends with [null]. *)
Lemma turn_listing_none (phases : list phase) (subs : Js.obj value)
  (reqs : list (pid * request)) (tms : list (nat * timeout)) (draws : nat)
  (cons : list log) (k i : nat) (s : file) (f : nat) :
  List.length phases = List.length students ->
  nth_error reqs k = Some (Api (Student i), GetFilesInFolder (getUniqueId s)) ->
  nth_error students i = Some s ->
  nth_error phases i = Some Listing ->
  d (GetFilesInFolder (getUniqueId s)) = Found (VFiles (listing_of (getUniqueId s))) ->
  final_of s = None ->
  turn (16 + f) (Answer k) (build phases subs reqs tms draws cons)
  = build (set_nth i Done phases) subs (remove_nth k reqs) tms draws cons.
Proof.
  intros Hl Hk Hs Hp Hd Hf.
  assert (Hold : all_done phases = false) by (now apply (all_done_false phases i Listing)).
  assert (Hv : VNull = value_of s) by (unfold value_of; now rewrite Hf).
  assert (Hp' : nth_error (set_nth i Done phases) i = Some Done)
    by (now apply (nth_error_set_nth_same i Done Listing)).
  start_turn Hk. rewrite Hd. unfold final_of in Hf.
  run_ticks ltac:(rewrite ?Hs, ?Hp, ?Hf, ?Hold).
  rewrite Hv, (fill_slots phases i s Listing Hs Hp).
  rewrite filled_slots by (now rewrite length_set_nth).
  destruct (all_done (set_nth i Done phases)) eqn:Ha;
    run_ticks ltac:(rewrite ?Hs, ?Hp, ?Hf, ?Hold);
    subst target; unfold build; f_equal;
    solve [same_heap i ltac:(rewrite ?Hs, ?Hp', ?Hp, ?Hf, ?Ha)|same_slots].
Qed.

(** The folder of student [i] is listed and holds a final-submission
    folder: that folder is listed next. *)
Lemma turn_listing_final (phases : list phase) (subs : Js.obj value)
  (reqs : list (pid * request)) (tms : list (nat * timeout)) (draws : nat)
  (cons : list log) (k i : nat) (s dir : file) (f : nat) :
  List.length phases = List.length students ->
  nth_error reqs k = Some (Api (Student i), GetFilesInFolder (getUniqueId s)) ->
  nth_error students i = Some s ->
  nth_error phases i = Some Listing ->
  d (GetFilesInFolder (getUniqueId s)) = Found (VFiles (listing_of (getUniqueId s))) ->
  final_of s = Some dir ->
  turn (16 + f) (Answer k) (build phases subs reqs tms draws cons)
  = build (set_nth i ListingFinal phases) subs
          (remove_nth k reqs ++ [(Api (Final i), GetFilesInFolder (getUniqueId dir))])
          tms draws cons.
Proof.
  intros Hl Hk Hs Hp Hd Hf.
  assert (Hold : all_done phases = false) by (now apply (all_done_false phases i Listing)).
  assert (Hp' : nth_error (set_nth i ListingFinal phases) i = Some ListingFinal)
    by (now apply (nth_error_set_nth_same i ListingFinal Listing)).
  assert (Ha : all_done (set_nth i ListingFinal phases) = false)
    by (now apply (all_done_false _ i ListingFinal)).
  start_turn Hk. rewrite Hd. unfold final_of in Hf.
  run_ticks ltac:(rewrite ?Hs, ?Hp, ?Hf, ?Hold).
  subst target; unfold build; f_equal;
    [same_heap i ltac:(rewrite ?Hs, ?Hp', ?Hp, ?Hf, ?Ha)|].
  apply functional_extensionality; intros q; unfold slots_of; destruct q;
    try reflexivity.
  symmetry. now apply (slots_set_nth_waiting phases i Listing).
Qed.

(** The final-submission folder of student [i] is listed: its files are
    stored under the name of the student and the chain ends with them. *)
Lemma turn_final (phases : list phase) (subs : Js.obj value)
  (reqs : list (pid * request)) (tms : list (nat * timeout)) (draws : nat)
  (cons : list log) (k i : nat) (s dir : file) (f : nat) :
  List.length phases = List.length students ->
  nth_error reqs k = Some (Api (Final i), GetFilesInFolder (getUniqueId dir)) ->
  nth_error students i = Some s ->
  nth_error phases i = Some ListingFinal ->
  d (GetFilesInFolder (getUniqueId dir))
    = Found (VFiles (listing_of (getUniqueId dir))) ->
  final_of s = Some dir ->
  turn (16 + f) (Answer k) (build phases subs reqs tms draws cons)
  = build (set_nth i Done phases)
          (Js.set (getName s) (VFiles (listing_of (getUniqueId dir))) subs)
          (remove_nth k reqs) tms draws cons.
Proof.
  intros Hl Hk Hs Hp Hd Hf.
  assert (Hold : all_done phases = false)
    by (now apply (all_done_false phases i ListingFinal)).
  assert (Hv : VFiles (listing_of (getUniqueId dir)) = value_of s)
    by (unfold value_of; now rewrite Hf).
  assert (Hp' : nth_error (set_nth i Done phases) i = Some Done)
    by (now apply (nth_error_set_nth_same i Done ListingFinal)).
  start_turn Hk. rewrite Hd. unfold final_of in Hf.
  run_ticks ltac:(rewrite ?Hs, ?Hp, ?Hf, ?Hold).
  rewrite Hv, (fill_slots phases i s ListingFinal Hs Hp).
  rewrite filled_slots by (now rewrite length_set_nth).
  destruct (all_done (set_nth i Done phases)) eqn:Ha;
    run_ticks ltac:(rewrite ?Hs, ?Hp, ?Hf, ?Hold);
    subst target; unfold build; f_equal;
    solve [same_heap i ltac:(rewrite ?Hs, ?Hp', ?Hp, ?Hf, ?Ha)|same_slots].
Qed.


Lemma leb_5_0 : (5 <=? 0)%nat = false.
Proof. reflexivity. Qed.

Lemma error_of_failed (fid : string) (e : value) :
  d (GetFilesInFolder fid) = Failed e -> error_of fid = e.
Proof. unfold error_of. now intros ->. Qed.

(** The timers, the number of random draws and the console after failed
    attempt [j] of the call [c]: a timer is set, unless [n] is unbound or
    [j] has reached 5. *)
Definition retrying (c : ctx) (j : nat) (tms : list (nat * timeout)) (draws : nat)
  (cons : list log) : list (nat * timeout) * nat * list log :=
  match n with
  | None => (tms, draws, cons)
  | Some m =>
      if (5 <=? j)%nat then (tms, draws, cons)
      else ((tms ++ [(2 ^ m * 1000 + rnd draws, RetryNow (Api c) (S j) 5)])%list,
            S draws,
            (cons ++ [LogRetrying (2 ^ m * 1000 + rnd draws)])%list)
  end.

Definition build_retrying (phases : list phase) (subs : Js.obj value)
  (reqs : list (pid * request)) (x : list (nat * timeout) * nat * list log) : state :=
  build phases subs reqs (fst (fst x)) (snd (fst x)) (snd x).

(** The listing of the folder of student [i] fails: the wrapper stays
    pending; with [n] bound a timer is set. *)
Lemma turn_listing_fails (phases : list phase) (subs : Js.obj value)
  (reqs : list (pid * request)) (tms : list (nat * timeout)) (draws : nat)
  (cons : list log) (k i : nat) (s : file) (e : value) (f : nat) :
  nth_error reqs k = Some (Api (Student i), GetFilesInFolder (getUniqueId s)) ->
  nth_error students i = Some s ->
  nth_error phases i = Some Listing ->
  d (GetFilesInFolder (getUniqueId s)) = Failed e ->
  turn (16 + f) (Answer k) (build phases subs reqs tms draws cons)
  = build_retrying (set_nth i (ListingFailed 0) phases) subs (remove_nth k reqs)
                   (retrying (Student i) 0 tms draws cons).
Proof.
  intros Hk Hs Hp Hd.
  assert (He := error_of_failed _ _ Hd).
  assert (Hold : all_done phases = false) by (now apply (all_done_false phases i Listing)).
  assert (Hp' : nth_error (set_nth i (ListingFailed 0) phases) i = Some (ListingFailed 0))
    by (now apply (nth_error_set_nth_same i (ListingFailed 0) Listing)).
  assert (Ha : all_done (set_nth i (ListingFailed 0) phases) = false)
    by (now apply (all_done_false _ i (ListingFailed 0))).
  unfold build_retrying, retrying.
  destruct n as [m|] eqn:Hn;
    start_turn Hk; rewrite Hd;
    run_ticks ltac:(rewrite ?Hs, ?Hp, ?Hold, ?leb_5_0, ?Hn);
    subst target; unfold build; cbn [fst snd]; rewrite ?leb_5_0; cbn [fst snd];
    rewrite ?Hn; f_equal;
    solve [same_heap i ltac:(rewrite ?Hs, ?Hp', ?Hp, ?Ha, ?He, ?Hn)
          |waiting_slots phases i Listing].
Qed.

(** The listing of the final-submission folder of student [i] fails. *)
Lemma turn_final_fails (phases : list phase) (subs : Js.obj value)
  (reqs : list (pid * request)) (tms : list (nat * timeout)) (draws : nat)
  (cons : list log) (k i : nat) (s dir : file) (e : value) (f : nat) :
  nth_error reqs k = Some (Api (Final i), GetFilesInFolder (getUniqueId dir)) ->
  nth_error students i = Some s ->
  nth_error phases i = Some ListingFinal ->
  final_of s = Some dir ->
  d (GetFilesInFolder (getUniqueId dir)) = Failed e ->
  turn (16 + f) (Answer k) (build phases subs reqs tms draws cons)
  = build_retrying (set_nth i (FinalFailed 0) phases) subs (remove_nth k reqs)
                   (retrying (Final i) 0 tms draws cons).
Proof.
  intros Hk Hs Hp Hf Hd.
  assert (He := error_of_failed _ _ Hd).
  assert (Hold : all_done phases = false)
    by (now apply (all_done_false phases i ListingFinal)).
  assert (Hp' : nth_error (set_nth i (FinalFailed 0) phases) i = Some (FinalFailed 0))
    by (now apply (nth_error_set_nth_same i (FinalFailed 0) ListingFinal)).
  assert (Ha : all_done (set_nth i (FinalFailed 0) phases) = false)
    by (now apply (all_done_false _ i (FinalFailed 0))).
  unfold build_retrying, retrying. unfold final_of in Hf.
  destruct n as [m|] eqn:Hn;
    start_turn Hk; rewrite Hd;
    run_ticks ltac:(rewrite ?Hs, ?Hp, ?Hf, ?Hold, ?leb_5_0, ?Hn);
    subst target; unfold build; cbn [fst snd]; rewrite ?leb_5_0; cbn [fst snd];
    rewrite ?Hn; f_equal;
    solve [same_heap i ltac:(rewrite ?Hs, ?Hp', ?Hp, ?Hf, ?Ha, ?He, ?Hn)
          |waiting_slots phases i ListingFinal].
Qed.


Lemma leb_S_S (a b : nat) : (S a <=? S b)%nat = (a <=? b)%nat.
Proof. reflexivity. Qed.

Ltac by_attempt it r tac :=
  rewrite ?leb_S_S in *;
  destruct (Nat.eqb_spec it r) as [->|Hit];
  [ rewrite ?Nat.leb_refl | rewrite ?(leb_succ_other it r) by exact Hit ];
  cbn; tac.

Ltac same_heap_retry i r tac :=
  apply functional_extensionality;
  let q := fresh "q" in
  intros q; unfold_cells;
  destruct q as [[ | |j|j]|[[ | |j|j]|? ? ?|?|? ?|] [|it] [| |]|[| | |]|j [| |]|];
  cbn; tac;
  try reflexivity;
  try (by_index i j tac; cbn; tac; try reflexivity;
       by_attempt it r tac; reflexivity).

(** A timer set after the failed listing of the folder of student [i]
    fires: [promiseRetry] is called on the rejected promise, with a
    deferred of its own. *)
Lemma turn_retry_listing (phases : list phase) (subs : Js.obj value)
  (reqs : list (pid * request)) (tms : list (nat * timeout)) (draws : nat)
  (cons : list log) (k i r delay m : nat) (s : file) (f : nat) :
  n = Some m ->
  nth_error tms k = Some (delay, RetryNow (Api (Student i)) (S r) 5) ->
  nth_error students i = Some s ->
  nth_error phases i = Some (ListingFailed r) ->
  turn (16 + f) (Timeout k) (build phases subs reqs tms draws cons)
  = build_retrying (set_nth i (ListingFailed (S r)) phases) subs reqs
      (retrying (Student i) (S r) (remove_nth k tms) draws
                (cons ++ [Log "...retrying request now."])%list).
Proof.
  intros Hn Hk Hs Hp.
  assert (Hold : all_done phases = false)
    by (now apply (all_done_false phases i (ListingFailed r))).
  assert (Hp' : nth_error (set_nth i (ListingFailed (S r)) phases) i
                = Some (ListingFailed (S r)))
    by (now apply (nth_error_set_nth_same i _ (ListingFailed r))).
  assert (Ha : all_done (set_nth i (ListingFailed (S r)) phases) = false)
    by (now apply (all_done_false _ i (ListingFailed (S r)))).
  unfold build_retrying, retrying. rewrite Hn.
  destruct (5 <=? S r)%nat eqn:H5;
    start_turn Hk;
    run_ticks ltac:(rewrite ?Hs, ?Hp, ?Hold, ?H5, ?Hn);
    subst target; unfold build; cbn [fst snd]; f_equal;
    solve [same_heap_retry i r
             ltac:(rewrite ?Hs, ?Hp', ?Hp, ?Ha, ?Hn, ?H5, ?andb_true_r, ?andb_false_r)
          |waiting_slots phases i (ListingFailed r)
          |now rewrite Hn].
Qed.

(** The same for a timer set after the failed listing of the
    final-submission folder of student [i]. *)
Lemma turn_retry_final (phases : list phase) (subs : Js.obj value)
  (reqs : list (pid * request)) (tms : list (nat * timeout)) (draws : nat)
  (cons : list log) (k i r delay m : nat) (s dir : file) (f : nat) :
  n = Some m ->
  nth_error tms k = Some (delay, RetryNow (Api (Final i)) (S r) 5) ->
  nth_error students i = Some s ->
  nth_error phases i = Some (FinalFailed r) ->
  final_of s = Some dir ->
  turn (16 + f) (Timeout k) (build phases subs reqs tms draws cons)
  = build_retrying (set_nth i (FinalFailed (S r)) phases) subs reqs
      (retrying (Final i) (S r) (remove_nth k tms) draws
                (cons ++ [Log "...retrying request now."])%list).
Proof.
  intros Hn Hk Hs Hp Hf.
  assert (Hold : all_done phases = false)
    by (now apply (all_done_false phases i (FinalFailed r))).
  assert (Hp' : nth_error (set_nth i (FinalFailed (S r)) phases) i
                = Some (FinalFailed (S r)))
    by (now apply (nth_error_set_nth_same i _ (FinalFailed r))).
  assert (Ha : all_done (set_nth i (FinalFailed (S r)) phases) = false)
    by (now apply (all_done_false _ i (FinalFailed (S r)))).
  unfold build_retrying, retrying. rewrite Hn. unfold final_of in Hf.
  destruct (5 <=? S r)%nat eqn:H5;
    start_turn Hk;
    run_ticks ltac:(rewrite ?Hs, ?Hp, ?Hf, ?Hold, ?H5, ?Hn);
    subst target; unfold build; cbn [fst snd]; f_equal;
    solve [same_heap_retry i r
             ltac:(rewrite ?Hs, ?Hp', ?Hp, ?Hf, ?Ha, ?Hn, ?H5, ?andb_true_r, ?andb_false_r)
          |waiting_slots phases i (FinalFailed r)
          |now rewrite Hn].
Qed.

(** *** The call of [students.map] and [Q.all] *)

#[local] Arguments Nat.ltb : simpl never.

Lemma ltb_succ_self (k : nat) : (k <? S k)%nat = true.
Proof. apply Nat.ltb_lt. lia. Qed.

Lemma ltb_succ_other (j k : nat) : j <> k -> (j <? S k)%nat = (j <? k)%nat.
Proof.
  intros N. destruct (Nat.ltb_spec j (S k)), (Nat.ltb_spec j k); auto; lia.
Qed.

(** The calls [students.map] makes, from index [i] on. *)
Fixpoint fan_requests (i : nat) (l : list file) : list (pid * request) :=
  match l with
  | [] => []
  | s :: l' => (Api (Student i), GetFilesInFolder (getUniqueId s)) :: fan_requests (S i) l'
  end.

(** The promises [students.map] returns, from index [i] on. *)
Fixpoint fan_promises (i : nat) (l : list file) : list value :=
  match l with
  | [] => []
  | _ :: l' => VPromise (Chain i CStore) :: fan_promises (S i) l'
  end.

(** The promises while the function given to the first [then] of
    [gatherSubmissions] runs: the chains of the first [k] students have
    been created, [Q.all] has created its promise ([a]) and has looked at
    the first [m] elements of the array. *)
Definition fan_heap (k m : nat) (a : bool) (q : pid) : Q.cell pid cont value :=
  match q with
  | Api Root => Q.Settled (Q.Fulfilled (VFiles students))
  | Api (Student j) =>
      if (j <? k)%nat then
        flight (Student j) [Q.Then (Some FindFinal) None (Chain j CFind)] None
      else Q.Free
  | Api _ => Q.Free
  | Retry (Api Root) 0 Deferred => Q.Settled (Q.Fulfilled (VFiles students))
  | Retry (Api Root) 0 ThenP => Q.Settled (Q.Fulfilled VUndefined)
  | Retry (Api Root) 0 FailP => Q.Pending []
  | Retry (Api (Student j)) 0 s =>
      if (j <? k)%nat then
        flight (Student j) [Q.Then (Some FindFinal) None (Chain j CFind)] (Some s)
      else Q.Free
  | Retry _ _ _ => Q.Free
  | Gather GDeferred => Q.Pending []
  | Gather GStudents => Q.Pending [Q.Then (Some GatherDone) None (Gather GDone)]
  | Gather GDone => Q.Pending [Q.Then None (Some GatherFail) (Gather GFail)]
  | Gather GFail => Q.Pending []
  | Chain j s =>
      if (j <? k)%nat then
        match nth_error students j with
        | Some st =>
            match s with
            | CFind => Q.Pending [Q.Then (Some (ListFinal j)) None (Chain j CList)]
            | CList =>
                Q.Pending [Q.Then (Some (Store (getName st))) None (Chain j CStore)]
            | CStore => Q.Pending (if (j <? m)%nat then [Q.AllItem AllP j] else [])
            end
        | None => Q.Free
        end
      else Q.Free
  | AllP => if a then Q.Pending [] else Q.Free
  end.

#[local] Arguments fan_heap : simpl never.

Ltac by_count j k tac :=
  destruct (Nat.eqb_spec j k) as [->|Hne];
  [ rewrite ?Nat.ltb_irrefl, ?ltb_succ_self
  | rewrite ?(ltb_succ_other j k) by exact Hne ];
  cbn; tac.

Ltac fan_heap_eq k tac :=
  apply functional_extensionality;
  let q := fresh "q" in
  intros q; unfold upd, fan_heap, flight;
  destruct q as [[ | |j|j]|[[ | |j|j]|? ? ?|?|? ?|] [|it] [| |]|[| | |]|j [| |]|];
  cbn; tac;
  try reflexivity;
  try (by_count j k tac; try reflexivity;
       destruct (j <? k)%nat; reflexivity).

Lemma student_chain_fan (k : nat) (s : file) (sl : pid -> list (option value))
  (tk : list (Q.reaction pid cont * Q.settled value)) (w : page) :
  nth_error students k = Some s ->
  api w = Some d ->
  student_chain k s (Q.mkState (fan_heap k 0 false) sl tk false w)
  = (Q.Return (VPromise (Chain k CStore)),
     Q.mkState (fan_heap (S k) 0 false) sl tk false
       (mkPage (api w) (global_n w) (random w) (drawn w) (console w) (timers w)
          (requests w ++ [(Api (Student k), GetFilesInFolder (getUniqueId s))])
          (submissions w))).
Proof.
  intros Hs Hw. unfold student_chain.
  match goal with |- _ = ?R => set (target := R) end.
  repeat (exec1;
          repeat (progress (unfold upd, fan_heap, flight; cbn;
                            rewrite ?Nat.eqb_refl, ?Nat.ltb_irrefl, ?Hs, ?Hw; cbn))).
  subst target. rewrite ?Hw. f_equal. f_equal.
  fan_heap_eq k ltac:(rewrite ?Hs).
Qed.

Lemma map_students_fan (rest : list file) (k : nat) (sl : pid -> list (option value))
  (tk : list (Q.reaction pid cont * Q.settled value)) (draws : nat) (cons : list log)
  (tms : list (nat * timeout)) (reqs : list (pid * request)) (subs : Js.obj value) :
  (forall j, nth_error students (k + j) = nth_error rest j) ->
  map_students k rest
    (Q.mkState (fan_heap k 0 false) sl tk false
       (mkPage (Some d) n rnd draws cons tms reqs subs))
  = (inl (fan_promises k rest),
     Q.mkState (fan_heap (k + List.length rest) 0 false) sl tk false
       (mkPage (Some d) n rnd draws cons tms (reqs ++ fan_requests k rest) subs)).
Proof.
  revert k reqs. induction rest as [|s rest IH]; intros k reqs H.
  - cbn. now rewrite Nat.add_0_r, app_nil_r.
  - cbn [map_students fan_promises fan_requests List.length].
    rewrite student_chain_fan; [|now rewrite <- (Nat.add_0_r k), H|reflexivity].
    cbn [api global_n random drawn console timers requests submissions].
    rewrite IH.
    + now rewrite Nat.add_succ_r, <- app_assoc.
    + intros j. specialize (H (S j)). rewrite Nat.add_succ_r in H. exact H.
Qed.

Lemma all_element_eq (h : pid -> Q.cell pid cont value) (sl : pid -> list (option value))
  (tk : list (Q.reaction pid cont * Q.settled value)) (fl : bool) (w : page)
  (a : pid) (i : nat) (x : value) :
  Q.all_element pid_eqb as_promise a i x (Q.mkState h sl tk fl w) =
  match as_promise x with
  | Some q =>
      match h q with
      | Q.Settled (Q.Fulfilled v) =>
          Q.mkState h (fun p => if pid_eqb p a then Q.fill i v (sl a) else sl p) tk fl w
      | _ => Q.subscribe pid_eqb q (Q.AllItem a i) (Q.mkState h sl tk fl w)
      end
  | None =>
      Q.mkState h (fun p => if pid_eqb p a then Q.fill i x (sl a) else sl p) tk fl w
  end.
Proof. reflexivity. Qed.

#[local] Arguments Q.all_element : simpl never.

Lemma all_elements_fan (rest : list file) (K k : nat) (sl : pid -> list (option value))
  (tk : list (Q.reaction pid cont * Q.settled value)) (w : page) :
  (forall j, nth_error students (k + j) = nth_error rest j) ->
  (k + List.length rest <= K)%nat ->
  Q.all_elements pid_eqb as_promise AllP k (fan_promises k rest)
    (Q.mkState (fan_heap K k true) sl tk false w)
  = Q.mkState (fan_heap K (k + List.length rest) true) sl tk false w.
Proof.
  revert k. induction rest as [|s rest IH]; intros k H L.
  - cbn. now rewrite Nat.add_0_r.
  - cbn [fan_promises Q.all_elements List.length] in *.
    assert (Hs : nth_error students k = Some s) by (now rewrite <- (Nat.add_0_r k), H).
    assert (Hk : (k <? K)%nat = true) by (apply Nat.ltb_lt; lia).
    rewrite all_element_eq. cbn [as_promise].
    unfold fan_heap at 1. rewrite Hk, Hs. cbv beta iota.
    rewrite subscribe_eq.
    unfold fan_heap at 1. rewrite Hk, Hs. cbv beta iota. rewrite Nat.ltb_irrefl.
    replace (upd (fan_heap K k true) (Chain k CStore) (Q.Pending ([] ++ [Q.AllItem AllP k])))
      with (fan_heap K (S k) true).
    + rewrite IH.
      * now rewrite Nat.add_succ_r.
      * intros j. specialize (H (S j)). rewrite Nat.add_succ_r in H. exact H.
      * lia.
    + symmetry. fan_heap_eq k ltac:(rewrite ?Hs, ?Hk).
Qed.

(** The promises once [gatherSubmissions] has returned. *)
Definition root_heap (q : pid) : Q.cell pid cont value :=
  match q with
  | Api Root => flight Root [] None
  | Retry (Api Root) 0 s =>
      flight Root [Q.Then (Some Students) None (Gather GStudents)] (Some s)
  | Gather GDeferred => Q.Pending []
  | Gather GStudents => Q.Pending [Q.Then (Some GatherDone) None (Gather GDone)]
  | Gather GDone => Q.Pending [Q.Then None (Some GatherFail) (Gather GFail)]
  | Gather GFail => Q.Pending []
  | _ => Q.Free
  end.

Lemma gathering_eq (id : string) :
  gathering d id n rnd
  = Q.mkState root_heap (fun _ => []) [] false
      (mkPage (Some d) n rnd 0 [Log "programCollectionAPI:"] []
              [(Api Root, GetFilesInFolder id)] []).
Proof.
  vm_compute. f_equal. apply functional_extensionality. intros q.
  destruct q as [[ | |j|j]|[[ | |j|j]|? ? ?|?|? ?|] [|it] [| |]|[| | |]|j [| |]|];
    reflexivity.
Qed.

Lemma slots_listing (l : list file) :
  map (fun _ : value => @None value) (fan_promises 0 l)
  = map slot_of (combine l (repeat Listing (List.length l))).
Proof.
  generalize 0. induction l as [|s l IH]; intros k; cbn; [reflexivity|].
  now rewrite IH.
Qed.

Lemma defer_all_fan (K : nat) (sl : pid -> list (option value))
  (tk : list (Q.reaction pid cont * Q.settled value)) (w : page) :
  Q.defer pid_eqb AllP (Q.mkState (fan_heap K 0 false) sl tk false w)
  = Q.mkState (fan_heap K 0 true) sl tk false w.
Proof.
  rewrite defer_eq. unfold fan_heap at 1. cbv beta iota. f_equal.
  apply functional_extensionality; intros q; unfold fan_heap, upd.
  destruct q as [[ | |j|j]|[[ | |j|j]|? ? ?|?|? ?|] [|it] [| |]|[| | |]|j [| |]|];
    reflexivity.
Qed.

Lemma all_fan (sl : pid -> list (option value))
  (tk : list (Q.reaction pid cont * Q.settled value)) (w : page) :
  Q.all pid_eqb as_promise VArray AllP (fan_promises 0 students)
    (Q.mkState (fan_heap (List.length students) 0 false) sl tk false w)
  = let st :=
      Q.mkState (fan_heap (List.length students) (List.length students) true)
         (fun q => if pid_eqb q AllP
                   then map slot_of (combine students
                                       (repeat Listing (List.length students)))
                   else sl q)
         tk false w in
    if all_done (repeat Listing (List.length students))
    then Q.settle pid_eqb AllP (Q.Fulfilled (VArray results)) st
    else st.
Proof.
  unfold Q.all. rewrite defer_all_fan. unfold Q.put_slots.
  cbn [Q.heap Q.slots Q.ticks Q.faulty Q.world].
  rewrite all_elements_fan by (cbn; auto).
  cbv zeta. cbn [Q.slots pid_eqb plus]. rewrite slots_listing.
  rewrite filled_slots by apply repeat_length.
  now destruct (all_done (repeat Listing (List.length students))).
Qed.

Lemma all_done_listing (K : nat) : all_done (repeat Listing K) = true -> K = 0.
Proof. now destruct K. Qed.

Lemma nth_error_listing (K j : nat) :
  nth_error (repeat Listing K) j = if (j <? K)%nat then Some Listing else None.
Proof.
  destruct (Nat.ltb_spec j K) as [H|H].
  - now apply nth_error_repeat.
  - apply nth_error_None. now rewrite repeat_length.
Qed.

Lemma nth_error_beyond {A : Type} (l : list A) (j : nat) :
  (j <? List.length l)%nat = false -> nth_error l j = None.
Proof. intros H. apply nth_error_None. now apply Nat.ltb_ge. Qed.

Lemma fan_out (id : string) (f : nat) :
  d (GetFilesInFolder id) = Found (VFiles students) ->
  turn (16 + f) (Answer 0) (gathering d id n rnd)
  = build (repeat Listing (List.length students)) [] (fan_requests 0 students) [] 0
          [Log "programCollectionAPI:"].
Proof.
  intros Hd. unfold turn, perform. rewrite gathering_eq.
  cbn [Q.world requests api nth_error remove_nth]. rewrite Hd.
  match goal with |- _ = ?R => set (target := R) end.
  cbn [plus].
  repeat (exec1; repeat (progress (unfold upd, root_heap, flight; cbn))).
  match goal with
  | |- context [map_students 0 students (Q.mkState ?H _ _ _ _)] =>
      replace H with (fan_heap 0 0 false)
        by (symmetry; apply functional_extensionality; intros q; unfold fan_heap;
            destruct q as [[ | |j|j]|[[ | |j|j]|? ? ?|?|? ?|] [|it] [| |]|[| | |]|j [| |]|];
            reflexivity)
  end.
  rewrite map_students_fan by (intros j; reflexivity).
  cbv beta iota. cbn [plus app]. rewrite all_fan. cbv zeta.
  destruct (all_done (repeat Listing (List.length students))) eqn:Ha;
    cbn [Q.settle_with];
    repeat (exec1; repeat (progress (unfold upd, fan_heap; cbn)));
    subst target; unfold build; f_equal;
    try (apply functional_extensionality; intros q; unfold slots_of;
         destruct q; reflexivity);
    apply functional_extensionality; intros q; unfold_cells; rewrite ?Ha;
    destruct q as [[ | |j|j]|[[ | |j|j]|? ? ?|?|? ?|] [|it] [| |]|[| | |]|j [| |]|];
    cbn; rewrite ?Ha, ?nth_error_listing; try reflexivity;
    try (destruct (nth_error students j); reflexivity);
    (destruct (j <? List.length students)%nat eqn:Hj;
     [ destruct (nth_error students j) eqn:Hs;
       [ first [ reflexivity
               | destruct (find is_final_submission _); reflexivity
               | exfalso; apply Nat.ltb_lt in Hj;
                 rewrite (all_done_listing _ Ha) in Hj; lia ]
       | exfalso; apply nth_error_None in Hs; apply Nat.ltb_lt in Hj; lia ]
     | rewrite (nth_error_beyond students j Hj); reflexivity ]).
Qed.

(** *** The stages of a gathering

    Once the assignment folder is listed, the page is [build] of a stage;
    every turn of the event loop leads from a stage to a stage. *)

Record stage := mkStage {
  chains : list phase;
  mapping : Js.obj value;
  calls : list (pid * request);
  alarms : list (nat * timeout);
  draws : nat;
  written : list log
}.

Definition page_at (a : stage) : state :=
  build (chains a) (mapping a) (calls a) (alarms a) (draws a) (written a).

Definition stage_retrying (phases : list phase) (subs : Js.obj value)
  (reqs : list (pid * request)) (x : list (nat * timeout) * nat * list log) : stage :=
  mkStage phases subs reqs (fst (fst x)) (snd (fst x)) (snd x).

Inductive step : stage -> stage -> Prop :=
| step_listing_none phases subs reqs tms dr cons k i s :
    nth_error reqs k = Some (Api (Student i), GetFilesInFolder (getUniqueId s)) ->
    nth_error students i = Some s ->
    nth_error phases i = Some Listing ->
    final_of s = None ->
    step (mkStage phases subs reqs tms dr cons)
         (mkStage (set_nth i Done phases) subs (remove_nth k reqs) tms dr cons)
| step_listing_final phases subs reqs tms dr cons k i s dir :
    nth_error reqs k = Some (Api (Student i), GetFilesInFolder (getUniqueId s)) ->
    nth_error students i = Some s ->
    nth_error phases i = Some Listing ->
    final_of s = Some dir ->
    step (mkStage phases subs reqs tms dr cons)
         (mkStage (set_nth i ListingFinal phases) subs
            (remove_nth k reqs ++ [(Api (Final i), GetFilesInFolder (getUniqueId dir))])
            tms dr cons)
| step_final phases subs reqs tms dr cons k i s dir :
    nth_error reqs k = Some (Api (Final i), GetFilesInFolder (getUniqueId dir)) ->
    nth_error students i = Some s ->
    nth_error phases i = Some ListingFinal ->
    final_of s = Some dir ->
    step (mkStage phases subs reqs tms dr cons)
         (mkStage (set_nth i Done phases)
            (Js.set (getName s) (VFiles (listing_of (getUniqueId dir))) subs)
            (remove_nth k reqs) tms dr cons)
| step_listing_fails phases subs reqs tms dr cons k i s e :
    nth_error reqs k = Some (Api (Student i), GetFilesInFolder (getUniqueId s)) ->
    nth_error students i = Some s ->
    nth_error phases i = Some Listing ->
    d (GetFilesInFolder (getUniqueId s)) = Failed e ->
    step (mkStage phases subs reqs tms dr cons)
         (stage_retrying (set_nth i (ListingFailed 0) phases) subs (remove_nth k reqs)
            (retrying (Student i) 0 tms dr cons))
| step_final_fails phases subs reqs tms dr cons k i s dir e :
    nth_error reqs k = Some (Api (Final i), GetFilesInFolder (getUniqueId dir)) ->
    nth_error students i = Some s ->
    nth_error phases i = Some ListingFinal ->
    final_of s = Some dir ->
    d (GetFilesInFolder (getUniqueId dir)) = Failed e ->
    step (mkStage phases subs reqs tms dr cons)
         (stage_retrying (set_nth i (FinalFailed 0) phases) subs (remove_nth k reqs)
            (retrying (Final i) 0 tms dr cons))
| step_retry_listing phases subs reqs tms dr cons k i r delay s :
    n <> None ->
    nth_error tms k = Some (delay, RetryNow (Api (Student i)) (S r) 5) ->
    nth_error students i = Some s ->
    nth_error phases i = Some (ListingFailed r) ->
    step (mkStage phases subs reqs tms dr cons)
         (stage_retrying (set_nth i (ListingFailed (S r)) phases) subs reqs
            (retrying (Student i) (S r) (remove_nth k tms) dr
               (cons ++ [Log "...retrying request now."])%list))
| step_retry_final phases subs reqs tms dr cons k i r delay s :
    n <> None ->
    nth_error tms k = Some (delay, RetryNow (Api (Final i)) (S r) 5) ->
    nth_error students i = Some s ->
    nth_error phases i = Some (FinalFailed r) ->
    final_of s <> None ->
    step (mkStage phases subs reqs tms dr cons)
         (stage_retrying (set_nth i (FinalFailed (S r)) phases) subs reqs
            (retrying (Final i) (S r) (remove_nth k tms) dr
               (cons ++ [Log "...retrying request now."])%list)).

(** The call a promise of the storage API stands for. *)
Definition request_of (p : pid) : option request :=
  match p with
  | Api (Student i) =>
      match nth_error students i with
      | Some s => Some (GetFilesInFolder (getUniqueId s))
      | None => None
      end
  | Api (Final i) =>
      match nth_error students i with
      | Some s =>
          match final_of s with
          | Some dir => Some (GetFilesInFolder (getUniqueId dir))
          | None => None
          end
      | None => None
      end
  | _ => None
  end.

Definition awaited (phases : list phase) (p : pid) : Prop :=
  match p with
  | Api (Student i) => nth_error phases i = Some Listing
  | Api (Final i) => nth_error phases i = Some ListingFinal
  | _ => False
  end.

Definition call_ok (phases : list phase) (x : pid * request) : Prop :=
  request_of (fst x) = Some (snd x) /\ awaited phases (fst x).

Definition timer_promise (x : nat * timeout) : pid :=
  match snd x with RetryNow p _ _ => p end.

Definition timed (phases : list phase) (p : pid) (it : nat) : Prop :=
  match p with
  | Api (Student i) => exists r, it = S r /\ nth_error phases i = Some (ListingFailed r)
  | Api (Final i) => exists r, it = S r /\ nth_error phases i = Some (FinalFailed r)
  | _ => False
  end.

Definition timer_ok (phases : list phase) (x : nat * timeout) : Prop :=
  match snd x with
  | RetryNow p it mx => mx = 5 /\ n <> None /\ timed phases p it
  end.

Definition phase_ok (s : file) (ph : phase) : Prop :=
  match ph with
  | ListingFinal | FinalFailed _ => final_of s <> None
  | _ => True
  end.

Definition no_error (l : log) : Prop := forall v, l <> LogError v.

(** Every chain that waits for a listing has its call among [reqs]. *)
Definition listed (phases : list phase) (reqs : list (pid * request)) : Prop :=
  forall i, nth_error phases i = Some Listing -> In (Api (Student i)) (map fst reqs).

Definition listed_final (phases : list phase) (reqs : list (pid * request)) : Prop :=
  forall i, nth_error phases i = Some ListingFinal -> In (Api (Final i)) (map fst reqs).

(** What the mapping holds comes from a chain that has ended with files,
    and every such chain has left a value under the name of its student,
    unless the name is "__proto__": the mapping has no such key. *)
Definition sound (phases : list phase) (subs : Js.obj value) : Prop :=
  Js.get Js.proto subs = None /\
  forall name v, Js.get name subs = Some v ->
    exists i s dir,
      nth_error students i = Some s /\ getName s = name /\
      nth_error phases i = Some Done /\ final_of s = Some dir /\
      v = VFiles (listing_of (getUniqueId dir)).

Definition complete (phases : list phase) (subs : Js.obj value) : Prop :=
  forall i s,
    nth_error students i = Some s -> nth_error phases i = Some Done ->
    final_of s <> None -> getName s <> Js.proto ->
    Js.get (getName s) subs <> None.

Record wf (a : stage) : Prop := mkWf {
  wf_chains : Forall2 phase_ok students (chains a);
  wf_calls : Forall (call_ok (chains a)) (calls a);
  wf_calls_nodup : NoDup (map fst (calls a));
  wf_alarms : Forall (timer_ok (chains a)) (alarms a);
  wf_alarms_nodup : NoDup (map timer_promise (alarms a));
  wf_listed : listed (chains a) (calls a);
  wf_listed_final : listed_final (chains a) (calls a);
  wf_sound : sound (chains a) (mapping a);
  wf_complete : complete (chains a) (mapping a);
  wf_written : Forall no_error (written a)
}.

(** The storage API answers a listing with an array of files or with a
    failure. *)
Definition lists_folders : Prop :=
  forall fid,
    match d (GetFilesInFolder fid) with
    | Found (VFiles _) | Failed _ => True
    | Found _ => False
    end.

Lemma listing_of_found (fid : string) (l : list file) :
  d (GetFilesInFolder fid) = Found (VFiles l) ->
  d (GetFilesInFolder fid) = Found (VFiles (listing_of fid)).
Proof. unfold listing_of. now intros ->. Qed.

Lemma answered (fid : string) :
  lists_folders ->
  d (GetFilesInFolder fid) = Found (VFiles (listing_of fid)) \/
  exists e, d (GetFilesInFolder fid) = Failed e.
Proof.
  intros H. specialize (H fid). unfold listing_of.
  destruct (d (GetFilesInFolder fid)) as [[]|e]; try contradiction; eauto.
Qed.

Lemma Forall2_nth_error {A B : Type} (R : A -> B -> Prop) (l1 : list A) (l2 : list B)
  (i : nat) (x : A) (y : B) :
  Forall2 R l1 l2 -> nth_error l1 i = Some x -> nth_error l2 i = Some y -> R x y.
Proof.
  intros H. revert i. induction H as [|a b l1 l2 r H IH]; intros [|i]; cbn;
    try discriminate.
  - now intros [= <-] [= <-].
  - apply IH.
Qed.

Lemma Forall2_nth_error_left {A B : Type} (R : A -> B -> Prop) (l1 : list A)
  (l2 : list B) (i : nat) (y : B) :
  Forall2 R l1 l2 -> nth_error l2 i = Some y -> exists x, nth_error l1 i = Some x.
Proof.
  intros H. revert i. induction H as [|a b l1 l2 r H IH]; intros [|i]; cbn;
    try discriminate; eauto.
Qed.

Lemma Forall2_set_nth {A B : Type} (R : A -> B -> Prop) (l1 : list A) (l2 : list B)
  (i : nat) (x : A) (y : B) :
  Forall2 R l1 l2 -> nth_error l1 i = Some x -> R x y -> Forall2 R l1 (set_nth i y l2).
Proof.
  intros H. revert i. induction H as [|a b l1 l2 r H IH]; intros [|i]; cbn;
    try discriminate.
  - intros [= <-] Hr. now constructor.
  - intros Hx Hr. constructor; auto.
Qed.

Lemma page_quiet (a : stage) : Q.ticks (page_at a) = [].
Proof. reflexivity. Qed.

Lemma turn_idle_answer (fuel : nat) (a : stage) (k : nat) :
  nth_error (calls a) k = None -> turn fuel (Answer k) (page_at a) = page_at a.
Proof.
  intros H. unfold turn, perform.
  change (requests (Q.world (page_at a))) with (calls a). rewrite H.
  now apply drain_at_rest.
Qed.

Lemma turn_idle_timeout (fuel : nat) (a : stage) (k : nat) :
  nth_error (alarms a) k = None -> turn fuel (Timeout k) (page_at a) = page_at a.
Proof.
  intros H. unfold turn, perform.
  change (timers (Q.world (page_at a))) with (alarms a). rewrite H.
  now apply drain_at_rest.
Qed.

Lemma nth_error_Forall {A : Type} (P : A -> Prop) (l : list A) (k : nat) (x : A) :
  Forall P l -> nth_error l k = Some x -> P x.
Proof. intros H E. rewrite Forall_forall in H. apply H. eapply nth_error_In; eauto. Qed.

Ltac to_stage E :=
  match type of E with
  | _ = build ?p ?s ?r ?t ?x ?c => exists (mkStage p s r t x c)
  | _ = build_retrying ?p ?s ?r ?x => exists (stage_retrying p s r x)
  end;
  split; [exact E|right].

(** A turn of the event loop leads from a stage to a stage. *)
Lemma turn_step (a : stage) (ev : event) (f : nat) :
  lists_folders -> wf a ->
  exists a', turn (16 + f) ev (page_at a) = page_at a' /\ (a' = a \/ step a a').
Proof.
  intros T W. destruct a as [phases subs reqs tms dr cons].
  destruct ev as [k|k].
  - destruct (nth_error reqs k) as [[p r]|] eqn:Hk.
    2:{ eexists; split; [now apply turn_idle_answer|now left]. }
    destruct (nth_error_Forall _ _ _ _ (wf_calls _ W) Hk) as [Hr Hp].
    cbn [fst snd chains] in Hr, Hp.
    assert (L := Forall2_length (wf_chains _ W)). cbn [chains] in L.
    symmetry in L.
    destruct p as [[| |i|i]| | | |]; try contradiction; cbn in Hr, Hp.
    + destruct (nth_error students i) as [s|] eqn:Hs; [|discriminate].
      injection Hr as <-.
      destruct (answered (getUniqueId s) T) as [Hd|[e Hd]].
      * destruct (final_of s) as [dir|] eqn:Hf.
        -- pose proof (turn_listing_final phases subs reqs tms dr cons k i s dir f
                         L Hk Hs Hp Hd Hf) as E.
           to_stage E. now apply step_listing_final with (s := s).
        -- pose proof (turn_listing_none phases subs reqs tms dr cons k i s f
                         L Hk Hs Hp Hd Hf) as E.
           to_stage E. now apply step_listing_none with (s := s).
      * pose proof (turn_listing_fails phases subs reqs tms dr cons k i s e f
                      Hk Hs Hp Hd) as E.
        to_stage E. now apply step_listing_fails with (s := s) (e := e).
    + destruct (nth_error students i) as [s|] eqn:Hs; [|discriminate].
      destruct (final_of s) as [dir|] eqn:Hf; [|discriminate].
      injection Hr as <-.
      destruct (answered (getUniqueId dir) T) as [Hd|[e Hd]].
      * pose proof (turn_final phases subs reqs tms dr cons k i s dir f
                      L Hk Hs Hp Hd Hf) as E.
        to_stage E. now apply step_final with (s := s) (dir := dir).
      * pose proof (turn_final_fails phases subs reqs tms dr cons k i s dir e f
                      Hk Hs Hp Hf Hd) as E.
        to_stage E. now apply step_final_fails with (s := s) (dir := dir) (e := e).
  - destruct (nth_error tms k) as [[delay [p it mx]]|] eqn:Hk.
    2:{ eexists; split; [now apply turn_idle_timeout|now left]. }
    destruct (nth_error_Forall _ _ _ _ (wf_alarms _ W) Hk) as (-> & Hn & Hp).
    cbn [chains] in Hp.
    destruct n as [m|] eqn:En; [|congruence].
    destruct p as [[| |i|i]| | | |]; try contradiction; cbn in Hp;
      destruct Hp as (r & -> & Hp);
      destruct (Forall2_nth_error_left _ _ _ _ _ (wf_chains _ W) Hp) as [s Hs].
    + pose proof (turn_retry_listing phases subs reqs tms dr cons k i r delay m s f
                    En Hk Hs Hp) as E.
      to_stage E. apply step_retry_listing with (delay := delay) (s := s); auto;
        congruence.
    + assert (Hf := Forall2_nth_error _ _ _ _ _ _ (wf_chains _ W) Hs Hp).
      cbn in Hf. destruct (final_of s) as [dir|] eqn:Ef; [|congruence].
      pose proof (turn_retry_final phases subs reqs tms dr cons k i r delay m s dir f
                    En Hk Hs Hp Ef) as E.
      to_stage E. apply step_retry_final with (delay := delay) (s := s); auto;
        congruence.
Qed.

(** *** Stages stay well formed *)

Lemma In_remove_nth {A : Type} (l : list A) (k : nat) (x : A) :
  In x (remove_nth k l) -> In x l.
Proof.
  revert k; induction l as [|y l IH]; intros [|k]; cbn; auto.
  intros [E|H]; eauto.
Qed.

Lemma remove_nth_map {A B : Type} (g : A -> B) (l : list A) (k : nat) :
  map g (remove_nth k l) = remove_nth k (map g l).
Proof.
  revert k; induction l as [|y l IH]; intros [|k]; cbn; auto. now rewrite IH.
Qed.

Lemma NoDup_remove_nth {A : Type} (l : list A) (k : nat) :
  NoDup l -> NoDup (remove_nth k l).
Proof.
  intros H; revert k; induction H as [|y l N H IH]; intros [|k]; cbn; auto;
    try constructor; auto.
  intros I. apply N. eapply In_remove_nth; eauto.
Qed.

Lemma NoDup_removed {A : Type} (l : list A) (k : nat) (y : A) :
  NoDup l -> nth_error l k = Some y -> ~ In y (remove_nth k l).
Proof.
  intros H; revert k; induction H as [|z l N H IH]; intros [|k]; cbn;
    try discriminate.
  - now intros [= <-].
  - intros E [->|I]; [|now apply (IH k)].
    apply N. eapply nth_error_In; eauto.
Qed.

Lemma In_kept {A : Type} (l : list A) (k : nat) (x y : A) :
  In x l -> nth_error l k = Some y -> x <> y -> In x (remove_nth k l).
Proof.
  revert k; induction l as [|z l IH]; intros [|k]; cbn; try tauto.
  - intros [->|I] [= ->] N; tauto.
  - intros [->|I] E N; eauto.
Qed.

Lemma Forall_remove_nth {A : Type} (P : A -> Prop) (l : list A) (k : nat) :
  Forall P l -> Forall P (remove_nth k l).
Proof.
  rewrite !Forall_forall. intros H x I. apply H. eapply In_remove_nth; eauto.
Qed.

Lemma NoDup_snoc {A : Type} (l : list A) (x : A) :
  NoDup l -> ~ In x l -> NoDup (l ++ [x]).
Proof.
  intros H N. induction H as [|y l Ny H IH]; cbn.
  - constructor; [tauto|constructor].
  - constructor.
    + rewrite in_app_iff. cbn. intros [I|[E|[]]]; [tauto|].
      subst. apply N. now left.
    + apply IH. intros I. apply N. now right.
Qed.

Lemma awaited_other (phases : list phase) (i : nat) (new : phase) (p : pid) :
  awaited phases p -> p <> Api (Student i) -> p <> Api (Final i) ->
  awaited (set_nth i new phases) p.
Proof.
  destruct p as [[| |j|j]| | | |]; cbn; auto; intros H N1 N2;
    rewrite nth_error_set_nth_other; auto; congruence.
Qed.

Lemma timed_other (phases : list phase) (i : nat) (new : phase) (p : pid) (it : nat) :
  timed phases p it -> p <> Api (Student i) -> p <> Api (Final i) ->
  timed (set_nth i new phases) p it.
Proof.
  destruct p as [[| |j|j]| | | |]; cbn; auto; intros (r & E & H) N1 N2;
    exists r; (split; [exact E|]);
    rewrite nth_error_set_nth_other; auto; congruence.
Qed.

Lemma calls_set_nth (phases : list phase) (i : nat) (new : phase)
  (reqs : list (pid * request)) :
  Forall (call_ok phases) reqs ->
  (forall x, In x reqs -> awaited phases (fst x) ->
             fst x <> Api (Student i) /\ fst x <> Api (Final i)) ->
  Forall (call_ok (set_nth i new phases)) reqs.
Proof.
  rewrite !Forall_forall. intros H N x I. destruct (H x I) as [Hr Ha].
  split; [exact Hr|]. destruct (N x I Ha). now apply awaited_other.
Qed.

Lemma alarms_set_nth (phases : list phase) (i : nat) (new : phase)
  (tms : list (nat * timeout)) :
  Forall (timer_ok phases) tms ->
  (forall x p it mx, In x tms -> snd x = RetryNow p it mx -> timed phases p it ->
             p <> Api (Student i) /\ p <> Api (Final i)) ->
  Forall (timer_ok (set_nth i new phases)) tms.
Proof.
  rewrite !Forall_forall. intros H N x I. specialize (H x I). unfold timer_ok in *.
  destruct (snd x) as [p it mx] eqn:E. destruct H as (Hm & Hn & Ht).
  destruct (N x p it mx I E Ht). repeat split; auto. now apply timed_other.
Qed.

(** The calls left when the call at [k], which chain [i] waited for, has
    been answered. *)
Lemma calls_answered (phases : list phase) (reqs : list (pid * request))
  (i k : nat) (old new : phase) (p0 : pid) (r0 : request) :
  Forall (call_ok phases) reqs -> NoDup (map fst reqs) ->
  nth_error reqs k = Some (p0, r0) -> nth_error phases i = Some old ->
  (p0 = Api (Student i) /\ old = Listing) \/ (p0 = Api (Final i) /\ old = ListingFinal) ->
  Forall (call_ok (set_nth i new phases)) (remove_nth k reqs).
Proof.
  intros H N Hk Hp C. apply calls_set_nth; [now apply Forall_remove_nth|].
  intros x I Ha.
  assert (F : ~ In p0 (map fst (remove_nth k reqs))).
  { rewrite remove_nth_map. apply NoDup_removed; auto.
    now rewrite (map_nth_error fst k reqs Hk). }
  assert (I' := in_map fst _ _ I).
  split; intros E; rewrite E in *; cbn in Ha;
    destruct C as [[-> ->]|[-> ->]]; try congruence; tauto.
Qed.

Lemma calls_kept (phases : list phase) (reqs : list (pid * request))
  (i : nat) (old new : phase) :
  Forall (call_ok phases) reqs -> nth_error phases i = Some old ->
  old <> Listing -> old <> ListingFinal ->
  Forall (call_ok (set_nth i new phases)) reqs.
Proof.
  intros H Hp N1 N2. apply calls_set_nth; [exact H|].
  intros x I Ha. split; intros E; rewrite E in *; cbn in Ha; congruence.
Qed.

Lemma alarms_kept (phases : list phase) (tms : list (nat * timeout))
  (i : nat) (old new : phase) :
  Forall (timer_ok phases) tms -> nth_error phases i = Some old ->
  (forall r, old <> ListingFailed r) -> (forall r, old <> FinalFailed r) ->
  Forall (timer_ok (set_nth i new phases)) tms.
Proof.
  intros H Hp N1 N2. apply alarms_set_nth; [exact H|].
  intros x p it mx I E Ht.
  split; intros ->; cbn in Ht; destruct Ht as (r & _ & Ht);
    [apply (N1 r)|apply (N2 r)]; congruence.
Qed.

(** The timers left when the timer at [k], set for chain [i], has fired. *)
Lemma alarms_fired (phases : list phase) (tms : list (nat * timeout))
  (i k : nat) (old new : phase) (delay : nat) (p0 : pid) (it mx : nat) :
  Forall (timer_ok phases) tms -> NoDup (map timer_promise tms) ->
  nth_error tms k = Some (delay, RetryNow p0 it mx) -> nth_error phases i = Some old ->
  (p0 = Api (Student i) /\ exists r, old = ListingFailed r) \/
  (p0 = Api (Final i) /\ exists r, old = FinalFailed r) ->
  Forall (timer_ok (set_nth i new phases)) (remove_nth k tms).
Proof.
  intros H N Hk Hp C. apply alarms_set_nth; [now apply Forall_remove_nth|].
  intros x p it' mx' I E Ht.
  assert (F : ~ In p0 (map timer_promise (remove_nth k tms))).
  { rewrite remove_nth_map. apply NoDup_removed; auto.
    now rewrite (map_nth_error timer_promise k tms Hk). }
  assert (I' := in_map timer_promise _ _ I).
  unfold timer_promise at 1 in I'. rewrite E in I'.
  split; intros ->; cbn in Ht; destruct Ht as (r & _ & Ht);
    destruct C as [[-> [r' ->]]|[-> [r' ->]]]; try congruence; tauto.
Qed.

Lemma no_call_for (phases : list phase) (reqs : list (pid * request)) (p : pid) :
  Forall (call_ok phases) reqs -> ~ awaited phases p -> ~ In p (map fst reqs).
Proof.
  intros H N I. apply in_map_iff in I. destruct I as (x & <- & I).
  rewrite Forall_forall in H. now destruct (H x I).
Qed.

Lemma no_timer_for (phases : list phase) (tms : list (nat * timeout)) (p : pid) :
  Forall (timer_ok phases) tms -> (forall it, ~ timed phases p it) ->
  ~ In p (map timer_promise tms).
Proof.
  intros H N I. apply in_map_iff in I. destruct I as (x & <- & I).
  rewrite Forall_forall in H. specialize (H x I). unfold timer_ok, timer_promise in *.
  destruct (snd x) as [p it mx]. destruct H as (_ & _ & H). now apply (N it).
Qed.

Lemma In_kept_call (reqs : list (pid * request)) (k : nat) (p p0 : pid) (r0 : request) :
  In p (map fst reqs) -> nth_error reqs k = Some (p0, r0) -> p <> p0 ->
  In p (map fst (remove_nth k reqs)).
Proof.
  intros I Hk N. rewrite remove_nth_map. apply (In_kept _ k p p0); auto.
  now rewrite (map_nth_error fst k reqs Hk).
Qed.

(** A timer is added for the call [c] after attempt [j]. *)
Lemma wf_retrying (phases : list phase) (subs : Js.obj value)
  (reqs : list (pid * request)) (tms : list (nat * timeout)) (dr : nat)
  (cons : list log) (c : ctx) (j : nat) :
  wf (mkStage phases subs reqs tms dr cons) ->
  timed phases (Api c) (S j) ->
  ~ In (Api c) (map timer_promise tms) ->
  wf (stage_retrying phases subs reqs (retrying c j tms dr cons)).
Proof.
  intros W Ht N. unfold retrying, stage_retrying.
  destruct n as [m|] eqn:En; [|exact W].
  destruct (5 <=? j)%nat; [exact W|]. cbn [fst snd].
  destruct W as [W1 W2 W3 W4 W5 W6 W7 W8 W9 W10]. cbn in *.
  constructor; cbn; auto.
  - apply Forall_app. split; [exact W4|]. constructor; [|constructor].
    unfold timer_ok; cbn. repeat split; auto. congruence.
  - rewrite map_app. cbn. now apply NoDup_snoc.
  - apply Forall_app. split; [exact W10|]. constructor; [|constructor].
    intros v. discriminate.
Qed.

Lemma nth_error_set_nth_inv {A : Type} (i : nat) (x z : A) (l : list A) :
  nth_error (set_nth i x l) i = Some z -> z = x.
Proof.
  revert i; induction l as [|y l IH]; intros [|i]; cbn; try discriminate.
  - now intros [= <-].
  - apply IH.
Qed.

Lemma listed_update (phases : list phase) (reqs reqs' : list (pid * request))
  (i : nat) (new : phase) :
  listed phases reqs -> new <> Listing ->
  (forall j, j <> i -> In (Api (Student j)) (map fst reqs) ->
             In (Api (Student j)) (map fst reqs')) ->
  listed (set_nth i new phases) reqs'.
Proof.
  intros H N K j Hj. destruct (Nat.eq_dec j i) as [->|Hne].
  - apply nth_error_set_nth_inv in Hj. congruence.
  - rewrite nth_error_set_nth_other in Hj by exact Hne. auto.
Qed.

Lemma listed_final_update (phases : list phase) (reqs reqs' : list (pid * request))
  (i : nat) (new : phase) :
  listed_final phases reqs ->
  (new = ListingFinal -> In (Api (Final i)) (map fst reqs')) ->
  (forall j, j <> i -> In (Api (Final j)) (map fst reqs) ->
             In (Api (Final j)) (map fst reqs')) ->
  listed_final (set_nth i new phases) reqs'.
Proof.
  intros H N K j Hj. destruct (Nat.eq_dec j i) as [->|Hne].
  - apply nth_error_set_nth_inv in Hj. auto.
  - rewrite nth_error_set_nth_other in Hj by exact Hne. auto.
Qed.

Lemma sound_kept (phases : list phase) (subs : Js.obj value) (i : nat)
  (old new : phase) :
  sound phases subs -> nth_error phases i = Some old -> old <> Done ->
  sound (set_nth i new phases) subs.
Proof.
  intros [H0 H] Hp N. split; [exact H0|]. intros name v G.
  destruct (H name v G) as (j & s & dir & Hs & Hn & Hj & R).
  exists j, s, dir. repeat split; try tauto.
  rewrite nth_error_set_nth_other; [exact Hj|]. intros ->. congruence.
Qed.

Lemma complete_kept (phases : list phase) (subs : Js.obj value) (i : nat)
  (new : phase) :
  complete phases subs -> new <> Done -> complete (set_nth i new phases) subs.
Proof.
  intros H N j s Hs Hj. destruct (Nat.eq_dec j i) as [->|Hne].
  - apply nth_error_set_nth_inv in Hj. congruence.
  - rewrite nth_error_set_nth_other in Hj by exact Hne. now apply (H j).
Qed.

Lemma complete_none (phases : list phase) (subs : Js.obj value) (i : nat) (s : file) :
  complete phases subs -> nth_error students i = Some s -> final_of s = None ->
  complete (set_nth i Done phases) subs.
Proof.
  intros H Hs Hf j s' Hs' Hj. destruct (Nat.eq_dec j i) as [->|Hne].
  - congruence.
  - rewrite nth_error_set_nth_other in Hj by exact Hne. now apply (H j).
Qed.

Lemma sound_stored (phases : list phase) (subs : Js.obj value) (i : nat)
  (s dir : file) (old : phase) :
  sound phases subs -> nth_error students i = Some s ->
  nth_error phases i = Some old -> old <> Done -> final_of s = Some dir ->
  sound (set_nth i Done phases)
        (Js.set (getName s) (VFiles (listing_of (getUniqueId dir))) subs).
Proof.
  intros H Hs Hp N Hf. split; [apply JsFacts.get_set_proto, H|].
  intros name v G.
  destruct (String.eqb_spec name (getName s)) as [->|Hne].
  - destruct (String.eqb_spec (getName s) Js.proto) as [E|Np].
    + exfalso. rewrite E in G.
      rewrite JsFacts.get_set_proto in G by apply H. discriminate G.
    + rewrite JsFacts.get_set_same in G by exact Np. injection G as <-.
      exists i, s, dir. repeat split; auto.
      now apply (nth_error_set_nth_same i Done old).
  - rewrite JsFacts.get_set_other in G by exact Hne.
    now apply (sound_kept phases subs i old Done H Hp N).
Qed.

Lemma complete_stored (phases : list phase) (subs : Js.obj value) (i : nat)
  (s : file) (v : value) :
  complete phases subs -> nth_error students i = Some s ->
  complete (set_nth i Done phases) (Js.set (getName s) v subs).
Proof.
  intros H Hs j s' Hs' Hj Hf Np.
  destruct (String.eqb_spec (getName s') (getName s)) as [E|Hne].
  - rewrite <- E. now rewrite JsFacts.get_set_same.
  - rewrite JsFacts.get_set_other by exact Hne.
    destruct (Nat.eq_dec j i) as [->|Hji]; [congruence|].
    rewrite nth_error_set_nth_other in Hj by exact Hji. now apply (H j).
Qed.

Lemma wf_step (a a' : stage) : wf a -> step a a' -> wf a'.
Proof.
  intros W St.
  destruct St as [phases subs reqs tms dr cons k i s Hk Hs Hp Hf
                 |phases subs reqs tms dr cons k i s dir Hk Hs Hp Hf
                 |phases subs reqs tms dr cons k i s dir Hk Hs Hp Hf
                 |phases subs reqs tms dr cons k i s e Hk Hs Hp Hd
                 |phases subs reqs tms dr cons k i s dir e Hk Hs Hp Hf Hd
                 |phases subs reqs tms dr cons k i r delay s Hn Hk Hs Hp
                 |phases subs reqs tms dr cons k i r delay s Hn Hk Hs Hp Hf];
    destruct W as [W1 W2 W3 W4 W5 W6 W7 W8 W9 W10]; cbn in *.
  - constructor; cbn.
    + eapply Forall2_set_nth; eauto. exact I.
    + eapply calls_answered; eauto.
    + rewrite remove_nth_map. now apply NoDup_remove_nth.
    + eapply alarms_kept; eauto; discriminate.
    + exact W5.
    + eapply listed_update; eauto; [discriminate|].
      intros j N In. eapply In_kept_call; eauto. congruence.
    + eapply listed_final_update; eauto; [discriminate|].
      intros j N In. eapply In_kept_call; eauto. congruence.
    + eapply sound_kept; eauto. discriminate.
    + eapply complete_none; eauto.
    + exact W10.
  - assert (F : ~ In (Api (Final i)) (map fst (remove_nth k reqs))).
    { intros In. apply (no_call_for phases reqs (Api (Final i)) W2).
      - cbn. congruence.
      - rewrite remove_nth_map in In. eapply In_remove_nth; eauto. }
    constructor; cbn.
    + eapply Forall2_set_nth; eauto. cbn. congruence.
    + apply Forall_app. split; [eapply calls_answered; eauto|].
      constructor; [|constructor]. split; cbn.
      * now rewrite Hs, Hf.
      * now apply (nth_error_set_nth_same i ListingFinal Listing).
    + rewrite map_app. cbn. apply NoDup_snoc; [|exact F].
      rewrite remove_nth_map. now apply NoDup_remove_nth.
    + eapply alarms_kept; eauto; discriminate.
    + exact W5.
    + eapply listed_update; eauto; [discriminate|].
      intros j N In. rewrite map_app. apply in_or_app. left.
      eapply In_kept_call; eauto. congruence.
    + eapply listed_final_update; eauto.
      * intros _. rewrite map_app. apply in_or_app. right. now left.
      * intros j N In. rewrite map_app. apply in_or_app. left.
        eapply In_kept_call; eauto. congruence.
    + eapply sound_kept; eauto. discriminate.
    + apply complete_kept; auto. discriminate.
    + exact W10.
  - constructor; cbn.
    + eapply Forall2_set_nth; eauto. exact I.
    + eapply calls_answered; eauto.
    + rewrite remove_nth_map. now apply NoDup_remove_nth.
    + eapply alarms_kept; eauto; discriminate.
    + exact W5.
    + eapply listed_update; eauto; [discriminate|].
      intros j N In. eapply In_kept_call; eauto. congruence.
    + eapply listed_final_update; eauto; [discriminate|].
      intros j N In. eapply In_kept_call; eauto. congruence.
    + eapply sound_stored; eauto. discriminate.
    + now apply complete_stored.
    + exact W10.
  - apply wf_retrying.
    + constructor; cbn.
      * eapply Forall2_set_nth; eauto. exact I.
      * eapply calls_answered; eauto.
      * rewrite remove_nth_map. now apply NoDup_remove_nth.
      * eapply alarms_kept; eauto; discriminate.
      * exact W5.
      * eapply listed_update; eauto; [discriminate|].
        intros j N In. eapply In_kept_call; eauto. congruence.
      * eapply listed_final_update; eauto; [discriminate|].
        intros j N In. eapply In_kept_call; eauto. congruence.
      * eapply sound_kept; eauto. discriminate.
      * apply complete_kept; auto. discriminate.
      * exact W10.
    + cbn. exists 0. split; [reflexivity|].
      now apply (nth_error_set_nth_same i _ Listing).
    + apply (no_timer_for phases); auto.
      intros it (r & _ & H). cbn in H. congruence.
  - apply wf_retrying.
    + constructor; cbn.
      * eapply Forall2_set_nth; eauto. cbn. congruence.
      * eapply calls_answered; eauto.
      * rewrite remove_nth_map. now apply NoDup_remove_nth.
      * eapply alarms_kept; eauto; discriminate.
      * exact W5.
      * eapply listed_update; eauto; [discriminate|].
        intros j N In. eapply In_kept_call; eauto. congruence.
      * eapply listed_final_update; eauto; [discriminate|].
        intros j N In. eapply In_kept_call; eauto. congruence.
      * eapply sound_kept; eauto. discriminate.
      * apply complete_kept; auto. discriminate.
      * exact W10.
    + cbn. exists 0. split; [reflexivity|].
      now apply (nth_error_set_nth_same i _ ListingFinal).
    + apply (no_timer_for phases); auto.
      intros it (r & _ & H). cbn in H. congruence.
  - apply wf_retrying.
    + constructor; cbn.
      * eapply Forall2_set_nth; eauto. exact I.
      * eapply calls_kept; eauto; discriminate.
      * exact W3.
      * eapply alarms_fired; eauto.
      * rewrite remove_nth_map. now apply NoDup_remove_nth.
      * eapply listed_update; eauto. discriminate.
      * eapply listed_final_update; eauto. discriminate.
      * eapply sound_kept; eauto. discriminate.
      * apply complete_kept; auto. discriminate.
      * apply Forall_app. split; [exact W10|].
        constructor; [|constructor]. intros v. discriminate.
    + cbn. exists (S r). split; [reflexivity|].
      now apply (nth_error_set_nth_same i _ (ListingFailed r)).
    + rewrite remove_nth_map. apply NoDup_removed; auto.
      now rewrite (map_nth_error timer_promise k tms Hk).
  - apply wf_retrying.
    + constructor; cbn.
      * eapply Forall2_set_nth; eauto.
      * eapply calls_kept; eauto; discriminate.
      * exact W3.
      * eapply alarms_fired; eauto.
      * rewrite remove_nth_map. now apply NoDup_remove_nth.
      * eapply listed_update; eauto. discriminate.
      * eapply listed_final_update; eauto. discriminate.
      * eapply sound_kept; eauto. discriminate.
      * apply complete_kept; auto. discriminate.
      * apply Forall_app. split; [exact W10|].
        constructor; [|constructor]. intros v. discriminate.
    + cbn. exists (S r). split; [reflexivity|].
      now apply (nth_error_set_nth_same i _ (FinalFailed r)).
    + rewrite remove_nth_map. apply NoDup_removed; auto.
      now rewrite (map_nth_error timer_promise k tms Hk).
Qed.

(** *** The first stage *)

Lemma fan_requests_fst (k : nat) (l : list file) :
  map fst (fan_requests k l) = map (fun j => Api (Student j)) (seq k (List.length l)).
Proof.
  revert k; induction l as [|s l IH]; intros k; cbn; [reflexivity|].
  now rewrite IH.
Qed.

Lemma fan_requests_nth (k : nat) (l : list file) (x : pid * request) :
  In x (fan_requests k l) ->
  exists j s, nth_error l j = Some s /\
              x = (Api (Student (k + j)), GetFilesInFolder (getUniqueId s)).
Proof.
  revert k; induction l as [|s l IH]; intros k; cbn; [tauto|].
  intros [<-|I].
  - exists 0, s. now rewrite Nat.add_0_r.
  - destruct (IH (S k) I) as (j & s' & Hs & ->).
    exists (S j), s'. now rewrite Nat.add_succ_r.
Qed.

Lemma phase_ok_listing (l : list file) :
  Forall2 phase_ok l (repeat Listing (List.length l)).
Proof. induction l; cbn; constructor; auto. exact I. Qed.

Definition first_stage : stage :=
  mkStage (repeat Listing (List.length students)) [] (fan_requests 0 students) [] 0
          [Log "programCollectionAPI:"].

Lemma wf_first_stage : wf first_stage.
Proof.
  constructor; cbn.
  - apply phase_ok_listing.
  - apply Forall_forall. intros x I.
    destruct (fan_requests_nth 0 students x I) as (j & s & Hs & ->). cbn.
    split; cbn.
    + now rewrite Hs.
    + rewrite nth_error_listing.
      assert (H : (j <? List.length students)%nat = true).
      { apply Nat.ltb_lt. apply nth_error_Some. congruence. }
      now rewrite H.
  - rewrite fan_requests_fst. apply Finite.Injective_map_NoDup.
    + intros x y [= E]. exact E.
    + apply seq_NoDup.
  - constructor.
  - constructor.
  - intros i H. rewrite fan_requests_fst. apply in_map_iff. exists i.
    split; [reflexivity|]. apply in_seq. rewrite nth_error_listing in H.
    destruct (Nat.ltb_spec i (List.length students)); [lia|discriminate].
  - intros i H. rewrite nth_error_listing in H.
    destruct (i <? List.length students)%nat; discriminate.
  - split; [reflexivity|]. intros name v H. discriminate.
  - intros i s _ H. rewrite nth_error_listing in H.
    destruct (i <? List.length students)%nat; discriminate.
  - constructor; [|constructor]. intros v. discriminate.
Qed.

(** *** Failures stay *)

Definition is_failed (ph : phase) : bool :=
  match ph with ListingFailed _ | FinalFailed _ => true | _ => false end.

Definition failed (a : stage) (i : nat) : Prop :=
  exists ph, nth_error (chains a) i = Some ph /\ is_failed ph = true.

Lemma failed_set_nth (phases : list phase) (i j : nat) (old new ph : phase) :
  nth_error phases j = Some old ->
  nth_error phases i = Some ph -> is_failed ph = true ->
  (is_failed old = true -> is_failed new = true) ->
  exists ph', nth_error (set_nth j new phases) i = Some ph' /\ is_failed ph' = true.
Proof.
  intros Hj Hi F K. destruct (Nat.eq_dec i j) as [->|N].
  - exists new. split; [now apply (nth_error_set_nth_same j new old)|].
    apply K. congruence.
  - exists ph. split; [|exact F]. now rewrite nth_error_set_nth_other.
Qed.

Lemma chains_retrying (phases : list phase) (subs : Js.obj value)
  (reqs : list (pid * request)) (x : list (nat * timeout) * nat * list log) :
  chains (stage_retrying phases subs reqs x) = phases.
Proof. reflexivity. Qed.

Lemma step_failed (a a' : stage) (i : nat) : step a a' -> failed a i -> failed a' i.
Proof.
  intros St (ph & Hi & F). unfold failed.
  destruct St; rewrite ?chains_retrying; cbn [chains] in *;
    eapply failed_set_nth; eauto; cbn; congruence.
Qed.

Lemma failed_pending (a : stage) (i : nat) :
  failed a i -> promise_state gather_deferred (page_at a) = Q.Pending [].
Proof.
  intros (ph & Hi & F). unfold promise_state, page_at, build. cbn [Q.heap].
  unfold heap_of, gather_deferred, gather_cell.
  rewrite (all_done_false (chains a) i ph Hi); [reflexivity|]. now destruct ph.
Qed.

Lemma run_cons (fuel : nat) (ev : event) (evs : list event) (st : state) :
  run fuel (ev :: evs) st = run fuel evs (turn fuel ev st).
Proof. reflexivity. Qed.

Lemma run_app (fuel : nat) (evs evs' : list event) (st : state) :
  run fuel (evs ++ evs') st = run fuel evs' (run fuel evs st).
Proof. unfold run. apply fold_left_app. Qed.

(** Whatever happens, the page stays at a stage, and a chain that has
    failed stays so. *)
Lemma run_stage (f : nat) (evs : list event) (a : stage) :
  lists_folders -> wf a ->
  exists a', run (16 + f) evs (page_at a) = page_at a' /\ wf a' /\
             forall i, failed a i -> failed a' i.
Proof.
  intros T. revert a. induction evs as [|ev evs IH]; intros a W.
  - exists a. auto.
  - rewrite run_cons. destruct (turn_step a ev f T W) as (a1 & -> & [->|St]).
    + now apply IH.
    + destruct (IH a1 (wf_step a a1 W St)) as (a' & E & W' & K).
      exists a'. split; [exact E|]. split; [exact W'|]. intros i F. apply K.
      now apply (step_failed a a1).
Qed.

(** A call that is answered with a failure leaves a failed chain. *)
Lemma answer_failed_stage (f : nat) (a : stage) (k : nat) (p : pid) (r : request)
  (e : value) :
  wf a -> nth_error (calls a) k = Some (p, r) -> d r = Failed e ->
  exists a' i, turn (16 + f) (Answer k) (page_at a) = page_at a' /\ wf a' /\
               failed a' i.
Proof.
  intros W Hk Hd. destruct a as [phases subs reqs tms dr cons]. cbn [calls] in Hk.
  destruct (nth_error_Forall _ _ _ _ (wf_calls _ W) Hk) as [Hr Hp].
  cbn [fst snd chains] in Hr, Hp.
  destruct p as [[| |i|i]| | | |]; try contradiction; cbn in Hr, Hp.
  - destruct (nth_error students i) as [s|] eqn:Hs; [|discriminate].
    injection Hr as <-.
    pose proof (turn_listing_fails phases subs reqs tms dr cons k i s e f
                  Hk Hs Hp Hd) as E.
    assert (St := step_listing_fails phases subs reqs tms dr cons k i s e Hk Hs Hp Hd).
    eexists (stage_retrying _ _ _ _), i. split; [exact E|].
    split; [exact (wf_step _ _ W St)|].
    exists (ListingFailed 0). split; [|reflexivity].
    rewrite chains_retrying. now apply (nth_error_set_nth_same i _ Listing).
  - destruct (nth_error students i) as [s|] eqn:Hs; [|discriminate].
    destruct (final_of s) as [dir|] eqn:Hf; [|discriminate].
    injection Hr as <-.
    pose proof (turn_final_fails phases subs reqs tms dr cons k i s dir e f
                  Hk Hs Hp Hf Hd) as E.
    assert (St := step_final_fails phases subs reqs tms dr cons k i s dir e
                    Hk Hs Hp Hf Hd).
    eexists (stage_retrying _ _ _ _), i. split; [exact E|].
    split; [exact (wf_step _ _ W St)|].
    exists (FinalFailed 0). split; [|reflexivity].
    rewrite chains_retrying. now apply (nth_error_set_nth_same i _ ListingFinal).
Qed.

(** *** From the call of [gatherSubmissions] on *)

Lemma page_at_first_stage :
  page_at first_stage
  = build (repeat Listing (List.length students)) [] (fan_requests 0 students) [] 0
          [Log "programCollectionAPI:"].
Proof. reflexivity. Qed.

(** When the assignment folder is listed, the page is the one
    [gatherSubmissions] left, until the listing is answered, and a stage
    from then on. *)
Lemma run_listed (id : string) (f : nat) (evs : list event) :
  lists_folders -> d (GetFilesInFolder id) = Found (VFiles students) ->
  run (16 + f) evs (gathering d id n rnd) = gathering d id n rnd \/
  exists a, run (16 + f) evs (gathering d id n rnd) = page_at a /\ wf a.
Proof.
  intros T Hd. induction evs as [|ev evs IH] using rev_ind; [now left|].
  rewrite run_app, run_cons. cbn [run fold_left].
  destruct IH as [->|(a & -> & W)].
  - destruct (turn_one_request (16 + f) (gathering d id n rnd)
                (Api Root, GetFilesInFolder id) ev) as [E|E];
      try reflexivity; rewrite E; [now left|right].
    exists first_stage. split; [|apply wf_first_stage].
    rewrite page_at_first_stage. now apply fan_out.
  - right. destruct (turn_step a ev f T W) as (a1 & -> & [->|St]).
    + now exists a.
    + exists a1. split; [reflexivity|]. now apply (wf_step a a1).
Qed.

(** The mapping holds the files of the final-submission folder of a
    student under the name of the student, and holds nothing under a name
    no student with a final-submission folder has, nor under the name
    "__proto__". *)
Definition gathered (subs : Js.obj value) : Prop :=
  (forall name,
      Js.get name subs = None <->
      name = Js.proto \/
      forall s, In s students -> getName s = name -> final_of s = None) /\
  (forall name v,
      Js.get name subs = Some v ->
      exists s dir, In s students /\ getName s = name /\ final_of s = Some dir /\
                    v = VFiles (listing_of (getUniqueId dir))).

Lemma all_done_nth (phases : list phase) (i : nat) (ph : phase) :
  all_done phases = true -> nth_error phases i = Some ph -> ph = Done.
Proof.
  unfold all_done. intros H Hi. rewrite forallb_forall in H.
  specialize (H ph (nth_error_In _ _ Hi)). now destruct ph.
Qed.

Lemma stage_settled (a : stage) (s0 : Q.settled value) :
  wf a -> promise_state gather_deferred (page_at a) = Q.Settled s0 ->
  s0 = Q.Fulfilled VSubmissions /\ gathered (mapping a).
Proof.
  intros W. unfold promise_state, page_at, build. cbn [Q.heap].
  unfold heap_of, gather_deferred, gather_cell.
  destruct (all_done (chains a)) eqn:Ha; [|discriminate].
  intros [= <-]. split; [reflexivity|].
  assert (L := Forall2_length (wf_chains _ W)).
  destruct (wf_sound _ W) as [P0 Sd].
  assert (S : forall name v, Js.get name (mapping a) = Some v ->
      exists s dir, In s students /\ getName s = name /\ final_of s = Some dir /\
                    v = VFiles (listing_of (getUniqueId dir))).
  { intros name v G.
    destruct (Sd name v G) as (i & s & dir & Hs & Hn & _ & Hf & Hv).
    exists s, dir. repeat split; auto. eapply nth_error_In; eauto. }
  split; [|exact S].
  intros name. split.
  - intros G. destruct (String.eqb_spec name Js.proto) as [E|Np]; [now left|right].
    intros s I Hn. destruct (final_of s) as [dir|] eqn:Hf; [exfalso|reflexivity].
    destruct (In_nth_error _ _ I) as [i Hs].
    destruct (nth_error (chains a) i) as [ph|] eqn:Hi.
    + rewrite (all_done_nth _ _ _ Ha Hi) in Hi.
      apply (wf_complete _ W i s Hs Hi); [congruence|congruence|]. now rewrite Hn.
    + apply nth_error_None in Hi.
      assert (i < List.length students)%nat by (apply nth_error_Some; congruence).
      lia.
  - intros [->|H]; [exact P0|].
    destruct (Js.get name (mapping a)) as [v|] eqn:G; [exfalso|reflexivity].
    destruct (S name v G) as (s & dir & I & Hn & Hf & _).
    rewrite (H s I Hn) in Hf. discriminate.
Qed.

(** *** Every listing is answered *)

Definition succeeds (fid : string) : Prop :=
  exists l, d (GetFilesInFolder fid) = Found (VFiles l).

(** The storage API lists the folder of every student and its
    final-submission folder when there is one. *)
Definition answers : Prop :=
  forall s, In s students ->
    succeeds (getUniqueId s) /\
    forall dir, final_of s = Some dir -> succeeds (getUniqueId dir).

Definition weight (ph : phase) : nat :=
  match ph with Listing => 2 | ListingFinal => 1 | _ => 0 end.

(** The number of listings that may still be asked for. *)
Fixpoint load (phases : list phase) : nat :=
  match phases with
  | [] => 0
  | ph :: l => weight ph + load l
  end.

Definition calm (phases : list phase) : Prop :=
  forall i ph, nth_error phases i = Some ph -> is_failed ph = false.

Lemma load_set_nth (phases : list phase) (i : nat) (old new : phase) :
  nth_error phases i = Some old ->
  load (set_nth i new phases) + weight old = load phases + weight new.
Proof.
  revert i; induction phases as [|p l IH]; intros [|i]; cbn;
    try discriminate.
  - intros [= ->]. lia.
  - intros H. specialize (IH i H). lia.
Qed.

Lemma load_repeat (K : nat) : load (repeat Listing K) = 2 * K.
Proof. induction K as [|K IH]; cbn in *; lia. Qed.

Lemma load_nth (phases : list phase) (i : nat) (ph : phase) :
  nth_error phases i = Some ph -> (weight ph <= load phases)%nat.
Proof.
  revert i; induction phases as [|p l IH]; intros [|i]; cbn;
    try discriminate.
  - intros [= ->]. lia.
  - intros H. specialize (IH i H). lia.
Qed.

Lemma calm_set_nth (phases : list phase) (i : nat) (new : phase) :
  calm phases -> is_failed new = false -> calm (set_nth i new phases).
Proof.
  intros C N j ph Hj. destruct (Nat.eq_dec j i) as [->|Hne].
  - apply nth_error_set_nth_inv in Hj. now subst.
  - rewrite nth_error_set_nth_other in Hj by exact Hne. now apply (C j).
Qed.

Lemma load_zero_done (phases : list phase) :
  calm phases -> load phases = 0 -> all_done phases = true.
Proof.
  intros C L. unfold all_done. apply forallb_forall. intros ph I.
  destruct (In_nth_error _ _ I) as [i Hi].
  assert (W := load_nth phases i ph Hi). specialize (C i ph Hi).
  destruct ph; cbn in *; try reflexivity; try discriminate; lia.
Qed.

Lemma load_zero_calls (a : stage) : wf a -> load (chains a) = 0 -> calls a = [].
Proof.
  intros W L. destruct (calls a) as [|[p r] rest] eqn:E; [reflexivity|exfalso].
  assert (H : call_ok (chains a) (p, r)).
  { apply (nth_error_Forall _ (calls a) 0); [apply W|now rewrite E]. }
  destruct H as [_ H]. cbn in H.
  destruct p as [[| |i|i]| | | |]; try contradiction; cbn in H;
    apply load_nth in H; cbn in H; lia.
Qed.

(** The first call is answered: one listing less is to come. *)
Lemma answer_head (f : nat) (a : stage) (x : pid * request)
  (rest : list (pid * request)) :
  answers -> wf a -> calm (chains a) -> calls a = x :: rest ->
  exists a', turn (16 + f) (Answer 0) (page_at a) = page_at a' /\ wf a' /\
             calm (chains a') /\ (load (chains a') < load (chains a))%nat.
Proof.
  intros A W C E. destruct a as [phases subs reqs tms dr cons]. cbn [calls chains] in *.
  destruct x as [p r].
  assert (Hk : nth_error reqs 0 = Some (p, r)) by (now rewrite E).
  destruct (nth_error_Forall _ _ _ _ (wf_calls _ W) Hk) as [Hr Hp].
  cbn [fst snd chains] in Hr, Hp.
  assert (L := Forall2_length (wf_chains _ W)). cbn [chains] in L. symmetry in L.
  destruct p as [[| |i|i]| | | |]; try contradiction; cbn in Hr, Hp.
  - destruct (nth_error students i) as [s|] eqn:Hs; [|discriminate].
    injection Hr as <-.
    destruct (A s (nth_error_In _ _ Hs)) as [[l Hd] _].
    apply listing_of_found in Hd.
    destruct (final_of s) as [dir|] eqn:Hf.
    + pose proof (turn_listing_final phases subs reqs tms dr cons 0 i s dir f
                    L Hk Hs Hp Hd Hf) as T.
      assert (St := step_listing_final phases subs reqs tms dr cons 0 i s dir
                      Hk Hs Hp Hf).
      eexists (mkStage _ _ _ _ _ _). split; [exact T|].
      split; [exact (wf_step _ _ W St)|]. cbn [chains]. split.
      * now apply calm_set_nth.
      * assert (H := load_set_nth phases i Listing ListingFinal Hp). cbn in H. lia.
    + pose proof (turn_listing_none phases subs reqs tms dr cons 0 i s f
                    L Hk Hs Hp Hd Hf) as T.
      assert (St := step_listing_none phases subs reqs tms dr cons 0 i s
                      Hk Hs Hp Hf).
      eexists (mkStage _ _ _ _ _ _). split; [exact T|].
      split; [exact (wf_step _ _ W St)|]. cbn [chains]. split.
      * now apply calm_set_nth.
      * assert (H := load_set_nth phases i Listing Done Hp). cbn in H. lia.
  - destruct (nth_error students i) as [s|] eqn:Hs; [|discriminate].
    destruct (final_of s) as [dir|] eqn:Hf; [|discriminate].
    injection Hr as <-.
    destruct (A s (nth_error_In _ _ Hs)) as [_ H]. destruct (H dir Hf) as [l Hd].
    apply listing_of_found in Hd.
    pose proof (turn_final phases subs reqs tms dr cons 0 i s dir f
                  L Hk Hs Hp Hd Hf) as T.
    assert (St := step_final phases subs reqs tms dr cons 0 i s dir Hk Hs Hp Hf).
    eexists (mkStage _ _ _ _ _ _). split; [exact T|].
    split; [exact (wf_step _ _ W St)|]. cbn [chains]. split.
    + now apply calm_set_nth.
    + assert (H' := load_set_nth phases i ListingFinal Done Hp). cbn in H'. lia.
Qed.

(** Answering the first call again and again ends every chain. *)
Lemma answer_all (f m : nat) (a : stage) :
  answers -> wf a -> calm (chains a) -> (load (chains a) <= m)%nat ->
  exists a', run (16 + f) (repeat (Answer 0) m) (page_at a) = page_at a' /\
             wf a' /\ all_done (chains a') = true.
Proof.
  intros A. revert a. induction m as [|m IH]; intros a W C L.
  - exists a. split; [reflexivity|]. split; [exact W|].
    apply load_zero_done; auto. lia.
  - cbn [repeat]. rewrite run_cons.
    destruct (calls a) as [|x rest] eqn:E.
    + rewrite turn_idle_answer by (now rewrite E).
      apply IH; auto.
      destruct (Nat.eq_dec (load (chains a)) 0) as [Z|Z]; [lia|exfalso].
      assert (H : exists i ph, nth_error (chains a) i = Some ph /\ weight ph <> 0).
      { clear -Z. induction (chains a) as [|p l IHl]; [now cbn in Z|].
        destruct (Nat.eq_dec (weight p) 0) as [Wp|Wp].
        - cbn in Z. rewrite Wp in Z. destruct (IHl Z) as (i & ph & H & N).
          now exists (S i), ph.
        - now exists 0, p. }
      destruct H as (i & ph & Hi & N).
      destruct ph; cbn in N; try congruence.
      * apply (wf_listed _ W) in Hi. now rewrite E in Hi.
      * apply (wf_listed_final _ W) in Hi. now rewrite E in Hi.
    + destruct (answer_head f a x rest A W C E) as (a1 & -> & W1 & C1 & L1).
      apply IH; auto. lia.
Qed.

Lemma calm_first_stage : calm (chains first_stage).
Proof.
  intros i ph H. cbn in H. rewrite nth_error_listing in H.
  destruct (i <? List.length students)%nat; [|discriminate].
  now injection H as <-.
Qed.

(** While every listing is answered with files, no chain fails. *)
Lemma step_calm (a a' : stage) :
  answers -> calm (chains a) -> step a a' -> calm (chains a').
Proof.
  intros A C St.
  destruct St as [phases subs reqs tms dr cons k i s Hk Hs Hp Hf
                 |phases subs reqs tms dr cons k i s dir Hk Hs Hp Hf
                 |phases subs reqs tms dr cons k i s dir Hk Hs Hp Hf
                 |phases subs reqs tms dr cons k i s e Hk Hs Hp Hd
                 |phases subs reqs tms dr cons k i s dir e Hk Hs Hp Hf Hd
                 |phases subs reqs tms dr cons k i r delay s Hn Hk Hs Hp
                 |phases subs reqs tms dr cons k i r delay s Hn Hk Hs Hp Hf];
    rewrite ?chains_retrying; cbn [chains] in *.
  - now apply calm_set_nth.
  - now apply calm_set_nth.
  - now apply calm_set_nth.
  - exfalso. destruct (A s (nth_error_In _ _ Hs)) as [[l Hl] _]. congruence.
  - exfalso. destruct (A s (nth_error_In _ _ Hs)) as [_ H].
    destruct (H dir Hf) as [l Hl]. congruence.
  - exfalso. specialize (C i _ Hp). discriminate C.
  - exfalso. specialize (C i _ Hp). discriminate C.
Qed.

(** When the assignment folder is listed and every listing is answered
    with files, the page is a stage without a failed chain from the first
    answer on. *)
Lemma run_listed_calm (id : string) (f : nat) (evs : list event) :
  lists_folders -> answers -> d (GetFilesInFolder id) = Found (VFiles students) ->
  run (16 + f) evs (gathering d id n rnd) = gathering d id n rnd \/
  exists a, run (16 + f) evs (gathering d id n rnd) = page_at a /\ wf a /\
            calm (chains a).
Proof.
  intros T A Hd. induction evs as [|ev evs IH] using rev_ind; [now left|].
  rewrite run_app, run_cons. cbn [run fold_left].
  destruct IH as [->|(a & -> & W & C)].
  - destruct (turn_one_request (16 + f) (gathering d id n rnd)
                (Api Root, GetFilesInFolder id) ev) as [E|E];
      try reflexivity; rewrite E; [now left|right].
    exists first_stage. split; [|split; [apply wf_first_stage|apply calm_first_stage]].
    rewrite page_at_first_stage. now apply fan_out.
  - right. destruct (turn_step a ev f T W) as (a1 & -> & [->|St]).
    + now exists a.
    + exists a1. split; [reflexivity|]. split; [now apply (wf_step a a1)|].
      now apply (step_calm a a1).
Qed.

(** With no call left to answer and no failed chain, every chain has
    ended. *)
Lemma no_call_done (a : stage) :
  wf a -> calm (chains a) -> calls a = [] -> all_done (chains a) = true.
Proof.
  intros W C E. unfold all_done. apply forallb_forall. intros ph I.
  destruct (In_nth_error _ _ I) as [i Hi].
  assert (F := C i ph Hi).
  destruct ph; cbn in F; try discriminate F; try reflexivity; exfalso.
  - apply (wf_listed _ W) in Hi. now rewrite E in Hi.
  - apply (wf_listed_final _ W) in Hi. now rewrite E in Hi.
Qed.

(** When every listing is answered with files, the promise of
    [gatherSubmissions] is resolved as soon as no call is left to answer,
    whatever the order of the answers. *)
Lemma gathering_settles_any (id : string) (f : nat) (evs : list event) :
  lists_folders -> answers -> d (GetFilesInFolder id) = Found (VFiles students) ->
  requests (Q.world (run (16 + f) evs (gathering d id n rnd))) = [] ->
  promise_state gather_deferred (run (16 + f) evs (gathering d id n rnd))
  = Q.Settled (Q.Fulfilled VSubmissions).
Proof.
  intros T A Hd.
  destruct (run_listed_calm id f evs T A Hd) as [->|(a & -> & W & C)].
  - rewrite gathering_requests. discriminate.
  - intros E. change (requests (Q.world (page_at a))) with (calls a) in E.
    assert (D := no_call_done a W C E).
    unfold promise_state, page_at, build. cbn [Q.heap].
    unfold heap_of, gather_deferred, gather_cell. now rewrite D.
Qed.

(** When every listing is answered, the promise of [gatherSubmissions] is
    resolved once the calls have been answered one after the other. *)
Lemma gathering_settles (id : string) (f : nat) :
  answers -> d (GetFilesInFolder id) = Found (VFiles students) ->
  promise_state gather_deferred
    (run (16 + f) (repeat (Answer 0) (1 + 2 * List.length students))
         (gathering d id n rnd))
  = Q.Settled (Q.Fulfilled VSubmissions).
Proof.
  intros A Hd.
  change (repeat (Answer 0) (1 + 2 * List.length students))
    with (Answer 0 :: repeat (Answer 0) (2 * List.length students)).
  rewrite run_cons, (fan_out id f Hd).
  rewrite <- page_at_first_stage.
  destruct (answer_all f (2 * List.length students) first_stage A wf_first_stage
              calm_first_stage) as (a' & E & W & D).
  { cbn [chains first_stage]. now rewrite load_repeat. }
  rewrite E.
  unfold promise_state, page_at, build. cbn [Q.heap].
  unfold heap_of, gather_deferred, gather_cell. now rewrite D.
Qed.

(** Whenever the promise of [gatherSubmissions] is settled, it is resolved
    with the mapping, which holds what has been gathered. *)
Lemma gathering_safe (id : string) (f : nat) (evs : list event)
  (s0 : Q.settled value) :
  lists_folders -> d (GetFilesInFolder id) = Found (VFiles students) ->
  promise_state gather_deferred (run (16 + f) evs (gathering d id n rnd))
    = Q.Settled s0 ->
  s0 = Q.Fulfilled VSubmissions /\
  gathered (submissions (Q.world (run (16 + f) evs (gathering d id n rnd)))).
Proof.
  intros T Hd. destruct (run_listed id f evs T Hd) as [->|(a & -> & W)].
  - intros H. vm_compute in H. discriminate.
  - now apply stage_settled.
Qed.

(** When the assignment folder is listed, the promise of
    [gatherSubmissions] is never rejected, and stays pending once a call
    has been answered with a failure. *)
Lemma gathering_listed_pending (id : string) (f : nat) (evs : list event) :
  lists_folders -> d (GetFilesInFolder id) = Found (VFiles students) ->
  (forall e, promise_state gather_deferred (run (16 + f) evs (gathering d id n rnd))
             <> Q.Settled (Q.Rejected e)) /\
  Forall no_error (console (Q.world (run (16 + f) evs (gathering d id n rnd)))) /\
  (forall k p r e evs',
      nth_error (requests (Q.world (run (16 + f) evs (gathering d id n rnd)))) k
        = Some (p, r) ->
      d r = Failed e ->
      promise_state gather_deferred
        (run (16 + f) (evs ++ Answer k :: evs') (gathering d id n rnd))
      = Q.Pending []).
Proof.
  intros T Hd. split; [|split].
  - intros e H. apply (gathering_safe id f evs _ T Hd) in H. now destruct H.
  - destruct (run_listed id f evs T Hd) as [->|(a & -> & W)].
    + vm_compute. constructor; [|constructor]. intros v. discriminate.
    + apply (wf_written _ W).
  - intros k p r e evs' Hk Hf. rewrite run_app, run_cons.
    destruct (run_listed id f evs T Hd) as [E|(a & E & W)]; rewrite E in *.
    + exfalso. rewrite gathering_requests in Hk.
      destruct k as [|k]; [|now rewrite nth_error_single in Hk].
      cbn in Hk. injection Hk as <- <-. congruence.
    + destruct (answer_failed_stage f a k p r e W Hk Hf) as (a1 & i & -> & W1 & F1).
      destruct (run_stage f evs' a1 T W1) as (a2 & -> & _ & K).
      apply (failed_pending a2 i). now apply K.
Qed.

End Gather.

Lemma alice_bob_lists_folders : lists_folders alice_bob.
Proof.
  intros fid. unfold alice_bob.
  repeat (destruct (String.eqb fid _); [exact I|]). exact I.
Qed.

Definition alice : file := mkFile "alice" "a".
Definition bob : file := mkFile "bob" "b".

Lemma alice_bob_answers : answers alice_bob [alice; bob].
Proof.
  intros s [<-|[<-|[]]]; (split; [eexists; reflexivity|]);
    intros dir; vm_compute; intros [= <-]; eexists; reflexivity.
Qed.

(** C3, amended.  When the storage API lists the assignment folder with
    [students], the promise of [gatherSubmissions] is only ever resolved
    with the mapping [submissions], and then the mapping has a key exactly
    for the names, other than "__proto__", of the students that have a
    folder named "final-submission", with the files of that folder as the
    value: a student without such a folder has no key (no [null] is
    stored), and the files of the other students are gathered.  When
    every listing is answered with files, the promise is resolved as soon
    as no call is left to answer, in whatever order the calls were
    answered; answering the first pending call again and again reaches
    that state. *)
Theorem gatherSubmissions_omits_students_without_final
  (d : drive) (n : option nat) (rnd : nat -> nat) (id : string)
  (students : list file) (f : nat) :
  lists_folders d ->
  d (GetFilesInFolder id) = Found (VFiles students) ->
  (forall evs s0,
      promise_state gather_deferred (run (16 + f) evs (gathering d id n rnd))
        = Q.Settled s0 ->
      s0 = Q.Fulfilled VSubmissions /\
      gathered d students
        (submissions (Q.world (run (16 + f) evs (gathering d id n rnd))))) /\
  (answers d students ->
   (forall evs,
       requests (Q.world (run (16 + f) evs (gathering d id n rnd))) = [] ->
       promise_state gather_deferred (run (16 + f) evs (gathering d id n rnd))
       = Q.Settled (Q.Fulfilled VSubmissions)) /\
   promise_state gather_deferred
     (run (16 + f) (repeat (Answer 0) (1 + 2 * List.length students))
          (gathering d id n rnd))
   = Q.Settled (Q.Fulfilled VSubmissions)).
Proof.
  intros T Hd. split.
  - intros evs s0. now apply gathering_safe.
  - intros A. split.
    + intros evs. exact (gathering_settles_any d n rnd students id f evs T A Hd).
    + now apply gathering_settles.
Qed.

Lemma gatherSubmissions_omits_students_without_final_witness :
  let st := run (16 + 0) (repeat (Answer 0) (1 + 2 * List.length [alice; bob]))
                (gathering alice_bob "root" None (fun _ => 0)) in
  lists_folders alice_bob /\
  alice_bob (GetFilesInFolder "root") = Found (VFiles [alice; bob]) /\
  answers alice_bob [alice; bob] /\
  promise_state gather_deferred st = Q.Settled (Q.Fulfilled VSubmissions) /\
  gathered alice_bob [alice; bob] (submissions (Q.world st)).
Proof.
  intros st.
  split; [exact alice_bob_lists_folders|]. split; [reflexivity|].
  split; [exact alice_bob_answers|].
  destruct (gatherSubmissions_omits_students_without_final
              alice_bob None (fun _ => 0) "root" [alice; bob] 0
              alice_bob_lists_folders eq_refl) as [S L].
  destruct (L alice_bob_answers) as [_ R].
  split; [exact R|].
  exact (proj2 (S _ _ R)).
Defined.

(** An assignment folder with a student named "__proto__" who has a
    final-submission folder: the files of alice are stored, those of the
    other student are not. *)
Definition alice_proto : drive := fun r =>
  match r with
  | GetFilesInFolder fid =>
      if String.eqb fid "root" then
        Found (VFiles [mkFile "alice" "a"; mkFile "__proto__" "p"])
      else if String.eqb fid "a" then
        Found (VFiles [mkFile "final-submission" "af"])
      else if String.eqb fid "af" then
        Found (VFiles [mkFile "impl.arr" "f1"])
      else if String.eqb fid "p" then
        Found (VFiles [mkFile "final-submission" "pf"])
      else if String.eqb fid "pf" then
        Found (VFiles [mkFile "impl.arr" "p1"])
      else Failed (VError (RemoteError "404"))
  | GetFileById _ => Failed (VError (RemoteError "404"))
  end.

Lemma gatherSubmissions_proto_student_unstored :
  let st := run 16 (repeat (Answer 0) 5)
                (gathering alice_proto "root" None (fun _ => 0)) in
  requests (Q.world st) = [] /\
  promise_state gather_deferred st = Q.Settled (Q.Fulfilled VSubmissions) /\
  submissions (Q.world st) = [("alice", VFiles [mkFile "impl.arr" "f1"])].
Proof. vm_compute. repeat split. Qed.

(** The same assignment folder when the listing of the folder of bob
    fails. *)
Definition bob_fails : drive := fun r =>
  match r with
  | GetFilesInFolder fid =>
      if String.eqb fid "b" then Failed (VError (RemoteError "500"))
      else alice_bob r
  | GetFileById _ => alice_bob r
  end.

Lemma bob_fails_lists_folders : lists_folders bob_fails.
Proof.
  intros fid. unfold bob_fails. destruct (String.eqb fid "b"); [exact I|].
  apply alice_bob_lists_folders.
Qed.

(** Whatever the storage API answers and whatever the order of the
    answers and timers, the promise of [gatherSubmissions] is never
    rejected, the handler given to [fail] never calls [console.error], and
    the promise is pending once a listing has been answered with a
    failure. *)
Lemma gathering_pending
  (d : drive) (n : option nat) (rnd : nat -> nat) (id : string) (f : nat)
  (evs : list event) :
  lists_folders d ->
  (forall e, promise_state gather_deferred (run (16 + f) evs (gathering d id n rnd))
             <> Q.Settled (Q.Rejected e)) /\
  Forall no_error (console (Q.world (run (16 + f) evs (gathering d id n rnd)))) /\
  (forall k p r e evs',
      nth_error (requests (Q.world (run (16 + f) evs (gathering d id n rnd)))) k
        = Some (p, r) ->
      d r = Failed e ->
      promise_state gather_deferred
        (run (16 + f) (evs ++ Answer k :: evs') (gathering d id n rnd))
      = Q.Pending []).
Proof.
  intros T. assert (H := T id).
  destruct (d (GetFilesInFolder id)) as [[| | | |students| | | |]|e] eqn:Hd;
    try contradiction.
  - now apply (gathering_listed_pending d n rnd students).
  - assert (P := fun evs =>
                   gatherSubmissions_root_failure_pending d id e rnd Hd n (8 + f) evs).
    split; [|split].
    + intros e'. destruct (P evs) as (_ & E & _).
      change (8 + (8 + f)) with (16 + f) in E. rewrite E. discriminate.
    + destruct (P evs) as (_ & _ & E). exact E.
    + intros k p r e' evs' _ _. destruct (P (evs ++ Answer k :: evs')%list) as (_ & E & _).
      exact E.
Qed.

(** C4, amended.  Whatever the storage API answers and whatever the
    order of the answers and timers, the promise of [gatherSubmissions] is
    never rejected; once a listing has been answered with a failure, the
    promise stays pending for ever: it is neither rejected nor resolved
    with what has been gathered. *)
Theorem gatherSubmissions_failure_leaves_promise_pending
  (d : drive) (n : option nat) (rnd : nat -> nat) (id : string) (f : nat)
  (evs : list event) :
  lists_folders d ->
  (forall e, promise_state gather_deferred (run (16 + f) evs (gathering d id n rnd))
             <> Q.Settled (Q.Rejected e)) /\
  (forall k p r e evs',
      nth_error (requests (Q.world (run (16 + f) evs (gathering d id n rnd)))) k
        = Some (p, r) ->
      d r = Failed e ->
      promise_state gather_deferred
        (run (16 + f) (evs ++ Answer k :: evs') (gathering d id n rnd))
      = Q.Pending []).
Proof.
  intros T. destruct (gathering_pending d n rnd id f evs T) as (R & _ & P).
  split; [exact R|exact P].
Qed.

Lemma gatherSubmissions_failure_leaves_promise_pending_witness :
  lists_folders bob_fails /\
  nth_error (requests (Q.world (run (16 + 0) [Answer 0]
                         (gathering bob_fails "root" None (fun _ => 0))))) 1
    = Some (Api (Student 1), GetFilesInFolder "b") /\
  bob_fails (GetFilesInFolder "b") = Failed (VError (RemoteError "500")) /\
  promise_state gather_deferred
    (run (16 + 0) ([Answer 0] ++ Answer 1 :: [Answer 0; Answer 0])
         (gathering bob_fails "root" None (fun _ => 0)))
  = Q.Pending [].
Proof.
  split; [exact bob_fails_lists_folders|].
  assert (E : nth_error (requests (Q.world (run (16 + 0) [Answer 0]
                           (gathering bob_fails "root" None (fun _ => 0))))) 1
              = Some (Api (Student 1), GetFilesInFolder "b"))
    by (vm_compute; reflexivity).
  split; [exact E|]. split; [reflexivity|].
  destruct (gatherSubmissions_failure_leaves_promise_pending
              bob_fails None (fun _ => 0) "root" 0 [Answer 0]
              bob_fails_lists_folders) as (_ & H).
  exact (H 1 (Api (Student 1)) (GetFilesInFolder "b") (VError (RemoteError "500"))
           [Answer 0; Answer 0] E eq_refl).
Defined.

End GatherFacts.

(** ** Facts about the modal prompt *)

Module ModalFacts.
Import Modal.

Ltac conjuncts := repeat match goal with |- _ /\ _ => split end.

(** The page with the prompts [new Prompt(c0)] and [new Prompt(c1)]. *)
Definition two_prompts (c0 c1 : config) : state :=
  snd (Prompt (Some c1) (snd (Prompt (Some c0) loaded))).

(** The promise [this.deferred.promise] of prompt [i]. *)
Definition result_of (i : nat) (st : state) : option (Q.cell nat cont value) :=
  match get_prompt i st with
  | Some p =>
      match deferred p with
      | Some d => Some (Q.heap st d)
      | None => None
      end
  | None => None
  end.

Lemma two_prompts_eq (c0 c1 : config) :
  valid (Some c0) = true -> valid (Some c1) = true ->
  two_prompts c0 c1 =
  Q.mkState (fun p => if Nat.eqb p promptQueue then Q.Settled (Q.Fulfilled VUndefined)
                      else Q.Free)
            (fun _ => []) [] false
            (mkPage [mkPrompt c0 None None false false None;
                     mkPrompt c1 None None false false None]
                    false None "" true [] [] [] [] 1 0).
Proof.
  intros H0 H1. unfold two_prompts, Prompt. rewrite H0. cbn [snd]. now rewrite H1.
Qed.

(** A valid configuration has one of the two styles and a first option. *)
Lemma valid_cases (c : config) :
  valid (Some c) = true ->
  exists o os h t,
    c = mkConfig "radio" (Some (o :: os)) h t \/
    c = mkConfig "tiles" (Some (o :: os)) h t.
Proof.
  destruct c as [sty [[|o os]|] h t]; unfold valid; cbn [style options];
    rewrite ?andb_false_r; try discriminate.
  rewrite andb_true_r. intros H. exists o, os, h, t.
  apply orb_prop in H. destruct H as [H|H]; apply String.eqb_eq in H; subst sty;
    [now left|now right].
Qed.

(** C2, at two prompts shown one after the other.  The function given to
    [promptQueue.then] by the second [show] runs in the same run of the
    tick queue as that of the first, since [promptQueue] is never replaced
    by the promise [then] returns: the second prompt is on display while
    the result of the first is pending. *)
Theorem second_prompt_shown_while_first_pending (c0 c1 : config) (f : nat) :
  valid (Some c0) = true -> valid (Some c1) = true ->
  let st1 := snd (show 0 None (two_prompts c0 c1)) in
  let st2 := snd (show 1 None st1) in
  let st3 := drain (4 + f) st2 in
  fst (show 0 None (two_prompts c0 c1)) = Q.Return (VPromise 1) /\
  fst (show 1 None st1) = Q.Return (VPromise 3) /\
  visible st2 = None /\
  Q.ticks st3 = [] /\
  visible st3 = Some 1 /\
  Q.heap st3 1 = Q.Pending [Q.Follow 2] /\
  result_of 0 st3 = Some (Q.Pending [Q.Follow 2]).
Proof.
  intros H0 H1. cbv zeta. rewrite (two_prompts_eq c0 c1 H0 H1).
  vm_compute. repeat split.
Qed.

Definition yes_no : config :=
  mkConfig "radio" (Some [mkOption "Yes" "yes" None; mkOption "No" "no" None])
           false "Continue?".

Definition left_right : config :=
  mkConfig "radio" (Some [mkOption "Left" "left" None; mkOption "Right" "right" None])
           false "Which side?".

Lemma second_prompt_shown_while_first_pending_witness :
  visible (drain 4 (snd (show 1 None (snd (show 0 None (two_prompts yes_no left_right))))))
  = Some 1.
Proof.
  apply (second_prompt_shown_while_first_pending yes_no left_right 0 eq_refl eq_refl).
Defined.

(** On a page where no prompt has been shown before, the prompt on
    display resolves as the specification says: with [null] when it is
    closed by the close button, a click on the modal or the Escape key,
    and with the value of the checked radio button when it is submitted. *)
Lemma first_prompt_resolves (o : modal_option) (os : list modal_option)
  (h : bool) (t : string) (c1 : config) (f : nat) :
  valid (Some c1) = true ->
  let c0 := mkConfig "radio" (Some (o :: os)) h t in
  let st := drain (4 + f) (snd (show 0 None (two_prompts c0 c1))) in
  fst (show 0 None (two_prompts c0 c1)) = Q.Return (VPromise 1) /\
  visible st = Some 0 /\
  Q.heap (act ClickClose st) 1 = Q.Settled (Q.Fulfilled VNull) /\
  Q.heap (act ClickModal st) 1 = Q.Settled (Q.Fulfilled VNull) /\
  Q.heap (act (Key "Escape") st) 1 = Q.Settled (Q.Fulfilled VNull) /\
  Q.heap (act ClickSubmit st) 1
    = Q.Settled (Q.Fulfilled (VString (option_value o))) /\
  (forall k ok, nth_error (o :: os) k = Some ok ->
     Q.heap (act ClickSubmit (act (Select k) st)) 1
       = Q.Settled (Q.Fulfilled (VString (option_value ok)))) /\
  Q.heap (act ClickElsewhere st) 1 = Q.Pending [Q.Follow 2] /\
  Q.heap (act (Key "Enter") st) 1 = Q.Pending [Q.Follow 2].
Proof.
  intros H1 c0 st. subst st.
  rewrite (two_prompts_eq c0 c1 eq_refl H1).
  do 6 (split; [vm_compute; reflexivity|]).
  split; [|split; vm_compute; reflexivity].
  intros k ok E. vm_compute. vm_compute in E. now rewrite E.
Qed.

(** C7, at the second prompt of a page.  The first prompt was shown and
    closed with the close button; its handlers stay bound to the close
    button, the submit button and the document.  When the second prompt is
    on display, a click on the close button, a click on the submit button
    and the Escape key each call a handler of the first prompt first, which
    hides the modal and then throws on [this.deferred.resolve], so that the
    handler of the second prompt is not called: the modal is hidden and
    the result of the second prompt stays pending. *)
Theorem second_prompt_not_resolved (c0 c1 : config) (f : nat) :
  valid (Some c0) = true -> valid (Some c1) = true ->
  let st1 := drain (4 + f) (snd (show 0 None (two_prompts c0 c1))) in
  let st2 := drain (4 + f) (act ClickClose st1) in
  let st3 := drain (4 + f) (snd (show 1 None st2)) in
  Q.heap st2 1 = Q.Settled (Q.Fulfilled VNull) /\
  fst (show 1 None st2) = Q.Return (VPromise 3) /\
  visible st3 = Some 1 /\
  (forall a, a = ClickClose \/ a = ClickSubmit \/ a = Key "Escape" ->
     let st4 := drain (4 + f) (act a st3) in
     visible st4 = None /\
     Q.heap st4 3 = Q.Pending [Q.Follow 4] /\
     is_deferred 1 st4 = true /\
     fst (show 1 None st4) = Q.Throw already_showing).
Proof.
  intros H0 H1. cbv zeta. rewrite (two_prompts_eq c0 c1 H0 H1).
  split; [vm_compute; reflexivity|].
  split; [vm_compute; reflexivity|].
  split; [vm_compute; reflexivity|].
  intros a [->|[->| ->]]; conjuncts; vm_compute; reflexivity.
Qed.

Lemma second_prompt_not_resolved_witness :
  valid (Some yes_no) = true /\ valid (Some left_right) = true /\
  Q.heap
    (drain (4 + 0) (act (Key "Escape")
      (drain (4 + 0) (snd (show 1 None
        (drain (4 + 0) (act ClickClose
          (drain (4 + 0) (snd (show 0 None (two_prompts yes_no left_right))))))))))) 3
  = Q.Pending [Q.Follow 4].
Proof.
  split; [reflexivity|]. split; [reflexivity|].
  pose proof (second_prompt_not_resolved yes_no left_right 0 eq_refl eq_refl) as H.
  cbv zeta in H. destruct H as (_ & _ & _ & H).
  specialize (H (Key "Escape") (or_intror (or_intror eq_refl))).
  cbv zeta in H. destruct H as (_ & H & _). exact H.
Defined.

(** *** One outstanding [show] per prompt *)

Lemma nth_error_update_same {A : Type} (i : nat) (f : A -> A) (l : list A) :
  nth_error (update i f l) i = option_map f (nth_error l i).
Proof. revert i; induction l as [|x l IH]; intros [|i]; cbn; auto. Qed.

Lemma get_prompt_world (i : nat) (st st' : state) :
  prompts (Q.world st) = prompts (Q.world st') ->
  get_prompt i st = get_prompt i st'.
Proof. unfold get_prompt. now intros ->. Qed.

Lemma is_deferred_world (i : nat) (st st' : state) :
  prompts (Q.world st) = prompts (Q.world st') ->
  is_deferred i st = is_deferred i st'.
Proof. unfold is_deferred. intros H. now rewrite (get_prompt_world i st st' H). Qed.

Lemma get_prompt_on_prompt (i : nat) (f : prompt -> prompt) (st : state) :
  get_prompt i (on_prompt i f st) = option_map f (get_prompt i st).
Proof. unfold get_prompt, on_prompt; cbn. apply nth_error_update_same. Qed.

(** What [onClose] and [onSubmit] leave of a prompt that has a deferred. *)
Lemma finish_clears (i : nat) (v : value) (st : state) :
  is_deferred i st = true ->
  fst (finish i v st) = Q.Return VUndefined /\
  exists p, get_prompt i (snd (finish i v st)) = Some p /\
            deferred p = None /\ promise p = None.
Proof.
  unfold is_deferred, finish, clearModal. intros H.
  rewrite get_prompt_on_prompt.
  rewrite (get_prompt_world i (set_display false st) st) by reflexivity.
  destruct (get_prompt i st) as [p|] eqn:G; [|discriminate]. cbn [option_map deferred].
  destruct (deferred p) as [d|]; [|discriminate]. cbn [fst snd].
  split; [reflexivity|].
  rewrite get_prompt_on_prompt.
  match goal with
  | |- context [get_prompt i (Q.resolve ?e ?a ?q ?w ?s)] =>
      rewrite (get_prompt_world i (Q.resolve e a q w s) s)
        by (now rewrite QFacts.world_resolve)
  end.
  rewrite get_prompt_on_prompt.
  rewrite (get_prompt_world i (set_display false st) st) by reflexivity.
  rewrite G. cbn. eexists. repeat split.
Qed.

(** [show] on a prompt without a deferred gives it one and returns its
    promise. *)
Lemma show_sets_deferred (i : nat) (p : prompt) (st : state) :
  get_prompt i st = Some p -> deferred p = None ->
  fst (show i None st) = Q.Return (VPromise (next_promise (Q.world st))) /\
  is_deferred i (snd (show i None st)) = true.
Proof.
  intros G D.
  assert (E : is_deferred i st = false) by (unfold is_deferred; now rewrite G, D).
  unfold show. rewrite E.
  cbn [fresh_promise fst snd]. split; [reflexivity|].
  unfold is_deferred.
  match goal with
  | |- context [get_prompt i (Q.then_ ?e ?q ?pq ?f ?r ?s)] =>
      rewrite (get_prompt_world i (Q.then_ e q pq f r s) s)
        by (now rewrite QFacts.world_then)
  end.
  match goal with
  | |- context [get_prompt i (on_page ?f (on_prompt i ?g ?s))] =>
      rewrite (get_prompt_world i (on_page f (on_prompt i g s)) (on_prompt i g s))
        by reflexivity
  end.
  rewrite get_prompt_on_prompt.
  match goal with
  | |- context [get_prompt i (Q.defer ?e ?d ?s)] =>
      rewrite (get_prompt_world i (Q.defer e d s) st)
        by (now rewrite QFacts.world_defer)
  end.
  now rewrite G.
Qed.

(** While a prompt has a deferred, [show] throws "Already showing
    prompt" and changes nothing; the methods [onClose] and [onSubmit],
    when they are called on that prompt, delete the deferred and the
    promise of the prompt, after which [show] gives it a new deferred and
    returns its promise. *)
Lemma show_one_outstanding (st : state) (i : nat)
  (callback : option (value -> Q.completion value)) :
  is_deferred i st = true ->
  show i callback st = (Q.Throw already_showing, st) /\
  (forall r, r = onClose i st \/ r = onSubmit i st ->
     fst r = Q.Return VUndefined /\
     is_deferred i (snd r) = false /\
     (exists p, get_prompt i (snd r) = Some p /\
                deferred p = None /\ promise p = None) /\
     fst (show i None (snd r))
       = Q.Return (VPromise (next_promise (Q.world (snd r)))) /\
     is_deferred i (snd (show i None (snd r))) = true).
Proof.
  intros H. split; [unfold show; now rewrite H|].
  assert (F : forall v,
     fst (finish i v st) = Q.Return VUndefined /\
     is_deferred i (snd (finish i v st)) = false /\
     (exists p, get_prompt i (snd (finish i v st)) = Some p /\
                deferred p = None /\ promise p = None) /\
     fst (show i None (snd (finish i v st)))
       = Q.Return (VPromise (next_promise (Q.world (snd (finish i v st))))) /\
     is_deferred i (snd (show i None (snd (finish i v st)))) = true).
  { intros v. destruct (finish_clears i v st H) as (R & p & G & D & P).
    split; [exact R|]. split; [unfold is_deferred; now rewrite G, D|].
    split; [now exists p|]. now apply (show_sets_deferred i p). }
  intros r [->| ->]; apply F.
Qed.

(** *** The second prompt of a page stays outstanding *)

(** The actions by which the user submits or dismisses a prompt and that
    reach a handler of an earlier prompt first. *)
Definition stale (a : action) : Prop :=
  a = ClickClose \/ a = ClickSubmit \/ a = Key "Escape".

(** The user acts, and the tick queue runs after each action. *)
Definition user (f : nat) (acts : list action) (st : state) : state :=
  fold_left (fun s a => drain (4 + f) (act a s)) acts st.

(** The page on which the first prompt was shown and ended by [a1] and
    the second prompt is on display. *)
Definition second_shown (c0 c1 : config) (f : nat) (a1 : action) : state :=
  drain (4 + f)
    (snd (show 1 None
       (drain (4 + f)
          (act a1 (drain (4 + f) (snd (show 0 None (two_prompts c0 c1)))))))).

Lemma second_shown_stuck (c0 c1 : config) (f : nat) (a1 a : action) :
  valid (Some c0) = true -> valid (Some c1) = true ->
  a1 = ClickClose \/ a1 = ClickSubmit \/ a1 = ClickModal -> stale a ->
  let st := drain (4 + f) (act ClickClose (second_shown c0 c1 f a1)) in
  drain (4 + f) (act a (second_shown c0 c1 f a1)) = st /\
  drain (4 + f) (act a st) = st /\
  is_deferred 1 (second_shown c0 c1 f a1) = true /\
  Q.heap (second_shown c0 c1 f a1) 3 = Q.Pending [Q.Follow 4] /\
  visible (second_shown c0 c1 f a1) = Some 1 /\
  is_deferred 1 st = true /\
  Q.heap st 3 = Q.Pending [Q.Follow 4] /\
  visible st = None.
Proof.
  intros H0 H1 A1 A.
  destruct (valid_cases c0 H0) as (o0 & os0 & h0 & t0 & [-> | ->]);
    destruct (valid_cases c1 H1) as (o1 & os1 & h1 & t1 & [-> | ->]);
    (unfold second_shown; cbv zeta; rewrite two_prompts_eq by reflexivity;
     destruct A1 as [->|[->| ->]]; destruct A as [->|[->| ->]];
     conjuncts; vm_compute; reflexivity).
Qed.

Lemma user_stuck (c0 c1 : config) (f : nat) (a1 : action) (acts : list action) :
  valid (Some c0) = true -> valid (Some c1) = true ->
  a1 = ClickClose \/ a1 = ClickSubmit \/ a1 = ClickModal -> Forall stale acts ->
  user f acts (drain (4 + f) (act ClickClose (second_shown c0 c1 f a1)))
  = drain (4 + f) (act ClickClose (second_shown c0 c1 f a1)).
Proof.
  intros H0 H1 A1 F. induction F as [|a acts A F IH]; [reflexivity|].
  cbn [user fold_left]. fold (user f acts).
  destruct (second_shown_stuck c0 c1 f a1 a H0 H1 A1 A) as (_ & E & _).
  cbv zeta in E. rewrite E. exact IH.
Qed.

(** C8, at the second prompt of a page.  [show] on a prompt that has a
    deferred throws "Already showing prompt" and changes nothing, on every
    page.  But the pending state of a prompt is not cleared by every
    submission or dismissal: when the first prompt of the page has been
    ended (close button, submit button or a click on the modal) and the
    second prompt is on display, a click on the close button, a click on
    the submit button or the Escape key calls a handler of the first
    prompt first, which throws, so that [onClose] and [onSubmit] of the
    second prompt are not called.  After any number of such actions, one
    or more, the modal is hidden while the second prompt still has its
    deferred, its promise is pending, and [show] on it throws "Already
    showing prompt". *)
Theorem second_prompt_stays_outstanding (c0 c1 : config) (f : nat)
  (a1 : action) (a : action) (acts : list action) :
  valid (Some c0) = true -> valid (Some c1) = true ->
  a1 = ClickClose \/ a1 = ClickSubmit \/ a1 = ClickModal ->
  Forall stale (a :: acts) ->
  let st3 := second_shown c0 c1 f a1 in
  let st4 := user f (a :: acts) st3 in
  (forall st i callback, is_deferred i st = true ->
     show i callback st = (Q.Throw already_showing, st)) /\
  visible st3 = Some 1 /\
  is_deferred 1 st3 = true /\
  visible st4 = None /\
  is_deferred 1 st4 = true /\
  Q.heap st4 3 = Q.Pending [Q.Follow 4] /\
  show 1 None st4 = (Q.Throw already_showing, st4).
Proof.
  intros H0 H1 A1 F st3 st4.
  assert (S : forall st i callback, is_deferred i st = true ->
            show i callback st = (Q.Throw already_showing, st)).
  { intros st i callback H. unfold show. now rewrite H. }
  inversion F as [|? ? A F']; subst.
  destruct (second_shown_stuck c0 c1 f a1 a H0 H1 A1 A)
    as (E1 & _ & D3 & _ & V3 & D4 & P4 & V4).
  cbv zeta in E1, D4, P4, V4.
  assert (E : st4 = drain (4 + f) (act ClickClose (second_shown c0 c1 f a1))).
  { subst st4 st3. cbn [user fold_left]. fold (user f acts). rewrite E1.
    now apply user_stuck. }
  rewrite E.
  split; [exact S|]. split; [exact V3|]. split; [exact D3|].
  split; [exact V4|]. split; [exact D4|]. split; [exact P4|].
  now apply S.
Qed.

Lemma second_prompt_stays_outstanding_witness :
  let st4 := user 0 [Key "Escape"; ClickClose]
                  (second_shown yes_no left_right 0 ClickSubmit) in
  is_deferred 1 st4 = true /\
  show 1 None st4 = (Q.Throw already_showing, st4).
Proof.
  intros st4.
  assert (F : Forall stale [Key "Escape"; ClickClose]).
  { constructor; [right; right; reflexivity|].
    constructor; [left; reflexivity|constructor]. }
  destruct (second_prompt_stays_outstanding yes_no left_right 0 ClickSubmit
              (Key "Escape") [ClickClose] eq_refl eq_refl
              (or_intror (or_introl eq_refl)) F)
    as (_ & _ & _ & _ & D & _ & T).
  split; [exact D|exact T].
Defined.

End ModalFacts.

(** ** Preparing the submissions: [getSubmission], [makeRunner],
    [processSubmission] *)

Module Submission.
Import Ascii.
Import Grade.

(** [getSubmission(submission, name)]: the first file of the array whose
    name is [name], or [null]. *)
Fixpoint getSubmission (submission : list file) (name : string) : option file :=
  match submission with
  | [] => None
  | f :: rest =>
      if String.eqb (getName f) name then Some f else getSubmission rest name
  end.

(** The function [makeRunner] returns: it reads [fileObj] and runs its
    contents with [fileName] replaced by the file [fileID].  [None] stands
    for [undefined]. *)
Record runner := mkRunner {
  fileObj : file;
  fileName : option string;
  fileID : option string
}.

(** [makeRunner(fileObj, fileName, fileID)]; [None] is [null]. *)
Definition makeRunner (fileObj : option file) (fileName fileID : option string)
  : option runner :=
  match fileObj with
  | Some f => Some (mkRunner f fileName fileID)
  | None => None
  end.

(** A target: [name], [eval] and, once its run has completed, [result]. *)
Record target := mkTarget {
  name : string;
  eval : option runner;
  result : option Exporter.runresult
}.

(** [s.split(sep)] for a separator of one character. *)
Fixpoint split (sep : Ascii.ascii) (s : string) : list string :=
  match s with
  | EmptyString => [EmptyString]
  | String c s' =>
      if Ascii.eqb c sep then EmptyString :: split sep s'
      else
        match split sep s' with
        | x :: l => String c x :: l
        | [] => [String c EmptyString]
        end
  end.

Definition newline : Ascii.ascii := "010"%char.
Definition colon : Ascii.ascii := ":"%char.

(** The fields of the form [processSubmission] reads. *)
Record form := mkForm {
  implName : string;      (* $("#implementation").val() *)
  testName : string;      (* $("#test").val() *)
  goldID : string;        (* $("#gold").val() *)
  coals_text : string     (* $("#coals").val() *)
}.

(** [coals]: one array per line of the field, split at the colons. *)
Definition coals_of (text : string) : list (list string) :=
  if String.eqb text "" then []
  else map (split colon) (split newline text).

Definition coals (fm : form) : list (list string) := coals_of (coals_text fm).

(** The targets for the coals from index [i] on. *)
Fixpoint coal_targets (testSubmission : file) (i : nat) (cs : list (list string))
  : list target :=
  match cs with
  | [] => []
  | c :: cs' =>
      mkTarget ("coal-" ++ Js.index_string i)
               (makeRunner (Some testSubmission) (nth_error c 0) (nth_error c 1))
               None
      :: coal_targets testSubmission (S i) cs'
  end.

(** [toTargets(submission)]; [None] is [null]. *)
Definition toTargets (fm : form) (testSuite : option file) (submission : list file)
  : option (list target) :=
  let implSubmission := getSubmission submission (implName fm) in
  let testSubmission := getSubmission submission (testName fm) in
  match testSubmission, implSubmission with
  | Some t, Some i =>
      Some (mkTarget "test"
                     (makeRunner testSuite (Some (implName fm)) (Some (getUniqueId i)))
                     None
            :: mkTarget "gold"
                        (makeRunner (Some t) (Some (implName fm)) (Some (goldID fm)))
                        None
            :: coal_targets t 0 (coals fm))
  | _, _ => None
  end.

(** What [submissions] holds for a student: the files gathered, and after
    the loop of [processSubmission] the targets or [null]. *)
Inductive entry :=
| Files (l : list file)
| Targets (t : option (list target)).

Definition no_length : string := "Cannot read property 'length' of null".
Definition no_getName : string := "submission[i].getName is not a function".

Definition not_a_function : string := "submissions.hasOwnProperty is not a function".

(** One turn of [for (var student in submissions)].  The turn begins with
    the call [submissions.hasOwnProperty(student)]: when the mapping has an
    own property "hasOwnProperty" (a student of that name), that property
    shadows the method of [Object.prototype] and holds an array or [null],
    so that the call throws.  Otherwise the entry of the student is
    replaced by its targets. *)
Definition process_student (fm : form) (testSuite : option file)
  (o : Js.obj entry) (student : string) : Js.obj entry + string :=
  match Js.get "hasOwnProperty" o with
  | Some _ => inr not_a_function
  | None =>
      match Js.get student o with
      | Some (Files l) => inl (Js.set student (Targets (toTargets fm testSuite l)) o)
      | Some (Targets None) => inr no_length
      | Some (Targets (Some [])) => inl (Js.set student (Targets None) o)
      | Some (Targets (Some (_ :: _))) => inr no_getName
      | None => inl o
      end
  end.

Fixpoint process_keys (fm : form) (testSuite : option file) (ks : list string)
  (o : Js.obj entry) : Js.obj entry + string :=
  match ks with
  | [] => inl o
  | k :: ks' =>
      match process_student fm testSuite o k with
      | inl o' => process_keys fm testSuite ks' o'
      | inr e => inr e
      end
  end.

(** The loop of the function given to [submissionsPromise.then]. *)
Definition process (fm : form) (testSuite : option file) (o : Js.obj entry)
  : Js.obj entry + string :=
  process_keys fm testSuite (Js.own_keys o) o.

(** The mapping as [renderSubmissions] and [generateJSON] read it. *)
Definition targets_of (e : entry) : option (list target) :=
  match e with
  | Targets t => t
  | Files _ => None
  end.

Definition exported (t : target) : Exporter.target :=
  Exporter.mkTarget (name t) (result t).

Definition export_view (o : Js.obj entry) : Js.obj (option (list Exporter.target)) :=
  map (fun kv => (fst kv, option_map (map exported) (targets_of (snd kv)))) o.

End Submission.

(** ** Facts about the preparation of the submissions *)

Module SubmissionFacts.
Import Grade Submission.

Lemma getSubmission_spec (submission : list file) (name : string) :
  match getSubmission submission name with
  | Some f =>
      exists before rest,
        submission = (before ++ f :: rest)%list /\ getName f = name /\
        forall g, In g before -> getName g <> name
  | None => forall g, In g submission -> getName g <> name
  end.
Proof.
  induction submission as [|x l IH]; cbn.
  - intros g [].
  - destruct (String.eqb_spec (getName x) name) as [E|N].
    + exists [], l. repeat split; auto.
    + destruct (getSubmission l name) as [f|].
      * destruct IH as (before & rest & -> & E & B).
        exists (x :: before), rest. repeat split; auto.
        intros g [<-|I]; auto.
      * intros g [<-|I]; auto.
Qed.

(** [getSubmission] returns the first file of that name, and [null] only
    when the array holds no file of that name. *)
Theorem getSubmission_first_of_name (submission : list file) (name : string) :
  match getSubmission submission name with
  | Some f =>
      exists before rest,
        submission = (before ++ f :: rest)%list /\ getName f = name /\
        forall g, In g before -> getName g <> name
  | None => forall g, In g submission -> getName g <> name
  end.
Proof. apply getSubmission_spec. Qed.

Lemma getSubmission_none (submission : list file) (name : string) :
  getSubmission submission name = None <->
  forall g, In g submission -> getName g <> name.
Proof.
  split.
  - intros H. pose proof (getSubmission_spec submission name) as P.
    now rewrite H in P.
  - intros H. pose proof (getSubmission_spec submission name) as P.
    destruct (getSubmission submission name) as [f|]; [|reflexivity].
    destruct P as (before & rest & -> & E & _).
    exfalso. apply (H f); [|exact E]. apply in_or_app. right. now left.
Qed.

(** *** The coals field *)

Fixpoint count_char (c : Ascii.ascii) (s : string) : nat :=
  match s with
  | EmptyString => 0
  | String x s' => (if Ascii.eqb x c then 1 else 0) + count_char c s'
  end.

Lemma split_length (sep : Ascii.ascii) (s : string) :
  List.length (split sep s) = S (count_char sep s).
Proof.
  induction s as [|c s IH]; cbn; [reflexivity|].
  destruct (Ascii.eqb c sep); cbn; [now rewrite IH|].
  destruct (split sep s) as [|x l]; cbn in *; [discriminate|exact IH].
Qed.

Lemma split_concat (sep : Ascii.ascii) (s : string) :
  String.concat (String sep "") (split sep s) = s.
Proof.
  induction s as [|c s IH]; [reflexivity|].
  pose proof (split_length sep s) as L. cbn [split].
  destruct (split sep s) as [|x l]; [discriminate|].
  destruct (Ascii.eqb_spec c sep) as [->|N].
  - change (String.concat (String sep "") ("" :: x :: l))
      with (String sep (String.concat (String sep "") (x :: l))).
    now rewrite IH.
  - destruct l as [|y l].
    + cbn in *. now rewrite IH.
    + change (String.concat (String sep "") (String c x :: y :: l))
        with (String c (x ++ String sep "" ++ String.concat (String sep "") (y :: l))).
      change (String.concat (String sep "") (x :: y :: l))
        with (x ++ String sep "" ++ String.concat (String sep "") (y :: l)) in IH.
      now rewrite IH.
Qed.

(** No piece of a split holds the separator. *)
Lemma split_pieces (sep : Ascii.ascii) (s x : string) :
  In x (split sep s) -> count_char sep x = 0.
Proof.
  revert x; induction s as [|c s IH]; cbn; intros x.
  - now intros [<-|[]].
  - destruct (Ascii.eqb c sep) eqn:E.
    + intros [<-|I]; [reflexivity|now apply IH].
    + destruct (split sep s) as [|y l]; cbn.
      * intros [<-|[]]. cbn. now rewrite E.
      * intros [<-|I]; [|apply IH; now right].
        cbn. rewrite E. apply IH. now left.
Qed.

(** The coals are the lines of the field and their parts between colons:
    joining them gives the field back.  An empty field gives no coal; any
    other field gives one coal per line, also for an empty line, and every
    coal has a first part. *)
Theorem coals_of_lines (text : string) :
  String.concat (String newline "")
    (map (String.concat (String colon "")) (coals_of text)) = text /\
  List.length (coals_of text)
    = (if String.eqb text "" then 0 else S (count_char newline text)) /\
  (forall c, In c (coals_of text) ->
     exists first, nth_error c 0 = Some first /\ count_char colon first = 0).
Proof.
  unfold coals_of. destruct (String.eqb_spec text "") as [->|N].
  - repeat split. intros c [].
  - split; [|split].
    + rewrite map_map. erewrite map_ext; [|intros a; apply split_concat].
      rewrite map_id. apply split_concat.
    + now rewrite length_map, split_length.
    + intros c I. apply in_map_iff in I. destruct I as (line & <- & _).
      pose proof (split_length colon line) as L.
      destruct (split colon line) as [|first l] eqn:E; [discriminate|].
      exists first. split; [reflexivity|].
      apply (split_pieces colon line). rewrite E. now left.
Qed.

(** *** [toTargets] *)

(** [toTargets] returns [null] exactly when the submission has no file
    named as the implementation or no file named as the tests. *)
Theorem toTargets_null_iff (fm : form) (testSuite : option file)
  (submission : list file) :
  toTargets fm testSuite submission = None <->
  (forall f, In f submission -> getName f <> implName fm) \/
  (forall f, In f submission -> getName f <> testName fm).
Proof.
  unfold toTargets. rewrite <- !getSubmission_none.
  destruct (getSubmission submission (testName fm)),
           (getSubmission submission (implName fm)); split; try tauto;
    try discriminate; intros [H|H]; discriminate.
Qed.

Definition coal_name (i : nat) : string := "coal-" ++ Js.index_string i.

Lemma coal_targets_names (t : file) (i : nat) (cs : list (list string)) :
  map name (coal_targets t i cs) = map coal_name (seq i (List.length cs)).
Proof.
  revert i; induction cs as [|c cs IH]; intros i; cbn; [reflexivity|].
  now rewrite IH.
Qed.

Lemma coal_targets_runners (t : file) (i : nat) (cs : list (list string)) (x : target) :
  In x (coal_targets t i cs) ->
  result x = None /\ exists r, eval x = Some r /\ fileObj r = t.
Proof.
  revert i; induction cs as [|c cs IH]; intros i; cbn; [tauto|].
  intros [<-|I]; [|now apply (IH (S i))].
  cbn. split; [reflexivity|]. eexists. split; reflexivity.
Qed.

Lemma coal_name_inj (i j : nat) : coal_name i = coal_name j -> i = j.
Proof.
  unfold coal_name. cbn. intros [= E]. now apply ExporterFacts.index_string_inj.
Qed.

(** When the submission has both files, [toTargets] returns the targets
    "test", "gold" and one "coal-i" per coal, in this order.  Their names
    differ from one another and none has a result yet.  The target "test"
    runs the test suite against the implementation of the student and has
    no runner when the test suite is [null]; the other targets run the
    tests of the student and always have a runner. *)
Theorem toTargets_targets (fm : form) (testSuite : option file)
  (submission : list file) (impl tests : file) :
  getSubmission submission (implName fm) = Some impl ->
  getSubmission submission (testName fm) = Some tests ->
  exists test_target others,
    toTargets fm testSuite submission = Some (test_target :: others) /\
    map name (test_target :: others)
      = "test" :: "gold" :: map coal_name (seq 0 (List.length (coals fm))) /\
    NoDup (map name (test_target :: others)) /\
    Forall (fun x => result x = None) (test_target :: others) /\
    eval test_target
      = option_map (fun s => mkRunner s (Some (implName fm)) (Some (getUniqueId impl)))
                   testSuite /\
    Forall (fun x => exists r, eval x = Some r /\ fileObj r = tests) others.
Proof.
  intros Hi Ht. unfold toTargets. rewrite Hi, Ht.
  eexists _, _. split; [reflexivity|].
  assert (N : map name (coal_targets tests 0 (coals fm))
              = map coal_name (seq 0 (List.length (coals fm))))
    by apply coal_targets_names.
  split; [cbn; now rewrite N|]. split; [|split; [|split]].
  - cbn. rewrite N. constructor; [|constructor].
    + cbn. intros [E|I]; [discriminate|].
      apply in_map_iff in I. destruct I as (i & E & _). discriminate.
    + intros I. apply in_map_iff in I. destruct I as (i & E & _). discriminate.
    + apply Finite.Injective_map_NoDup; [|apply seq_NoDup].
      intros i j. apply coal_name_inj.
  - constructor; [reflexivity|]. constructor; [reflexivity|].
    apply Forall_forall. intros x I. now apply (coal_targets_runners tests 0 (coals fm)).
  - cbn. now destruct testSuite.
  - constructor; [cbn; eexists; split; reflexivity|].
    apply Forall_forall. intros x I. now apply (coal_targets_runners tests 0 (coals fm)).
Qed.

Definition two_files : list file := [mkFile "impl.arr" "f1"; mkFile "tests.arr" "f2"].

Definition the_form : form := mkForm "impl.arr" "tests.arr" "gold-id" "slow:c1".

Lemma toTargets_targets_witness :
  exists test_target others,
    toTargets the_form None two_files = Some (test_target :: others) /\
    map name (test_target :: others) = ["test"; "gold"; "coal-0"] /\
    eval test_target = None.
Proof.
  destruct (toTargets_targets the_form None two_files
              (mkFile "impl.arr" "f1") (mkFile "tests.arr" "f2") eq_refl eq_refl)
    as (t & others & E & N & _ & _ & R & _).
  exists t, others. split; [exact E|]. split; [exact N|exact R].
Defined.

Lemma coal_targets_length (t : file) (i : nat) (cs : list (list string)) :
  List.length (coal_targets t i cs) = List.length cs.
Proof. revert i; induction cs as [|c cs IH]; intros i; cbn; auto. Qed.

Lemma toTargets_length (fm : form) (testSuite : option file) (l : list file)
  (ts : list target) :
  toTargets fm testSuite l = Some ts -> List.length ts = 2 + List.length (coals fm).
Proof.
  unfold toTargets.
  destruct (getSubmission l (testName fm)) as [t|]; [|discriminate].
  destruct (getSubmission l (implName fm)) as [i|]; [|discriminate].
  intros [= <-]. cbn. now rewrite coal_targets_length.
Qed.

(** *** The loop over the students *)

Definition mem (k : string) (p : list string) : bool := existsb (String.eqb k) p.

(** The mapping when the students [p] have been visited. *)
Definition visited (fm : form) (testSuite : option file) (p : list string)
  (g : Js.obj (list file)) : Js.obj entry :=
  map (fun kv => (fst kv,
                  if mem (fst kv) p then Targets (toTargets fm testSuite (snd kv))
                  else Files (snd kv))) g.

Lemma mem_app (k x : string) (p : list string) :
  mem k (p ++ [x]) = mem k p || String.eqb k x.
Proof. unfold mem. rewrite existsb_app. cbn. now rewrite orb_false_r. Qed.

Lemma get_visited (fm : form) (testSuite : option file) (p : list string)
  (g : Js.obj (list file)) (k : string) :
  Js.get k (visited fm testSuite p g)
  = option_map (fun l => if mem k p then Targets (toTargets fm testSuite l)
                         else Files l) (Js.get k g).
Proof.
  induction g as [|[k' l] g IH]; cbn; [reflexivity|].
  destruct (String.eqb_spec k k') as [->|N]; [reflexivity|exact IH].
Qed.

Lemma put_visited (fm : form) (testSuite : option file) (p : list string)
  (g : Js.obj (list file)) (k : string) (l : list file) :
  NoDup (map fst g) -> Js.get k g = Some l -> mem k p = false ->
  Js.put k (Targets (toTargets fm testSuite l)) (visited fm testSuite p g)
  = visited fm testSuite (p ++ [k]) g.
Proof.
  intros D G M. induction g as [|[k' l'] g IH]; [discriminate|].
  cbn in *. inversion D as [|? ? Nk D']; subst.
  destruct (String.eqb_spec k k') as [->|N].
  - injection G as ->. rewrite mem_app, M, String.eqb_refl. cbn. f_equal.
    unfold visited. apply map_ext_in. intros [k0 l0] I. cbn.
    rewrite mem_app. destruct (String.eqb_spec k0 k') as [->|N0]; [|now rewrite orb_false_r].
    exfalso. apply Nk. now apply (in_map fst) in I.
  - rewrite mem_app. apply String.eqb_neq in N.
    rewrite String.eqb_sym in N. rewrite N, orb_false_r. f_equal. now apply IH.
Qed.

(** The key of a student is an own property of the mapping: the
    assignment stores the targets under it, whatever the name. *)
Lemma set_visited (fm : form) (testSuite : option file) (p : list string)
  (g : Js.obj (list file)) (k : string) (l : list file) :
  NoDup (map fst g) -> Js.get k g = Some l -> mem k p = false ->
  Js.set k (Targets (toTargets fm testSuite l)) (visited fm testSuite p g)
  = visited fm testSuite (p ++ [k]) g.
Proof.
  intros D G M.
  rewrite (JsFacts.set_own k _ (Files l)).
  - now apply put_visited.
  - rewrite get_visited, G. cbn. now rewrite M.
Qed.

Lemma process_keys_visited (fm : form) (testSuite : option file)
  (g : Js.obj (list file)) (ks p : list string) :
  NoDup (map fst g) -> Js.get "hasOwnProperty" g = None ->
  NoDup ks -> (forall k, In k ks -> mem k p = false) ->
  process_keys fm testSuite ks (visited fm testSuite p g)
  = inl (visited fm testSuite (p ++ ks) g).
Proof.
  intros D H. revert p. induction ks as [|k ks IH]; intros p Dk F.
  - cbn. now rewrite app_nil_r.
  - inversion Dk as [|? ? Nk Dk']; subst. cbn [process_keys].
    unfold process_student. rewrite !get_visited, H. cbn [option_map].
    rewrite (F k (or_introl eq_refl)).
    destruct (Js.get k g) as [l|] eqn:G; cbn [option_map].
    + rewrite (set_visited fm testSuite p g k l D G (F k (or_introl eq_refl))).
      rewrite IH; auto.
      * now rewrite <- app_assoc.
      * intros k0 I. rewrite mem_app, (F k0 (or_intror I)). cbn.
        apply String.eqb_neq. intros ->. contradiction.
    + assert (E : visited fm testSuite (p ++ [k]) g = visited fm testSuite p g).
      { unfold visited. apply map_ext_in. intros [k0 l0] I. cbn. rewrite mem_app.
        destruct (String.eqb_spec k0 k) as [->|N0]; [|now rewrite orb_false_r].
        exfalso. apply JsFacts.get_none_iff in G. apply G.
        now apply (in_map fst) in I. }
      rewrite <- E. rewrite IH; auto.
      * now rewrite <- app_assoc.
      * intros k0 I. rewrite mem_app, (F k0 (or_intror I)). cbn.
        apply String.eqb_neq. intros ->. contradiction.
Qed.

Definition gathered_files (g : Js.obj (list file)) : Js.obj entry :=
  map (fun kv => (fst kv, Files (snd kv))) g.

Definition with_targets (fm : form) (testSuite : option file) (g : Js.obj (list file))
  : Js.obj entry :=
  map (fun kv => (fst kv, Targets (toTargets fm testSuite (snd kv)))) g.

Lemma process_with_targets (fm : form) (testSuite : option file)
  (g : Js.obj (list file)) :
  NoDup (map fst g) -> Js.get "hasOwnProperty" g = None ->
  process fm testSuite (gathered_files g) = inl (with_targets fm testSuite g).
Proof.
  intros D H. unfold process.
  assert (K : map fst (gathered_files g) = map fst g).
  { unfold gathered_files. rewrite map_map. reflexivity. }
  assert (P : Permutation (Js.own_keys (gathered_files g)) (map fst g)).
  { rewrite <- K. apply JsFacts.own_keys_perm. }
  change (gathered_files g) with (visited fm testSuite [] g) at 2.
  rewrite process_keys_visited; auto.
  - f_equal. cbn [app]. unfold visited, with_targets.
    apply map_ext_in. intros [k l] I. cbn [fst snd].
    assert (M : mem k (Js.own_keys (gathered_files g)) = true).
    { unfold mem. apply existsb_exists. exists k. split; [|apply String.eqb_refl].
      eapply Permutation_in; [apply Permutation_sym, P|].
      now apply (in_map fst) in I. }
    now rewrite M.
  - eapply Permutation_NoDup; [apply Permutation_sym, P|exact D].
Qed.

(** With a student named "hasOwnProperty" the first turn of the loop
    throws. *)
Lemma process_shadowed (fm : form) (testSuite : option file)
  (g : Js.obj (list file)) :
  Js.get "hasOwnProperty" g <> None ->
  process fm testSuite (gathered_files g) = inr not_a_function.
Proof.
  intros H. unfold process.
  assert (G : Js.get "hasOwnProperty" (gathered_files g) <> None).
  { change (gathered_files g) with (visited fm testSuite [] g).
    rewrite get_visited. now destruct (Js.get "hasOwnProperty" g). }
  destruct (Js.own_keys (gathered_files g)) as [|k ks] eqn:E.
  - exfalso. apply G. apply JsFacts.get_none_iff. intros I.
    apply (Permutation_in _ (Permutation_sym (JsFacts.own_keys_perm _))) in I.
    rewrite E in I. destruct I.
  - cbn [process_keys]. unfold process_student.
    now destruct (Js.get "hasOwnProperty" (gathered_files g)).
Qed.

(** When no student is named "hasOwnProperty", the loop of
    [processSubmission] keeps every student at its place in the mapping
    and replaces the files of each one by what [toTargets] returns for
    them: the targets, or [null].  When a student has that name, the loop
    throws a type error at its first turn. *)
Theorem process_keeps_every_student (fm : form) (testSuite : option file)
  (g : Js.obj (list file)) :
  NoDup (map fst g) ->
  (Js.get "hasOwnProperty" g = None ->
   exists o, process fm testSuite (gathered_files g) = inl o /\
     map fst o = map fst g /\
     forall student files, Js.get student g = Some files ->
       Js.get student o = Some (Targets (toTargets fm testSuite files))) /\
  (Js.get "hasOwnProperty" g <> None ->
   process fm testSuite (gathered_files g) = inr not_a_function).
Proof.
  intros D. split; [|apply process_shadowed].
  intros H. exists (with_targets fm testSuite g).
  split; [now apply process_with_targets|]. split.
  - unfold with_targets. now rewrite map_map.
  - intros student files G. unfold with_targets. clear H.
    induction g as [|[k l] g IH]; [discriminate|]. cbn in *.
    inversion D; subst.
    destruct (String.eqb student k); [now injection G as ->|auto].
Qed.

Definition alice_bob_files : Js.obj (list file) :=
  [("bob", [mkFile "notes.txt" "n1"]); ("alice", two_files)].

(** A folder with a student named "hasOwnProperty". *)
Definition shadowing_files : Js.obj (list file) :=
  [("alice", two_files); ("hasOwnProperty", [mkFile "notes.txt" "n1"])].

Lemma process_keeps_every_student_witness :
  (exists o, process the_form None (gathered_files alice_bob_files) = inl o /\
     map fst o = ["bob"; "alice"] /\
     Js.get "bob" o = Some (Targets None)) /\
  process the_form None (gathered_files shadowing_files) = inr not_a_function.
Proof.
  assert (D : NoDup (map fst alice_bob_files)).
  { cbn. constructor; [cbn; intros [E|[]]; discriminate E|].
    constructor; [intros []|constructor]. }
  assert (D' : NoDup (map fst shadowing_files)).
  { cbn. constructor; [cbn; intros [E|[]]; discriminate E|].
    constructor; [intros []|constructor]. }
  split.
  - destruct (proj1 (process_keeps_every_student the_form None alice_bob_files D)
                eq_refl) as (o & E & K & G).
    exists o. split; [exact E|]. split; [exact K|].
    apply (G "bob" [mkFile "notes.txt" "n1"]). reflexivity.
  - apply (proj2 (process_keeps_every_student the_form None shadowing_files D')).
    discriminate.
Defined.

(** *** The export before any run *)

Lemma export_student_fresh (s : list Exporter.target) :
  Forall (fun x => Exporter.result x = None) s ->
  Exporter.export_student (Some (Some s)) = [].
Proof.
  intros F. cbn.
  assert (G : forall ks acc, fold_left (Exporter.export_file s) ks acc = acc).
  { induction ks as [|k ks IHk]; intros acc; cbn; [reflexivity|].
    rewrite IHk. unfold Exporter.export_file.
    destruct (Js.array_get s k) as [x|] eqn:E; [|reflexivity].
    apply ExporterFacts.array_get_in in E. rewrite Forall_forall in F.
    now rewrite (F x E). }
  apply G.
Qed.

Lemma toTargets_fresh (fm : form) (testSuite : option file) (l : list file)
  (ts : list target) :
  toTargets fm testSuite l = Some ts -> Forall (fun x => result x = None) ts.
Proof.
  unfold toTargets.
  destruct (getSubmission l (testName fm)) as [t|]; [|discriminate].
  destruct (getSubmission l (implName fm)) as [i|]; [|discriminate].
  intros [= <-]. constructor; [reflexivity|]. constructor; [reflexivity|].
  apply Forall_forall. intros x I. now apply (coal_targets_runners t 0 (coals fm)).
Qed.

(** When no student is named "hasOwnProperty" and the form is submitted
    before any target has run, the object [generateJSON] builds holds
    every student of the mapping but one named "__proto__", the keys
    created in the sorted order of the names, each with an empty object;
    [JSON.stringify] writes the keys in this order when no name is an
    array index. *)
Theorem export_before_any_run (fm : form) (testSuite : option file)
  (g : Js.obj (list file)) :
  NoDup (map fst g) -> Js.get "hasOwnProperty" g = None ->
  exists o, process fm testSuite (gathered_files g) = inl o /\
    Exporter.generateJSON (export_view o)
    = map (fun k => (k, Exporter.JObj []))
          (filter Js.ordinary (Js.sort (Js.own_keys g))) /\
    ((forall k, In k (map fst g) -> Js.is_index k = false) ->
     Exporter.written_keys (Exporter.generateJSON (export_view o))
     = filter Js.ordinary (Js.sort (Js.own_keys g))).
Proof.
  intros D H. exists (with_targets fm testSuite g).
  split; [now apply process_with_targets|].
  assert (K : map fst (export_view (with_targets fm testSuite g)) = map fst g).
  { unfold export_view, with_targets. now rewrite !map_map. }
  assert (J : Exporter.generateJSON (export_view (with_targets fm testSuite g))
              = map (fun k => (k, Exporter.JObj []))
                    (filter Js.ordinary (Js.sort (Js.own_keys g)))).
  { rewrite ExporterFacts.generateJSON_eq by (now rewrite K).
    assert (O : Js.own_keys (export_view (with_targets fm testSuite g))
                = Js.own_keys g).
    { unfold Js.own_keys. now rewrite K. }
    rewrite O. apply map_ext. intros k. f_equal. f_equal.
    destruct (Js.get k (export_view (with_targets fm testSuite g))) as [[s|]|] eqn:G;
      try reflexivity.
    apply export_student_fresh.
    unfold export_view, with_targets in G. rewrite map_map in G. cbn in G.
    clear -G. induction g as [|[k' l] g IH]; [discriminate|]. cbn in G.
    destruct (String.eqb k k'); [|now apply IH].
    destruct (toTargets fm testSuite l) as [ts|] eqn:E; [|discriminate].
    cbn in G. injection G as <-. apply toTargets_fresh in E.
    rewrite Forall_forall in *. intros x I. apply in_map_iff in I.
    destruct I as (y & <- & I). cbn. now apply E. }
  split; [exact J|].
  intros I. rewrite J. unfold Exporter.written_keys.
  rewrite JsFacts.own_keys_plain; rewrite map_map; cbn [fst]; rewrite map_id.
  - reflexivity.
  - intros k Hk. apply I. apply filter_In in Hk. destruct Hk as [Hk _].
    eapply Permutation_in; [apply JsFacts.own_keys_perm|].
    eapply Permutation_in; [apply JsFacts.sort_perm|exact Hk].
Qed.

Lemma export_before_any_run_witness :
  exists o, process the_form None (gathered_files alice_bob_files) = inl o /\
    Exporter.generateJSON (export_view o)
    = [("alice", Exporter.JObj []); ("bob", Exporter.JObj [])].
Proof.
  assert (D : NoDup (map fst alice_bob_files)).
  { cbn. constructor; [cbn; intros [E|[]]; discriminate E|].
    constructor; [intros []|constructor]. }
  destruct (export_before_any_run the_form None alice_bob_files D eq_refl)
    as (o & E & J & _).
  exists o. split; [exact E|]. rewrite J. reflexivity.
Defined.

End SubmissionFacts.

(** ** Rendering the table: [renderSubmissionsHeader],
    [renderSubmissionsRows], [renderSubmissions] *)

Module Render.
Import Submission.

(** The click handlers the rendering binds. *)
Inductive handler :=
| RunColumn                          (* runTDs on the column of the clicked [th] *)
| RunEverything                      (* runTDs on every target cell *)
| RunRow                             (* runTDs on the cells of the row *)
| RunTarget (student : string) (j : nat).
                                     (* makeTarget(submissions[student][j]) *)

(** A [th] or [td]: what [html] or [text] was given, the class attribute,
    the [title] and [colspan] attributes and the click handler. *)
Record elem := mkElem {
  tag : string;
  html : option string;
  text : option string;
  classes : list string;
  title : option string;
  colspan : option nat;
  onclick : option handler
}.

Definition hasClass (c : string) (e : elem) : bool :=
  existsb (String.eqb c) (classes e).

(** The mapping after the loop of [processSubmission]: the targets of a
    student, or [null]. *)
Definition mapping := Js.obj (option (list target)).

Definition target_th (t : target) : elem :=
  mkElem "th" (Some ("<div><span>" ++ name t ++ "</span></div>")) None
         ["tooltip"; "def"] (Some ("Run All for '" ++ name t ++ "'")) None
         (Some RunColumn).

Definition student_th : elem :=
  mkElem "th" (Some "<div><span>student</span></div>") None
         ["def"; "tooltip"] (Some "Run All") None (Some RunEverything).

(** The targets of the first student [for (var student in submissions)]
    meets whose entry is not [null]. *)
Fixpoint first_targets (ks : list string) (submissions : mapping)
  : option (list target) :=
  match ks with
  | [] => None
  | k :: ks' =>
      match Js.get k submissions with
      | Some (Some ts) => Some ts
      | _ => first_targets ks' submissions
      end
  end.

(** [renderSubmissionsHeader(thead, submissions)]: the value returned and
    the cells of the header row. *)
Definition renderSubmissionsHeader (thead : list elem) (submissions : mapping)
  : nat * list elem :=
  let ts := match first_targets (Js.own_keys submissions) submissions with
            | Some ts => ts
            | None => []
            end in
  (List.length ts, student_th :: (thead ++ map target_th ts)%list).

Definition target_td (student : string) (j : nat) : elem :=
  mkElem "td" None None ["def"; "tooltip"] (Some "Run") None
         (Some (RunTarget student j)).

Definition student_td (student : string) (c : string) (h : option handler) : elem :=
  mkElem "td" None (Some student) ["tooltip"; c]
         (Some ("Run All for '" ++ student ++ "'")) None h.

Definition filler_td (colspan : nat) : elem :=
  mkElem "td" None None ["nohov"] None (Some colspan) None.

(** The row of one student. *)
Definition row (colspan : nat) (student : string) (entry : option (list target))
  : list elem :=
  match entry with
  | Some ts =>
      student_td student "def" (Some RunRow)
      :: map (target_td student) (seq 0 (List.length ts))
  | None => [student_td student "nohov" None; filler_td colspan]
  end.

(** [renderSubmissionsRows(tbody, colspan, submissions)]: the rows of the
    body. *)
Definition renderSubmissionsRows (tbody : list (list elem)) (colspan : nat)
  (submissions : mapping) : list (list elem) :=
  (tbody ++ flat_map (fun student =>
                        match Js.get student submissions with
                        | Some entry => [row colspan student entry]
                        | None => []
                        end)
                     (Js.sort (Js.own_keys submissions)))%list.

(** [renderSubmissions(submissions)] on an empty table: the header row and
    the rows of the body. *)
Definition renderSubmissions (submissions : mapping) : list elem * list (list elem) :=
  let (colspan, thead) := renderSubmissionsHeader [] submissions in
  (thead, renderSubmissionsRows [] colspan submissions).

(** *** The cells the handlers hand to [runTDs] *)

(** A cell of the body: its row and its place in the row. *)
Definition place := (nat * nat)%type.

Definition is_td (e : elem) : bool := String.eqb (tag e) "td".

(** The places of the cells of [r], row [i], that satisfy [keep]. *)
Definition cells_of_row (keep : nat -> elem -> bool) (i : nat) (r : list elem)
  : list place :=
  flat_map (fun ce => if keep (fst ce) (snd ce) then [(i, fst ce)] else [])
           (combine (seq 0 (List.length r)) r).

Definition cells (keep : nat -> elem -> bool) (rows : list (list elem)) : list place :=
  flat_map (fun ir => cells_of_row keep (fst ir) (snd ir))
           (combine (seq 0 (List.length rows)) rows).

(** [find("td:not(.nohov):not(:first-child)")] on the table. *)
Definition select_everything (rows : list (list elem)) : list place :=
  cells (fun c e => is_td e && negb (hasClass "nohov" e) && negb (Nat.eqb c 0)) rows.

(** [find("td:not(.nohov):nth-child(" + idx + ")")] on the table. *)
Definition select_column (idx : nat) (rows : list (list elem)) : list place :=
  cells (fun c e => is_td e && negb (hasClass "nohov" e) && Nat.eqb (S c) idx) rows.

(** [find("td:not(:first-child)")] on the row [i]. *)
Definition select_row (i : nat) (rows : list (list elem)) : list place :=
  match nth_error rows i with
  | Some r => cells_of_row (fun c e => is_td e && negb (Nat.eqb c 0)) i r
  | None => []
  end.

Definition cell_at (rows : list (list elem)) (p : place) : option elem :=
  match nth_error rows (fst p) with
  | Some r => nth_error r (snd p)
  | None => None
  end.

(** The columns a cell spans: its [colspan] attribute, and one column
    when the attribute is absent or 0. *)
Definition span (e : elem) : nat :=
  match colspan e with Some (S n) => S n | _ => 1 end.

Definition width (r : list elem) : nat := list_sum (map span r).

(** The mapping [renderSubmissions] reads in [submissions]. *)
Definition mapping_of (o : Js.obj entry) : mapping :=
  map (fun kv => (fst kv, targets_of (snd kv))) o.

End Render.

(** ** Facts about the rendering *)

Module RenderFacts.
Import Grade Submission Render.

Lemma first_targets_found (ks1 ks2 : list string) (k : string) (ts : list target)
  (o : mapping) :
  (forall k', In k' ks1 -> Js.get k' o = Some None \/ Js.get k' o = None) ->
  Js.get k o = Some (Some ts) ->
  first_targets (ks1 ++ k :: ks2) o = Some ts.
Proof.
  intros N G. induction ks1 as [|x ks1 IH]; cbn.
  - now rewrite G.
  - destruct (N x (or_introl eq_refl)) as [E|E]; rewrite E;
      apply IH; intros k' I; apply N; now right.
Qed.

Lemma first_targets_none (ks : list string) (o : mapping) :
  (forall k, In k ks -> Js.get k o = Some None \/ Js.get k o = None) ->
  first_targets ks o = None.
Proof.
  intros N. induction ks as [|x ks IH]; cbn; [reflexivity|].
  destruct (N x (or_introl eq_refl)) as [E|E]; rewrite E;
    apply IH; intros k' I; apply N; now right.
Qed.

(** The header gets the cell "student" in front, and behind the cells it
    had one cell per target of the first student, in the order of
    [for-in], that has targets; the value returned is the number of these
    targets. *)
Theorem renderSubmissionsHeader_first_student (thead : list elem) (o : mapping)
  (ks1 ks2 : list string) (k : string) (ts : list target) :
  Js.own_keys o = (ks1 ++ k :: ks2)%list ->
  (forall k', In k' ks1 -> Js.get k' o = Some None) ->
  Js.get k o = Some (Some ts) ->
  renderSubmissionsHeader thead o
  = (List.length ts, student_th :: (thead ++ map target_th ts)%list) /\
  List.length (snd (renderSubmissionsHeader thead o))
  = 1 + List.length thead + List.length ts.
Proof.
  intros K N G. unfold renderSubmissionsHeader. rewrite K.
  rewrite (first_targets_found ks1 ks2 k ts o); auto.
  split; [reflexivity|]. cbn. now rewrite length_app, length_map.
Qed.

Definition bob_alice : mapping :=
  [("bob", None);
   ("alice", Some [mkTarget "test" None None; mkTarget "gold" None None])].

Lemma renderSubmissionsHeader_first_student_witness :
  fst (renderSubmissionsHeader [] bob_alice) = 2.
Proof.
  pose proof (renderSubmissionsHeader_first_student [] bob_alice ["bob"] [] "alice"
                [mkTarget "test" None None; mkTarget "gold" None None] eq_refl) as H.
  destruct H as [E _].
  - intros k' [<-|[]]. reflexivity.
  - reflexivity.
  - now rewrite E.
Defined.

(** When no student has targets the header gets the cell "student" only
    and 0 is returned. *)
Theorem renderSubmissionsHeader_no_targets (thead : list elem) (o : mapping) :
  (forall k v, Js.get k o = Some v -> v = None) ->
  renderSubmissionsHeader thead o = (0, student_th :: thead).
Proof.
  intros N. unfold renderSubmissionsHeader.
  rewrite first_targets_none.
  - cbn. now rewrite app_nil_r.
  - intros k _. destruct (Js.get k o) as [v|] eqn:G; [left|now right].
    now rewrite (N k v G).
Qed.

Lemma renderSubmissionsHeader_no_targets_witness :
  renderSubmissionsHeader [] [("bob", None)] = (0, [student_th]).
Proof.
  apply (renderSubmissionsHeader_no_targets [] [("bob", None)]).
  intros k v. cbn. destruct (String.eqb k "bob"); [now intros [= <-]|discriminate].
Defined.

(** *** The rows *)

Definition entry_of (o : mapping) (k : string) : option (list target) :=
  match Js.get k o with
  | Some e => e
  | None => None
  end.

Lemma own_keys_have (o : mapping) (k : string) :
  In k (Js.sort (Js.own_keys o)) -> exists e, Js.get k o = Some e.
Proof.
  intros I.
  assert (I' : In k (map fst o)).
  { eapply Permutation_in; [apply JsFacts.own_keys_perm|].
    eapply Permutation_in; [apply JsFacts.sort_perm|exact I]. }
  destruct (Js.get k o) as [e|] eqn:G; [now exists e|].
  apply JsFacts.get_none_iff in G. contradiction.
Qed.

Lemma rows_eq (c : nat) (o : mapping) :
  renderSubmissionsRows [] c o
  = map (fun k => row c k (entry_of o k)) (Js.sort (Js.own_keys o)).
Proof.
  unfold renderSubmissionsRows. cbn [app].
  assert (H : forall ks, (forall k, In k ks -> exists e, Js.get k o = Some e) ->
     flat_map (fun student => match Js.get student o with
                              | Some entry => [row c student entry]
                              | None => []
                              end) ks
     = map (fun k => row c k (entry_of o k)) ks).
  { induction ks as [|k ks IH]; intros E; cbn; [reflexivity|].
    destruct (E k (or_introl eq_refl)) as [e G]. unfold entry_of at 1.
    rewrite G. cbn. f_equal. apply IH. intros k' I. apply E. now right. }
  apply H. intros k. apply own_keys_have.
Qed.

(** The body gets one row per student, in the sorted order of the names,
    that begins with the cell of the student.  The row of a student with
    targets has one cell per target behind it, and all its cells are
    marked "def"; the row of a student without targets has one more cell,
    which spans [colspan] columns: its two cells are marked "nohov", none is
    marked "def" and none has a click handler. *)
Theorem renderSubmissionsRows_rows (colspan : nat) (o : mapping) :
  let rows := renderSubmissionsRows [] colspan o in
  map (fun r => option_map text (nth_error r 0)) rows
    = map (fun k => Some (Some k)) (Js.sort (Js.own_keys o)) /\
  Sorted ExporterFacts.le_string (Js.sort (Js.own_keys o)) /\
  (forall i k, nth_error (Js.sort (Js.own_keys o)) i = Some k ->
     exists r, nth_error rows i = Some r /\
       match Js.get k o with
       | Some (Some ts) =>
           List.length r = 1 + List.length ts /\
           Forall (fun e => hasClass "def" e = true /\ hasClass "nohov" e = false) r /\
           forall j, (j < List.length ts)%nat ->
                     nth_error r (S j) = Some (target_td k j)
       | _ =>
           r = [student_td k "nohov" None; filler_td colspan] /\
           Forall (fun e => hasClass "def" e = false /\ hasClass "nohov" e = true /\
                            onclick e = None) r
       end).
Proof.
  intros rows. subst rows. rewrite rows_eq. split; [|split].
  - rewrite map_map. apply map_ext. intros k. now destruct (entry_of o k).
  - apply JsFacts.sort_sorted.
  - intros i k Hi. exists (row colspan k (entry_of o k)).
    split; [apply (map_nth_error (fun k => row colspan k (entry_of o k)) i _ Hi)|].
    unfold entry_of.
    destruct (Js.get k o) as [[ts|]|] eqn:G; cbn [row].
    + split; [cbn; now rewrite length_map, length_seq|]. split.
      * constructor; [split; reflexivity|].
        apply Forall_forall. intros e I. apply in_map_iff in I.
        destruct I as (j & <- & _). split; reflexivity.
      * intros j Hj. cbn [nth_error].
        rewrite (map_nth_error (target_td k) j (seq 0 (List.length ts)) (d := j));
          [reflexivity|].
        rewrite nth_error_nth' with (d := 0) by (now rewrite length_seq).
        now rewrite seq_nth.
    + split; [reflexivity|]. repeat constructor.
    + split; [reflexivity|]. repeat constructor.
Qed.

(** *** The table has as many columns in every row *)

Lemma first_targets_some (ks : list string) (o : mapping) (ts : list target) :
  first_targets ks o = Some ts -> exists k, Js.get k o = Some (Some ts).
Proof.
  induction ks as [|k ks IH]; cbn; [discriminate|].
  destruct (Js.get k o) as [[ts'|]|] eqn:G; auto.
  intros [= <-]. now exists k.
Qed.

Lemma first_targets_all_null (ks : list string) (o : mapping) (k : string)
  (ts : list target) :
  first_targets ks o = None -> In k ks -> Js.get k o <> Some (Some ts).
Proof.
  induction ks as [|x ks IH]; cbn; [tauto|].
  destruct (Js.get x o) as [[ts'|]|] eqn:G; try discriminate;
    intros H [<-|I]; try congruence; now apply IH.
Qed.

Lemma width_header (ts : list target) :
  width (student_th :: map target_th ts) = 1 + List.length ts.
Proof.
  unfold width. cbn. f_equal. induction ts as [|t ts IH]; cbn; [reflexivity|].
  now rewrite IH.
Qed.

Lemma width_targets (k : string) (b n : nat) :
  list_sum (map span (map (target_td k) (seq b n))) = n.
Proof. revert b; induction n as [|n IH]; intros b; cbn; [reflexivity|]. now rewrite IH. Qed.

Lemma rectangular (o : mapping) (n : nat) :
  (forall k ts, Js.get k o = Some (Some ts) -> List.length ts = S n) ->
  (exists k ts, In k (Js.own_keys o) /\ Js.get k o = Some (Some ts)) ->
  Forall (fun r => width r = width (fst (renderSubmissions o)))
         (snd (renderSubmissions o)) /\
  width (fst (renderSubmissions o)) = 2 + n.
Proof.
  intros U (k0 & ts0 & I0 & G0).
  unfold renderSubmissions, renderSubmissionsHeader. cbn [fst snd app].
  rewrite rows_eq, width_header.
  destruct (first_targets (Js.own_keys o) o) as [ts1|] eqn:F;
    [|exfalso; now apply (first_targets_all_null _ _ k0 ts0 F I0)].
  destruct (first_targets_some _ _ _ F) as [k1 G1]. rewrite (U k1 ts1 G1).
  split; [|reflexivity].
  apply Forall_forall. intros r I.
  apply in_map_iff in I. destruct I as (k & <- & I).
  destruct (own_keys_have o k I) as [e G]. unfold entry_of. rewrite G.
  destruct e as [ts|]; cbn [row].
  - unfold width. cbn. rewrite width_targets. now rewrite (U k ts G).
  - unfold width. cbn. lia.
Qed.

Lemma get_mapping_of_with_targets (fm : form) (testSuite : option file)
  (g : Js.obj (list file)) (k : string) :
  Js.get k (mapping_of (SubmissionFacts.with_targets fm testSuite g))
  = option_map (toTargets fm testSuite) (Js.get k g).
Proof.
  unfold mapping_of, SubmissionFacts.with_targets. rewrite map_map. cbn.
  induction g as [|[k' l] g IH]; cbn; [reflexivity|].
  now destruct (String.eqb k k').
Qed.

(** For the mapping the loop of [processSubmission] leaves when no
    student is named "hasOwnProperty", rendered into an empty header row
    and an empty body: when a student has targets, the header row and
    every row of the body span the same number of columns, the column of
    the students and one column per target, 2 plus the number of coals.
    The row of a student without targets spans them with its second
    cell. *)
Theorem renderSubmissions_rectangular (fm : form) (testSuite : option file)
  (g : Js.obj (list file)) :
  NoDup (map fst g) -> Js.get "hasOwnProperty" g = None ->
  exists o, process fm testSuite (SubmissionFacts.gathered_files g) = inl o /\
    ((exists k ts, Js.get k (mapping_of o) = Some (Some ts)) ->
     Forall (fun r => width r = width (fst (renderSubmissions (mapping_of o))))
            (snd (renderSubmissions (mapping_of o))) /\
     width (fst (renderSubmissions (mapping_of o))) = 3 + List.length (coals fm)).
Proof.
  intros D H. exists (SubmissionFacts.with_targets fm testSuite g).
  split; [now apply SubmissionFacts.process_with_targets|].
  assert (U : forall k ts,
             Js.get k (mapping_of (SubmissionFacts.with_targets fm testSuite g))
               = Some (Some ts) ->
             List.length ts = S (1 + List.length (coals fm))).
  { intros k ts G. rewrite get_mapping_of_with_targets in G.
    destruct (Js.get k g) as [l|]; [|discriminate]. cbn in G. injection G as G.
    now apply (SubmissionFacts.toTargets_length fm testSuite l). }
  intros (k & ts & G).
  apply (rectangular _ (1 + List.length (coals fm)) U).
  exists k, ts. split; [|exact G].
  assert (I : In k (map fst (mapping_of (SubmissionFacts.with_targets fm testSuite g)))).
  { destruct (in_dec string_dec k
                (map fst (mapping_of (SubmissionFacts.with_targets fm testSuite g))))
      as [I|N]; [exact I|].
    apply JsFacts.get_none_iff in N. congruence. }
  eapply Permutation_in; [apply Permutation_sym, JsFacts.own_keys_perm|exact I].
Qed.

Lemma renderSubmissions_rectangular_witness :
  exists o, process SubmissionFacts.the_form None
              (SubmissionFacts.gathered_files SubmissionFacts.alice_bob_files) = inl o /\
    map width (snd (renderSubmissions (mapping_of o))) = [4; 4] /\
    width (fst (renderSubmissions (mapping_of o))) = 4.
Proof.
  assert (D : NoDup (map fst SubmissionFacts.alice_bob_files)).
  { cbn. constructor; [cbn; intros [E|[]]; discriminate E|].
    constructor; [intros []|constructor]. }
  destruct (renderSubmissions_rectangular SubmissionFacts.the_form None
              SubmissionFacts.alice_bob_files D eq_refl) as (o & E & C).
  exists o. split; [exact E|].
  rewrite SubmissionFacts.process_with_targets in E by (exact D || reflexivity).
  injection E as <-.
  destruct C as [_ W]; [eexists "alice", _; reflexivity|].
  split; [reflexivity|exact (eq_trans W eq_refl)].
Defined.

(** *** The cells [runTDs] is given *)

Lemma In_combine_seq {A : Type} (l : list A) (b i : nat) (x : A) :
  In (i, x) (combine (seq b (List.length l)) l) <->
  (b <= i)%nat /\ nth_error l (i - b) = Some x.
Proof.
  revert b; induction l as [|y l IH]; intros b; cbn.
  - split; [tauto|]. intros [_ H]. now destruct (i - b).
  - rewrite IH. split.
    + intros [[= <- <-]|[H1 H2]].
      * rewrite Nat.sub_diag. split; [lia|reflexivity].
      * split; [lia|]. replace (i - b) with (S (i - S b)) by lia. exact H2.
    + intros [H1 H2]. destruct (Nat.eq_dec i b) as [->|N].
      * rewrite Nat.sub_diag in H2. cbn in H2. injection H2 as <-. now left.
      * right. split; [lia|].
        replace (i - b) with (S (i - S b)) in H2 by lia. exact H2.
Qed.

Lemma In_cells (keep : nat -> elem -> bool) (rows : list (list elem)) (p : place) :
  In p (cells keep rows) <->
  exists e, cell_at rows p = Some e /\ keep (snd p) e = true.
Proof.
  destruct p as [i c]. unfold cells, cell_at, cells_of_row. cbn [fst snd].
  rewrite in_flat_map. split.
  - intros ([i' r] & I & H). cbn [fst snd] in H.
    apply In_combine_seq in I. destruct I as [_ I]. rewrite Nat.sub_0_r in I.
    apply in_flat_map in H. destruct H as ([c' e] & Ic & H). cbn [fst snd] in H.
    apply In_combine_seq in Ic. destruct Ic as [_ Ic]. rewrite Nat.sub_0_r in Ic.
    destruct (keep c' e) eqn:K; [|contradiction].
    destruct H as [[= <- <-]|[]]. rewrite I. now exists e.
  - intros (e & H & K). destruct (nth_error rows i) as [r|] eqn:I; [|discriminate].
    exists (i, r). split.
    + apply In_combine_seq. rewrite Nat.sub_0_r. split; [lia|exact I].
    + cbn [fst snd]. apply in_flat_map. exists (c, e). split.
      * apply In_combine_seq. rewrite Nat.sub_0_r. split; [lia|exact H].
      * cbn [fst snd]. rewrite K. now left.
Qed.

(** What a row holds at a place. *)
Lemma row_at (colspan : nat) (k : string) (entry : option (list target))
  (c : nat) (e : elem) :
  nth_error (row colspan k entry) c = Some e ->
  (c = 0 /\ exists cl h, e = student_td k cl h) \/
  (exists j, c = S j /\ e = target_td k j) \/
  (c = 1 /\ e = filler_td colspan).
Proof.
  destruct entry as [ts|]; cbn [row].
  - destruct c as [|j]; cbn [nth_error].
    + intros [= <-]. left. split; [reflexivity|]. now eexists _, _.
    + intros H. right. left. exists j. split; [reflexivity|].
      destruct (nth_error (seq 0 (List.length ts)) j) as [x|] eqn:E.
      * rewrite (map_nth_error (target_td k) j _ E) in H. injection H as <-.
        assert (L : (j < List.length (seq 0 (List.length ts)))%nat)
          by (apply nth_error_Some; congruence).
        rewrite length_seq in L.
        rewrite nth_error_nth' with (d := 0) in E by (now rewrite length_seq).
        rewrite seq_nth in E by exact L. now injection E as <-.
      * apply nth_error_None in E. rewrite <- (length_map (target_td k)) in E.
        apply nth_error_None in E. congruence.
  - destruct c as [|[|c]]; cbn [nth_error].
    + intros [= <-]. left. split; [reflexivity|]. now eexists _, _.
    + intros [= <-]. right. right. now split.
    + destruct c; discriminate.
Qed.

Lemma rendered_cell (colspan : nat) (o : mapping) (p : place) (e : elem) :
  cell_at (renderSubmissionsRows [] colspan o) p = Some e ->
  exists k, nth_error (Js.sort (Js.own_keys o)) (fst p) = Some k /\
            nth_error (row colspan k (entry_of o k)) (snd p) = Some e.
Proof.
  unfold cell_at. rewrite rows_eq.
  destruct (nth_error (Js.sort (Js.own_keys o)) (fst p)) as [k|] eqn:E.
  - rewrite (map_nth_error (fun k => row colspan k (entry_of o k)) _ _ E).
    intros H. now exists k.
  - apply nth_error_None in E.
    rewrite <- (length_map (fun k => row colspan k (entry_of o k))) in E.
    apply nth_error_None in E. now rewrite E.
Qed.

(** The handler of the cell "student" hands [runTDs] exactly the cells
    of the targets: no cell of a student without targets, and no cell
    that names a student. *)
Theorem select_everything_targets (colspan : nat) (o : mapping) (p : place) :
  In p (select_everything (renderSubmissionsRows [] colspan o)) <->
  exists student j,
    cell_at (renderSubmissionsRows [] colspan o) p = Some (target_td student j).
Proof.
  unfold select_everything. rewrite In_cells. split.
  - intros (e & H & K). destruct (rendered_cell colspan o p e H) as (k & _ & R).
    destruct (row_at _ _ _ _ _ R) as [[Z (cl & h & ->)]|[(j & Hj & ->)|[_ ->]]].
    + rewrite Z in K. cbn in K. now rewrite andb_false_r in K.
    + now exists k, j.
    + discriminate K.
  - intros (student & j & H). exists (target_td student j). split; [exact H|].
    destruct (rendered_cell colspan o p _ H) as (k & _ & R).
    destruct (row_at _ _ _ _ _ R) as [[Z (cl & h & E)]|[(j' & -> & E)|[_ E]]];
      try discriminate E.
    reflexivity.
Qed.

(** The handler of the header cell of target [j], the child [j + 2] of
    the header row, hands [runTDs] exactly the cells of target [j] of the
    students that have targets. *)
Theorem select_column_targets (o : mapping) (j : nat) (p : place) :
  let (thead, rows) := renderSubmissions o in
  ((j < fst (renderSubmissionsHeader [] o))%nat ->
   exists t, nth_error thead (S j) = Some (target_th t)) /\
  (In p (select_column (S (S j)) rows) <->
   exists student, cell_at rows p = Some (target_td student j)).
Proof.
  unfold renderSubmissions, renderSubmissionsHeader. cbn [fst snd app].
  set (ts := match first_targets (Js.own_keys o) o with
             | Some ts => ts
             | None => []
             end).
  split.
  - intros L. cbn [nth_error].
    destruct (nth_error ts j) as [t|] eqn:E.
    + exists t. now apply map_nth_error.
    + apply nth_error_None in E. lia.
  - unfold select_column. rewrite In_cells. split.
    + intros (e & H & K).
      destruct (rendered_cell _ o p e H) as (k & _ & R).
      destruct (row_at _ _ _ _ _ R) as [[Z (cl & h & ->)]|[(j' & Hj & ->)|[_ ->]]].
      * rewrite Z in K. cbn in K. rewrite andb_false_r in K. discriminate K.
      * exists k. rewrite Hj in K. cbn in K. apply Nat.eqb_eq in K. now subst.
      * discriminate K.
    + intros (student & H). exists (target_td student j). split; [exact H|].
      destruct (rendered_cell _ o p _ H) as (k & _ & R).
      destruct (row_at _ _ _ _ _ R) as [[Z (cl & h & E)]|[(j' & Hj & E)|[_ E]]];
        try discriminate E.
      injection E as _ <-. rewrite Hj. cbn. now rewrite Nat.eqb_refl.
Qed.

Lemma cells_of_targets (i : nat) (k : string) (b a n : nat) :
  flat_map (fun ce => if is_td (snd ce) && negb (Nat.eqb (fst ce) 0)
                      then [(i, fst ce)] else [])
           (combine (seq (S b) n) (map (target_td k) (seq a n)))
  = map (fun c => (i, c)) (seq (S b) n).
Proof.
  revert b a; induction n as [|n IH]; intros b a; cbn; [reflexivity|].
  f_equal. apply IH.
Qed.

(** The handler of the cell of a student with targets hands [runTDs] the
    cells of its targets, in their order. *)
Theorem select_row_targets (colspan : nat) (o : mapping) (i : nat) (k : string)
  (ts : list target) :
  nth_error (Js.sort (Js.own_keys o)) i = Some k ->
  Js.get k o = Some (Some ts) ->
  select_row i (renderSubmissionsRows [] colspan o)
  = map (fun j => (i, S j)) (seq 0 (List.length ts)).
Proof.
  intros Hi G. unfold select_row. rewrite rows_eq.
  rewrite (map_nth_error (fun k => row colspan k (entry_of o k)) _ _ Hi).
  unfold entry_of. rewrite G. cbn [row]. unfold cells_of_row.
  cbn [List.length seq combine flat_map fst snd]. cbn [is_td tag student_td].
  cbn [String.eqb Nat.eqb andb negb app].
  rewrite length_map, length_seq.
  rewrite (cells_of_targets i k 0 0 (List.length ts)).
  now rewrite <- seq_shift, map_map.
Qed.

Lemma select_row_targets_witness :
  select_row 0 (renderSubmissionsRows [] 2 bob_alice) = [(0, 1); (0, 2)].
Proof.
  apply (select_row_targets 2 bob_alice 0 "alice"
           [mkTarget "test" None None; mkTarget "gold" None None]); reflexivity.
Defined.

End RenderFacts.

(** ** Running the cells one after the other: [runTDs] *)

Module RunAll.
Import Table.

(** The variables of one call of [runTDs]: the cells [tds], given by their
    places in the table, the index [i], and whether the interval is still
    set. *)
Record loop := mkLoop {
  tds : list nat;
  pos : nat;
  active : bool
}.

(** The table and the cells whose [target.eval] has been called, in the
    order of the calls. *)
Record page := mkPage {
  tbl : table;
  started : list nat
}.

(** [runTDs(tds)]: the interval is set, with [i = 0]. *)
Definition runTDs (tds : list nat) : loop := mkLoop tds 0 true.

(** [tds.eq(i).click()] on a target cell: the handler [makeTarget]
    returned runs up to the call of [target.eval]. *)
Definition click_cell (c : nat) (pg : page) : page :=
  mkPage (click c (tbl pg)) (started pg ++ [c]).

(** The function given to [setInterval], called once. *)
Definition tick (l : loop) (pg : page) : loop * page :=
  if active l then
    match nth_error (tds l) (pos l) with
    | Some c =>
        let pg1 := if has "def" c (tbl pg) then click_cell c pg else pg in
        let l1 := if has "fin" c (tbl pg1) then mkLoop (tds l) (S (pos l)) true
                  else l in
        (l1, pg1)
    | None => (mkLoop (tds l) (pos l) false, pg)
    end
  else (l, pg).

(** What happens on the page: the interval fires, or the run of the cell
    [c] completes with [r]. *)
Inductive event :=
| Tick
| Done (c : nat) (r : runresult).

Definition step (ev : event) (s : loop * page) : loop * page :=
  match ev with
  | Tick => tick (fst s) (snd s)
  | Done c r => (fst s, mkPage (completed c r (tbl (snd s))) (started (snd s)))
  end.

Definition exec (evs : list event) (s : loop * page) : loop * page :=
  fold_left (fun s ev => step ev s) evs s.

End RunAll.

(** ** Facts about [runTDs] *)

Module RunAllFacts.
Import Table TableFacts RunAll.

(** No run is in progress: no cell is marked "dis". *)
Definition quiet (t : table) : Prop := forall j, has "dis" j t = false.

Definition result_at (j : nat) (t : table) : option runresult :=
  match nth_error t j with
  | Some e => result e
  | None => None
  end.

Lemma length_at_cell (i : nat) (f : cell -> cell) (t : table) :
  List.length (at_cell i f t) = List.length t.
Proof. revert i; induction t as [|e t IH]; intros [|i]; cbn; auto. Qed.

Lemma has_in_range (x : string) (j : nat) (t : table) :
  has x j t = true -> exists e, nth_error t j = Some e.
Proof. unfold has. destruct (nth_error t j) as [e|]; [now exists e|discriminate]. Qed.

(** The classes of the clicked cell after the click. *)
Lemma has_click_same (x : string) (c : nat) (t : table) :
  has x c (click c t) = if String.eqb x "def" then false else has x c t.
Proof.
  unfold click. rewrite has_switch_class, nth_error_at_cell_same. unfold has.
  destruct (nth_error t c) as [e|]; cbn [option_map]; [|now destruct (String.eqb x "def")].
  assert (D : hasClass "def" (css_background "#f7cb2a" (removeClass "def" e)) = false)
    by apply hasClass_removeClass_same.
  rewrite D. destruct (String.eqb_spec x "def") as [->|N]; [exact D|].
  change (hasClass x (css_background "#f7cb2a" (removeClass "def" e)))
    with (hasClass x (removeClass "def" e)).
  now apply hasClass_removeClass_other.
Qed.

(** The classes of another cell after the click. *)
Lemma has_click_other (x : string) (c j : nat) (t : table) :
  j <> c ->
  has x j (click c t)
  = if String.eqb x "def" then false
    else if String.eqb x "dis" then has "dis" j t || has "def" j t
    else has x j t.
Proof.
  intros N. unfold click. rewrite has_switch_class, nth_error_at_cell_other by exact N.
  unfold has. destruct (nth_error t j) as [e|].
  2:{ destruct (String.eqb x "def"); [reflexivity|]. now destruct (String.eqb x "dis"). }
  destruct (hasClass "def" e) eqn:D.
  - destruct (String.eqb_spec x "def") as [->|Nd]; [apply hasClass_removeClass_same|].
    rewrite hasClass_removeClass_other by exact Nd.
    destruct (String.eqb_spec x "dis") as [->|Ns].
    + rewrite hasClass_addClass_same. now rewrite orb_true_r.
    + now apply hasClass_addClass_other.
  - destruct (String.eqb_spec x "def") as [->|Nd]; [exact D|].
    destruct (String.eqb_spec x "dis") as [->|Ns]; [now rewrite orb_false_r|reflexivity].
Qed.

Lemma hasClass_finished (x : string) (r : runresult) (e : cell) :
  hasClass x (addClass "fin" (set_result r (paint r e)))
  = if String.eqb x "fin" then true else hasClass x e.
Proof.
  destruct (String.eqb_spec x "fin") as [->|N].
  - apply hasClass_addClass_same.
  - now apply hasClass_completed_cell.
Qed.

Lemma hasClass_restored (x : string) (e : cell) :
  hasClass x (if hasClass "dis" e then removeClass "dis" (addClass "def" e) else e)
  = if String.eqb x "dis" then false
    else if String.eqb x "def" then hasClass "def" e || hasClass "dis" e
    else hasClass x e.
Proof.
  destruct (hasClass "dis" e) eqn:D.
  - destruct (String.eqb_spec x "dis") as [->|Ns]; [apply hasClass_removeClass_same|].
    rewrite hasClass_removeClass_other by exact Ns.
    destruct (String.eqb_spec x "def") as [->|Nd].
    + rewrite hasClass_addClass_same. now rewrite orb_true_r.
    + now apply hasClass_addClass_other.
  - destruct (String.eqb_spec x "dis") as [->|Ns]; [exact D|].
    destruct (String.eqb_spec x "def") as [->|Nd]; [now rewrite orb_false_r|reflexivity].
Qed.

(** The classes of a cell after the completion callback of the cell [c]. *)
Lemma has_completed (x : string) (c j : nat) (r : runresult) (t : table) :
  has x j (completed c r t)
  = if String.eqb x "dis" then false
    else if String.eqb x "def" then has "def" j t || has "dis" j t
    else if String.eqb x "fin" then
           (if Nat.eqb j c then has x j t || (j <? List.length t)%nat else has x j t)
    else has x j t.
Proof.
  unfold completed. rewrite has_switch_class.
  destruct (Nat.eqb_spec j c) as [->|N].
  - rewrite nth_error_at_cell_same. unfold has.
    destruct (nth_error t c) as [e|] eqn:E; cbn [option_map].
    + rewrite hasClass_restored.
      assert (L : (c <? List.length t)%nat = true).
      { apply Nat.ltb_lt. apply nth_error_Some. congruence. }
      rewrite L, orb_true_r.
      destruct (String.eqb_spec x "dis") as [->|Ns]; [reflexivity|].
      destruct (String.eqb_spec x "def") as [->|Nd].
      * now rewrite !hasClass_finished.
      * rewrite hasClass_finished. now destruct (String.eqb x "fin").
    + destruct (String.eqb x "dis"); [reflexivity|].
      destruct (String.eqb x "def"); [reflexivity|].
      destruct (String.eqb x "fin"); [|reflexivity].
      cbn. symmetry. apply Nat.ltb_ge. now apply nth_error_None.
  - rewrite nth_error_at_cell_other by exact N. unfold has.
    destruct (nth_error t j) as [e|].
    + rewrite hasClass_restored.
      destruct (String.eqb x "dis"); [reflexivity|].
      destruct (String.eqb x "def"); [reflexivity|].
      now destruct (String.eqb x "fin").
    + destruct (String.eqb x "dis"); [reflexivity|].
      destruct (String.eqb x "def"); [reflexivity|].
      now destruct (String.eqb x "fin").
Qed.

Lemma result_switched (c d : string) (e : cell) :
  result (if hasClass c e then removeClass c (addClass d e) else e) = result e.
Proof.
  destruct (hasClass c e); [|reflexivity]. cbn. unfold addClass.
  now destruct (hasClass d e).
Qed.

Lemma result_click (c j : nat) (t : table) : result_at j (click c t) = result_at j t.
Proof.
  unfold result_at, click, switch_class. rewrite nth_error_map.
  destruct (Nat.eq_dec j c) as [->|N].
  - rewrite nth_error_at_cell_same.
    destruct (nth_error t c) as [e|]; cbn [option_map]; [|reflexivity].
    now rewrite result_switched.
  - rewrite nth_error_at_cell_other by exact N.
    destruct (nth_error t j) as [e|]; cbn [option_map]; [|reflexivity].
    now rewrite result_switched.
Qed.

Lemma result_finished (r : runresult) (e : cell) :
  result (addClass "fin" (set_result r (paint r e))) = Some r.
Proof. unfold addClass. now destruct (hasClass "fin" _). Qed.

Lemma result_completed (c j : nat) (r : runresult) (t : table) :
  result_at j (completed c r t)
  = if Nat.eqb j c then (if (j <? List.length t)%nat then Some r else None)
    else result_at j t.
Proof.
  unfold result_at, completed, switch_class. rewrite nth_error_map.
  destruct (Nat.eqb_spec j c) as [->|N].
  - rewrite nth_error_at_cell_same.
    destruct (nth_error t c) as [e|] eqn:E; cbn [option_map].
    + assert (L : (c <? List.length t)%nat = true).
      { apply Nat.ltb_lt. apply nth_error_Some. congruence. }
      now rewrite L, result_switched, result_finished.
    + assert (L : (c <? List.length t)%nat = false).
      { apply Nat.ltb_ge. now apply nth_error_None. }
      now rewrite L.
  - rewrite nth_error_at_cell_other by exact N.
    destruct (nth_error t j) as [e|]; cbn [option_map]; [|reflexivity].
    now rewrite result_switched.
Qed.

Lemma length_click (c : nat) (t : table) : List.length (click c t) = List.length t.
Proof. unfold click, switch_class. now rewrite length_map, length_at_cell. Qed.

Lemma has_completed_dis (c j : nat) (r : runresult) (t : table) :
  has "dis" j (completed c r t) = false.
Proof. now rewrite has_completed. Qed.

Lemma has_completed_def (c j : nat) (r : runresult) (t : table) :
  has "def" j (completed c r t) = has "def" j t || has "dis" j t.
Proof. now rewrite has_completed. Qed.

Lemma has_completed_fin (c j : nat) (r : runresult) (t : table) :
  has "fin" j (completed c r t)
  = if Nat.eqb j c then has "fin" j t || (j <? List.length t)%nat else has "fin" j t.
Proof. now rewrite has_completed. Qed.

Lemma has_click_def (c j : nat) (t : table) : has "def" j (click c t) = false.
Proof.
  destruct (Nat.eq_dec j c) as [->|N];
    [now rewrite has_click_same|now rewrite has_click_other].
Qed.

Lemma has_click_fin (c j : nat) (t : table) :
  has "fin" j (click c t) = has "fin" j t.
Proof.
  destruct (Nat.eq_dec j c) as [->|N];
    [now rewrite has_click_same|now rewrite has_click_other].
Qed.

Lemma has_click_dis (c j : nat) (t : table) :
  has "dis" j (click c t)
  = if Nat.eqb j c then has "dis" j t else has "dis" j t || has "def" j t.
Proof.
  destruct (Nat.eqb_spec j c) as [->|N];
    [now rewrite has_click_same|now rewrite has_click_other].
Qed.

(** One run on a table where no run is in progress: the clicked cell ends
    finished, with its result, and not runnable; every other cell is as it
    was. *)
Lemma run_one (t : table) (c : nat) (r : runresult) :
  quiet t -> has "def" c t = true ->
  let t' := completed c r (click c t) in
  quiet t' /\ has "fin" c t' = true /\ has "def" c t' = false /\
  result_at c t' = Some r /\
  forall j, j <> c ->
    has "def" j t' = has "def" j t /\ has "fin" j t' = has "fin" j t /\
    result_at j t' = result_at j t.
Proof.
  intros Q D t'. subst t'.
  assert (L : (c <? List.length (click c t))%nat = true).
  { rewrite length_click. apply Nat.ltb_lt.
    destruct (has_in_range _ _ _ D) as [e E]. apply nth_error_Some. congruence. }
  split; [intros j; apply has_completed_dis|].
  split; [now rewrite has_completed_fin, Nat.eqb_refl, L, orb_true_r|].
  split; [now rewrite has_completed_def, has_click_def, has_click_dis, Nat.eqb_refl, Q|].
  split; [now rewrite result_completed, Nat.eqb_refl, L|].
  intros j N. apply Nat.eqb_neq in N. split; [|split].
  - rewrite has_completed_def, has_click_def, has_click_dis, N, Q. reflexivity.
  - now rewrite has_completed_fin, N, has_click_fin.
  - rewrite result_completed, N. apply result_click.
Qed.

(** The runs of a list of cells: the cell, the result of its run, and the
    number of times the interval fires while the run is in progress. *)
Definition runs := list (nat * runresult * nat).

Definition cells_of (rs : runs) : list nat := map (fun x => fst (fst x)) rs.

Fixpoint schedule (rs : runs) : list event :=
  match rs with
  | [] => [Tick]
  | (c, r, w) :: rest =>
      ((Tick :: repeat Tick w) ++ [Done c r; Tick] ++ schedule rest)%list
  end.

Fixpoint finished (rs : runs) (t : table) : table :=
  match rs with
  | [] => t
  | (c, r, _) :: rest => finished rest (completed c r (click c t))
  end.

Lemma exec_app (evs evs' : list event) (s : loop * page) :
  exec (evs ++ evs') s = exec evs' (exec evs s).
Proof. unfold exec. apply fold_left_app. Qed.

(** While the run of the cell at [i] is in progress the interval changes
    nothing. *)
Lemma tick_waits (l : loop) (pg : page) (c : nat) :
  nth_error (tds l) (pos l) = Some c ->
  has "def" c (tbl pg) = false -> has "fin" c (tbl pg) = false ->
  tick l pg = (l, pg).
Proof.
  intros E D F. unfold tick. destruct (active l); [|reflexivity].
  now rewrite E, D, F.
Qed.

Lemma exec_waits (w : nat) (l : loop) (pg : page) (c : nat) :
  nth_error (tds l) (pos l) = Some c ->
  has "def" c (tbl pg) = false -> has "fin" c (tbl pg) = false ->
  exec (repeat Tick w) (l, pg) = (l, pg).
Proof.
  intros E D F. induction w as [|w IH]; [reflexivity|].
  cbn [repeat exec fold_left step fst snd]. rewrite (tick_waits l pg c E D F).
  exact IH.
Qed.

Lemma exec_schedule (rs : runs) (pre : list nat) (t : table) (st : list nat) :
  quiet t ->
  (forall c, In c (cells_of rs) -> has "def" c t = true /\ has "fin" c t = false) ->
  NoDup (cells_of rs) ->
  exec (schedule rs)
       (mkLoop (pre ++ cells_of rs) (List.length pre) true, mkPage t st)
  = (mkLoop (pre ++ cells_of rs) (List.length pre + List.length rs) false,
     mkPage (finished rs t) (st ++ cells_of rs)).
Proof.
  revert pre t st. induction rs as [|[[c r] w] rs IH]; intros pre t st Q H D.
  - cbn. unfold tick. cbn. rewrite !app_nil_r.
    assert (E : nth_error pre (List.length pre) = None) by (now apply nth_error_None).
    now rewrite E, Nat.add_0_r.
  - cbn [schedule cells_of map fst snd] in *. fold (cells_of rs) in *.
    inversion D as [|? ? Nc D']; subst.
    destruct (H c (or_introl eq_refl)) as [Hd Hf].
    assert (E : nth_error (pre ++ c :: cells_of rs) (List.length pre) = Some c).
    { rewrite nth_error_app2 by lia. now rewrite Nat.sub_diag. }
    destruct (run_one t c r Q Hd) as (Q' & F' & D'' & _ & O).
    rewrite !exec_app.
    (* the click *)
    assert (S1 : exec (Tick :: repeat Tick w)
               (mkLoop (pre ++ c :: cells_of rs) (List.length pre) true, mkPage t st)
             = (mkLoop (pre ++ c :: cells_of rs) (List.length pre) true,
                click_cell c (mkPage t st))).
    { cbn [exec fold_left step fst snd]. unfold tick at 1. cbv zeta.
      cbn [active tds pos tbl]. rewrite E, Hd. cbn [click_cell tbl started].
      rewrite has_click_fin, Hf.
      apply (exec_waits w _ _ c); cbn [tds pos tbl click_cell];
        [exact E|apply has_click_def|now rewrite has_click_fin]. }
    rewrite S1. cbn [exec fold_left step fst snd click_cell tbl started].
    unfold tick. cbv zeta. cbn [active tds pos tbl started].
    rewrite E, D''. cbn [tbl started]. rewrite F'.
    replace (pre ++ c :: cells_of rs)%list with ((pre ++ [c]) ++ cells_of rs)%list
      by (now rewrite <- app_assoc).
    replace (S (List.length pre)) with (List.length (pre ++ [c]))
      by (rewrite length_app; cbn; lia).
    fold (exec (schedule rs)
            (mkLoop ((pre ++ [c]) ++ cells_of rs) (List.length (pre ++ [c])) true,
             mkPage (completed c r (click c t)) (st ++ [c]))).
    rewrite IH; auto.
    + rewrite length_app. cbn [List.length finished]. f_equal.
      * f_equal. lia.
      * now rewrite <- app_assoc.
    + intros c' I. assert (N : c' <> c) by (intros ->; contradiction).
      destruct (O c' N) as (Od & Of & _). rewrite Od, Of. apply H. now right.
Qed.

Lemma finished_props (rs : runs) (t : table) :
  quiet t ->
  (forall c, In c (cells_of rs) -> has "def" c t = true) ->
  NoDup (cells_of rs) ->
  quiet (finished rs t) /\
  (forall c r w, In (c, r, w) rs ->
     has "fin" c (finished rs t) = true /\ has "def" c (finished rs t) = false /\
     result_at c (finished rs t) = Some r) /\
  (forall j, ~ In j (cells_of rs) ->
     has "def" j (finished rs t) = has "def" j t /\
     has "fin" j (finished rs t) = has "fin" j t /\
     result_at j (finished rs t) = result_at j t).
Proof.
  revert t. induction rs as [|[[c r] w] rs IH]; intros t Q H D.
  - cbn. split; [exact Q|]. split; [intros c r w []|auto].
  - cbn [cells_of map fst snd finished] in *. fold (cells_of rs) in *.
    inversion D as [|? ? Nc D']; subst.
    destruct (run_one t c r Q (H c (or_introl eq_refl))) as (Q' & F' & D'' & R' & O).
    destruct (IH (completed c r (click c t)) Q') as (Q2 & A & B); auto.
    { intros c' I. assert (N : c' <> c) by (intros ->; contradiction).
      destruct (O c' N) as (Od & _). rewrite Od. apply H. now right. }
    split; [exact Q2|]. split.
    + intros c' r' w' [[= <- <- <-]|I]; [|now apply (A c' r' w')].
      destruct (B c Nc) as (Bd & Bf & Br). now rewrite Bd, Bf, Br.
    + intros j N. assert (Nj : j <> c) by (intros ->; apply N; now left).
      destruct (B j) as (Bd & Bf & Br); [intros I; apply N; now right|].
      destruct (O j Nj) as (Od & Of & Or). rewrite Bd, Bf, Br. auto.
Qed.

(** [runTDs] on runnable cells of a table where no run is in progress:
    the interval clicks the cells one at a time, in their order, waits
    while a run is in progress, and is cleared after the last one.  In the
    end every cell of [tds] is marked "fin", is not marked "def" and holds
    the result of its run, no cell is marked "dis", and every other cell
    is runnable if and only if it was. *)
Theorem runTDs_runs_cells_in_order (t : table) (rs : runs) :
  quiet t ->
  (forall c, In c (cells_of rs) -> has "def" c t = true /\ has "fin" c t = false) ->
  NoDup (cells_of rs) ->
  let s := exec (schedule rs) (runTDs (cells_of rs), mkPage t []) in
  active (fst s) = false /\
  pos (fst s) = List.length (cells_of rs) /\
  started (snd s) = cells_of rs /\
  quiet (tbl (snd s)) /\
  (forall c r w, In (c, r, w) rs ->
     has "fin" c (tbl (snd s)) = true /\ has "def" c (tbl (snd s)) = false /\
     result_at c (tbl (snd s)) = Some r) /\
  (forall j, ~ In j (cells_of rs) ->
     has "def" j (tbl (snd s)) = has "def" j t /\
     has "fin" j (tbl (snd s)) = has "fin" j t).
Proof.
  intros Q H D s. subst s. unfold runTDs.
  pose proof (exec_schedule rs [] t [] Q H D) as E. cbn [app List.length plus] in E.
  rewrite E. cbn [fst snd active pos started tbl].
  destruct (finished_props rs t Q) as (Q' & A & B); auto.
  { intros c I. now apply H. }
  split; [reflexivity|]. split; [unfold cells_of; now rewrite length_map|].
  split; [reflexivity|]. split; [exact Q'|]. split; [exact A|].
  intros j N. destruct (B j N) as (Bd & Bf & _). now split.
Qed.

Definition three_cells : table :=
  [mkCell ["tooltip"; "def"] None None None;
   mkCell ["def"; "tooltip"] None None None;
   mkCell ["def"; "tooltip"] None None None].

Lemma runTDs_runs_cells_in_order_witness :
  let s := exec (schedule [(1, RunSuccess None, 2); (2, RunFailure "parse", 0)])
                (runTDs [1; 2], mkPage three_cells []) in
  active (fst s) = false /\ started (snd s) = [1; 2] /\
  has "fin" 2 (tbl (snd s)) = true /\ has "def" 0 (tbl (snd s)) = true.
Proof.
  intros s.
  assert (Q : quiet three_cells) by (intros [|[|[|[|j]]]]; reflexivity).
  assert (D : NoDup [1; 2]).
  { constructor; [cbn; intros [E|[]]; discriminate E|].
    constructor; [intros []|constructor]. }
  destruct (runTDs_runs_cells_in_order three_cells
              [(1, RunSuccess None, 2); (2, RunFailure "parse", 0)] Q)
    as (A & _ & S & _ & F & O); [|exact D|].
  - intros c [<-|[<-|[]]]; split; reflexivity.
  - split; [exact A|]. split; [exact S|]. split.
    + apply (F 2 (RunFailure "parse") 0). right. now left.
    + destruct (O 0) as [Od _]; [cbn; intros [E|[E|[]]]; discriminate E|].
      exact (eq_trans Od eq_refl).
Defined.

(** *** Cells that have been run already *)

Lemma exec_skips (t : table) (st : list nat) (rest pre : list nat) :
  (forall c, In c rest -> has "def" c t = false /\ has "fin" c t = true) ->
  exec (repeat Tick (S (List.length rest)))
       (mkLoop (pre ++ rest) (List.length pre) true, mkPage t st)
  = (mkLoop (pre ++ rest) (List.length (pre ++ rest)) false, mkPage t st).
Proof.
  revert pre. induction rest as [|c rest IH]; intros pre H.
  - cbn [List.length repeat exec fold_left step fst snd]. unfold tick.
    cbn [active tds pos]. rewrite app_nil_r.
    replace (nth_error pre (List.length pre)) with (@None nat); [reflexivity|].
    symmetry. apply nth_error_None. lia.
  - change (repeat Tick (S (List.length (c :: rest))))
      with (Tick :: repeat Tick (S (List.length rest))).
    cbn [exec fold_left step fst snd]. unfold tick at 1. cbn [active tds pos].
    rewrite nth_error_app2, Nat.sub_diag by lia. cbn [nth_error].
    destruct (H c (or_introl eq_refl)) as [D F]. cbn [tbl]. rewrite D. cbv zeta.
    cbn [tbl]. rewrite F.
    specialize (IH (pre ++ [c])%list).
    rewrite <- app_assoc, length_app in IH. cbn [app List.length] in IH.
    rewrite Nat.add_1_r in IH. apply IH.
    intros c' I. apply H. now right.
Qed.

(** [runTDs] on cells that have all been run (marked "fin" and no longer
    "def"): no cell is clicked and no run is started; the interval moves
    past one cell each time it fires and is cleared when it fires after
    the last one, with the table as it was. *)
Theorem runTDs_skips_finished_cells (t : table) (cells : list nat) :
  (forall c, In c cells -> has "def" c t = false /\ has "fin" c t = true) ->
  exec (repeat Tick (S (List.length cells))) (runTDs cells, mkPage t [])
  = (mkLoop cells (List.length cells) false, mkPage t []).
Proof.
  intros H. exact (exec_skips t [] cells [] H).
Qed.

Definition run_cells : table :=
  [mkCell ["tooltip"; "fin"] None None None;
   mkCell ["fin"; "tooltip"] None None None].

Lemma runTDs_skips_finished_cells_witness :
  exec [Tick; Tick; Tick] (runTDs [0; 1], mkPage run_cells [])
  = (mkLoop [0; 1] 2 false, mkPage run_cells []).
Proof.
  apply (runTDs_skips_finished_cells run_cells [0; 1]).
  intros c [<-|[<-|[]]]; split; reflexivity.
Defined.

End RunAllFacts.

(** ** More facts about the result exporter *)

Module ExporterOrder.
Import Exporter.

(** *** The object of one run result *)

(** The last check block of the list that is named [k]. *)
Fixpoint last_check (k : string) (checks : list check) : option check :=
  match checks with
  | [] => None
  | c :: rest =>
      match last_check k rest with
      | Some c' => Some c'
      | None => if String.eqb (check_name c) k then Some c else None
      end
  end.

Lemma fold_checks_get (f : check -> json) (checks : list check) (o : Js.obj json)
  (k : string) :
  Js.get Js.proto o = None ->
  Js.get k (fold_left (fun o c => Js.set (check_name c) (f c) o) checks o)
  = if Js.ordinary k then
      match last_check k checks with
      | Some c => Some (f c)
      | None => Js.get k o
      end
    else None.
Proof.
  revert o. induction checks as [|c rest IH]; intros o P; cbn.
  - destruct (Js.ordinary k) eqn:O; [reflexivity|].
    apply JsFacts.ordinary_false in O. now subst k.
  - rewrite IH by (now apply JsFacts.get_set_proto).
    destruct (Js.ordinary k) eqn:O; [|reflexivity].
    destruct (last_check k rest) as [c'|]; [reflexivity|].
    destruct (String.eqb_spec (check_name c) k) as [<-|N].
    + apply JsFacts.get_set_same. now apply JsFacts.ordinary_true.
    + apply JsFacts.get_set_other. congruence.
Qed.

(** For a run that succeeded, the object has under the name of a check
    block the outcomes of the last block of that name, and under "isError"
    the value [false], unless a check block is itself named "isError";
    it has no other key.  A check block named "__proto__" leaves no key:
    the assignment does not create one. *)
Theorem generateJSONFile_last_check_wins (checks : list check) (k : string) :
  exists o, generateJSONFile (SuccessRight checks) = JObj o /\
    Js.get k o
    = if Js.ordinary k then
        match last_check k checks with
        | Some c => Some (JArr (map toObject (test_results c)))
        | None => if String.eqb k "isError" then Some (JBool false) else None
        end
      else None.
Proof.
  eexists. split; [reflexivity|]. rewrite fold_checks_get by reflexivity.
  destruct (Js.ordinary k); [|reflexivity].
  destruct (last_check k checks); [reflexivity|]. cbn.
  now destruct (String.eqb k "isError").
Qed.

(** *** The export does not depend on the order of the students *)

Lemma sorted_all (a : string) (l : list string) :
  Sorted ExporterFacts.le_string (a :: l) ->
  forall b, In b (a :: l) -> ExporterFacts.le_string a b.
Proof.
  intros S. apply Sorted_StronglySorted in S.
  - apply StronglySorted_inv in S. destruct S as [_ F]. rewrite Forall_forall in F.
    intros b [<-|I]; [|now apply F].
    unfold ExporterFacts.le_string. destruct (String.leb_total a a); assumption.
  - intros x y z. apply JsFacts.string_leb_trans.
Qed.

Lemma sorted_perm_eq (l1 l2 : list string) :
  Sorted ExporterFacts.le_string l1 -> Sorted ExporterFacts.le_string l2 ->
  Permutation l1 l2 -> l1 = l2.
Proof.
  revert l2. induction l1 as [|a l1 IH]; intros l2 S1 S2 P.
  - apply Permutation_nil in P. now subst.
  - destruct l2 as [|b l2]; [apply Permutation_sym, Permutation_nil in P; discriminate|].
    assert (E : a = b).
    { apply String.leb_antisym.
      - apply (sorted_all a l1 S1). eapply Permutation_in; [apply Permutation_sym, P|].
        now left.
      - apply (sorted_all b l2 S2). eapply Permutation_in; [exact P|]. now left. }
    subst b. f_equal. apply IH.
    + now inversion S1.
    + now inversion S2.
    + now apply Permutation_cons_inv in P.
Qed.

Lemma in_get {V : Type} (k : string) (v : V) (o : Js.obj V) :
  NoDup (map fst o) -> In (k, v) o -> Js.get k o = Some v.
Proof.
  induction o as [|[k' v'] o IH]; cbn; [tauto|].
  intros D I. inversion D as [|? ? N D']; subst.
  destruct I as [[= -> ->]|I]; [now rewrite String.eqb_refl|].
  destruct (String.eqb_spec k k') as [->|Nk]; [|auto].
  exfalso. apply N. now apply (in_map fst) in I.
Qed.

Lemma get_perm {V : Type} (k : string) (o1 o2 : Js.obj V) :
  NoDup (map fst o1) -> Permutation o1 o2 -> Js.get k o1 = Js.get k o2.
Proof.
  intros D P.
  assert (D2 : NoDup (map fst o2))
    by (eapply Permutation_NoDup; [apply Permutation_map, P|exact D]).
  destruct (Js.get k o1) as [v|] eqn:G1.
  - symmetry. apply in_get; [exact D2|].
    eapply Permutation_in; [exact P|]. now apply ExporterFacts.get_in.
  - destruct (Js.get k o2) as [v|] eqn:G2; [|reflexivity].
    apply ExporterFacts.get_in in G2.
    apply (Permutation_in _ (Permutation_sym P)) in G2.
    apply (in_get _ _ _ D) in G2. congruence.
Qed.

(** Two mappings that hold the same students with the same targets,
    entered in a different order, are exported alike: the export does not
    depend on the order in which the students were gathered. *)
Theorem generateJSON_order_independent
  (s1 s2 : Js.obj (option (list target))) :
  NoDup (map fst s1) -> Permutation s1 s2 ->
  generateJSON s1 = generateJSON s2.
Proof.
  intros D P.
  assert (D2 : NoDup (map fst s2))
    by (eapply Permutation_NoDup; [apply Permutation_map, P|exact D]).
  rewrite !ExporterFacts.generateJSON_eq by assumption.
  assert (K : Js.sort (Js.own_keys s1) = Js.sort (Js.own_keys s2)).
  { apply sorted_perm_eq; try apply JsFacts.sort_sorted.
    eapply perm_trans; [apply JsFacts.sort_perm|].
    eapply perm_trans; [apply JsFacts.own_keys_perm|].
    eapply perm_trans; [apply Permutation_map, P|].
    eapply perm_trans; [apply Permutation_sym, JsFacts.own_keys_perm|].
    apply Permutation_sym, JsFacts.sort_perm. }
  rewrite K. apply map_ext. intros k. now rewrite (get_perm k s1 s2 D P).
Qed.

Lemma generateJSON_order_independent_witness :
  generateJSON ExporterFacts.two_students
  = generateJSON (rev ExporterFacts.two_students).
Proof.
  apply generateJSON_order_independent.
  - cbn. constructor; [cbn; intros [E|[]]; discriminate E|].
    constructor; [intros []|constructor].
  - apply Permutation_rev.
Defined.

End ExporterOrder.

(** ** More facts about the grading dashboard *)

Module GradeCalls.
Import Grade GradeFacts.

(** *** A call that succeeds *)

(** The page after [getFile(id)]. *)
Definition fetching (d : drive) (id : string) (n : option nat) (rnd : nat -> nat)
  : state :=
  snd (getFile id (storageAPI_resolved d (loaded n rnd))).

Lemma fetching_requests (d : drive) (id : string) (n : option nat) (rnd : nat -> nat) :
  requests (Q.world (fetching d id n rnd)) = [(Api Suite, GetFileById id)].
Proof. reflexivity. Qed.

Lemma fetching_api (d : drive) (id : string) (n : option nat) (rnd : nat -> nat) :
  api (Q.world (fetching d id n rnd)) = Some d.
Proof. reflexivity. Qed.

Lemma fetching_success (d : drive) (id : string) (n : option nat) (rnd : nat -> nat)
  (f : nat) (x : file) :
  d (GetFileById id) = Found (VFile x) ->
  let st := turn (8 + f) (Answer 0) (fetching d id n rnd) in
  promise_state (Retry (Api Suite) 0 Deferred) st = Q.Settled (Q.Fulfilled (VFile x)) /\
  Q.ticks st = [] /\ timers (Q.world st) = [] /\ requests (Q.world st) = [] /\
  console (Q.world st) = [Log "programCollectionAPI:"].
Proof.
  intros H. cbv zeta. unfold turn, perform.
  rewrite fetching_requests, fetching_api. cbn [nth_error remove_nth]. rewrite H.
  repeat split.
Qed.

Lemma listing_success (d : drive) (id : string) (n : option nat) (rnd : nat -> nat)
  (f : nat) (l : list file) :
  d (GetFilesInFolder id) = Found (VFiles l) ->
  let st := turn (8 + f) (Answer 0) (listing d id rnd n) in
  promise_state (Retry (Api Root) 0 Deferred) st = Q.Settled (Q.Fulfilled (VFiles l)) /\
  Q.ticks st = [] /\ timers (Q.world st) = [] /\ requests (Q.world st) = [] /\
  console (Q.world st) = [Log "programCollectionAPI:"].
Proof.
  intros H. cbv zeta. unfold turn, perform.
  rewrite listing_requests, listing_api. cbn [nth_error remove_nth]. rewrite H.
  repeat split.
Qed.

(** With the storage API published, [getFile] and [getFilesInFolder] make
    one call of the storage API and return the promise of [promiseRetry];
    when the call is answered with a file, or with an array of files, the
    promise is resolved with it, no timer is set and no retry is
    announced. *)
Theorem getFile_resolves_with_the_answer (d : drive) (id dir : string)
  (n : option nat) (rnd : nat -> nat) (f : nat) (x : file) (l : list file) :
  d (GetFileById id) = Found (VFile x) ->
  d (GetFilesInFolder dir) = Found (VFiles l) ->
  fst (getFile id (storageAPI_resolved d (loaded n rnd)))
    = VPromise (Retry (Api Suite) 0 Deferred) /\
  requests (Q.world (fetching d id n rnd)) = [(Api Suite, GetFileById id)] /\
  promise_state (Retry (Api Suite) 0 Deferred)
    (turn (8 + f) (Answer 0) (fetching d id n rnd))
    = Q.Settled (Q.Fulfilled (VFile x)) /\
  fst (getFilesInFolder Root dir (storageAPI_resolved d (loaded n rnd)))
    = VPromise (Retry (Api Root) 0 Deferred) /\
  requests (Q.world (listing d dir rnd n)) = [(Api Root, GetFilesInFolder dir)] /\
  promise_state (Retry (Api Root) 0 Deferred)
    (turn (8 + f) (Answer 0) (listing d dir rnd n))
    = Q.Settled (Q.Fulfilled (VFiles l)) /\
  (forall pg,
     pg = turn (8 + f) (Answer 0) (fetching d id n rnd) \/
     pg = turn (8 + f) (Answer 0) (listing d dir rnd n) ->
     Q.ticks pg = [] /\ timers (Q.world pg) = [] /\ requests (Q.world pg) = [] /\
     console (Q.world pg) = [Log "programCollectionAPI:"]).
Proof.
  intros Hx Hl.
  destruct (fetching_success d id n rnd f x Hx) as (F1 & F2).
  destruct (listing_success d dir n rnd f l Hl) as (L1 & L2).
  split; [reflexivity|]. split; [apply fetching_requests|].
  split; [exact F1|].
  split; [reflexivity|]. split; [apply listing_requests|].
  split; [exact L1|].
  intros pg [->| ->]; [exact F2|exact L2].
Qed.

Definition one_file (r : request) : answer :=
  match r with
  | GetFileById _ => Found (VFile (mkFile "tests.arr" "t1"))
  | GetFilesInFolder _ => Found (VFiles [mkFile "alice" "a"])
  end.

Lemma getFile_resolves_with_the_answer_witness :
  promise_state (Retry (Api Suite) 0 Deferred)
    (turn (8 + 0) (Answer 0) (fetching one_file "t1" None (fun _ => 0)))
  = Q.Settled (Q.Fulfilled (VFile (mkFile "tests.arr" "t1"))).
Proof.
  exact (proj1 (proj2 (proj2
    (getFile_resolves_with_the_answer one_file "t1" "root" None (fun _ => 0) 0
       (mkFile "tests.arr" "t1") [mkFile "alice" "a"] eq_refl eq_refl)))).
Defined.

(** *** A call that fails *)

(** No call to answer, at most one timer, at most five random numbers
    drawn. *)
Definition retrying_world (w : page) : bool :=
  match requests w with [] => true | _ :: _ => false end
  && (List.length (timers w) <=? 1)%nat && (drawn w <=? 5)%nat.

(** Five random numbers drawn, no timer and no call left. *)
Definition retried_out (w : page) : bool :=
  (drawn w =? 5)%nat
  && match timers w with [] => true | _ :: _ => false end
  && match requests w with [] => true | _ :: _ => false end.

Lemma retrying_world_spec (w : page) :
  retrying_world w = true ->
  requests w = [] /\ (List.length (timers w) <= 1)%nat /\ (drawn w <= 5)%nat.
Proof.
  unfold retrying_world. intros H.
  apply andb_prop in H. destruct H as [H D]. apply andb_prop in H.
  destruct H as [R T]. apply Nat.leb_le in D, T.
  destruct (requests w); [auto|discriminate].
Qed.

Lemma after_failed_calls (d : drive) (id : string) (e : value) (rnd : nat -> nat)
  (n : option nat) (f k : nat) :
  d (GetFilesInFolder id) = Failed e ->
  retrying_world (Q.world (after (8 + f) (listing d id rnd n) (S k))) = true.
Proof.
  intros H.
  assert (G : forall k, (k <= 6)%nat ->
     retrying_world (Q.world (after (8 + f) (listing d id rnd n) (S k))) = true).
  { intros j Hj.
    destruct n as [m|];
      (destruct j as [|[|[|[|[|[|[|j]]]]]]];
       [cbn [after]; rewrite (answer_failed d id e rnd H);
        vm_compute; reflexivity ..|lia]). }
  destruct (Nat.le_gt_cases k 6) as [L|L]; [now apply G|].
  replace (S k) with (7 + (k - 6)) by lia.
  rewrite (after_settled (8 + f) (listing d id rnd n) 6 (k - 6)).
  - apply G; lia.
  - apply (after_failed_first d id e rnd H n f 6); lia.
  - apply (after_failed_last d id e rnd H).
Qed.

Lemma listing_calm (d : drive) (id : string) (rnd : nat -> nat) (n : option nat) :
  timers (Q.world (listing d id rnd n)) = [] /\ drawn (Q.world (listing d id rnd n)) = 0.
Proof. split; reflexivity. Qed.

Lemma after_failed_out (d : drive) (id : string) (e : value) (rnd : nat -> nat)
  (m f : nat) :
  d (GetFilesInFolder id) = Failed e ->
  retried_out (Q.world (run (8 + f) (Answer 0 :: repeat (Timeout 0) 5)
                            (listing d id rnd (Some m)))) = true.
Proof.
  intros H. cbn [repeat run fold_left]. rewrite (answer_failed d id e rnd H).
  vm_compute. reflexivity.
Qed.

Lemma retried_out_spec (w : page) :
  retried_out w = true -> drawn w = 5 /\ timers w = [] /\ requests w = [].
Proof.
  unfold retried_out. intros K.
  apply andb_prop in K. destruct K as [K K3]. apply andb_prop in K.
  destruct K as [K1 K2]. apply Nat.eqb_eq in K1.
  destruct (timers w); [|discriminate]. destruct (requests w); [|discriminate].
  auto.
Qed.

(** When the storage API rejects the call of [getFilesInFolder], the call
    is never made again, whatever timers fire: at any time the only call
    there can be to answer is the first one.  At most five retries are
    announced (one random number is drawn for each) and at most one timer
    is set at a time; when the page binds [n], five retries have been
    announced and no timer is left once the answer has come and five
    timers have fired. *)
Theorem promiseRetry_failed_call_made_once (d : drive) (id : string) (e : value)
  (rnd : nat -> nat) (n : option nat) (f : nat) (evs : list event) :
  d (GetFilesInFolder id) = Failed e ->
  let st := run (8 + f) evs (listing d id rnd n) in
  (st = listing d id rnd n \/ requests (Q.world st) = []) /\
  (List.length (timers (Q.world st)) <= 1)%nat /\
  (drawn (Q.world st) <= 5)%nat /\
  (forall m, n = Some m ->
     let st' := run (8 + f) (Answer 0 :: repeat (Timeout 0) 5) (listing d id rnd n) in
     drawn (Q.world st') = 5 /\ timers (Q.world st') = [] /\
     requests (Q.world st') = []).
Proof.
  intros H st.
  assert (L : forall m, n = Some m ->
     let st' := run (8 + f) (Answer 0 :: repeat (Timeout 0) 5) (listing d id rnd n) in
     drawn (Q.world st') = 5 /\ timers (Q.world st') = [] /\
     requests (Q.world st') = []).
  { intros m -> st'. apply retried_out_spec, (after_failed_out d id e rnd m f H). }
  destruct (run_after (8 + f) (listing d id rnd n) (Api Root, GetFilesInFolder id) evs)
    as [k E]; try reflexivity.
  { intros k. apply (after_failed d id e rnd H). }
  subst st. rewrite E. clear E. destruct k as [|k].
  - change (after (8 + f) (listing d id rnd n) 0) with (listing d id rnd n).
    destruct (listing_calm d id rnd n) as [T D]. rewrite T, D.
    split; [left; reflexivity|]. split; [apply Nat.le_0_l|].
    split; [apply Nat.le_0_l|exact L].
  - destruct (retrying_world_spec _ (after_failed_calls d id e rnd n f k H))
      as (R & T & D).
    split; [right; exact R|]. split; [exact T|]. split; [exact D|exact L].
Qed.

Lemma promiseRetry_failed_call_made_once_witness :
  let st := run 8 [Answer 0; Timeout 0; Timeout 0]
                (listing always_fails "root" (fun _ => 0) (Some 1)) in
  requests (Q.world st) = [] /\ (drawn (Q.world st) <= 5)%nat.
Proof.
  intros st.
  destruct (promiseRetry_failed_call_made_once always_fails "root"
              (VError (RemoteError "500")) (fun _ => 0) (Some 1) 0
              [Answer 0; Timeout 0; Timeout 0] eq_refl) as ([A|A] & _ & B & _).
  - exfalso. apply (f_equal (fun s => requests (Q.world s))) in A.
    vm_compute in A. discriminate A.
  - split; [exact A|exact B].
Defined.

(** *** The calls of [gatherSubmissions] *)

Lemma fan_requests_snd (k : nat) (l : list file) :
  map snd (GatherFacts.fan_requests k l)
  = map (fun s => GetFilesInFolder (getUniqueId s)) l.
Proof.
  revert k; induction l as [|s l IH]; intros k; [reflexivity|].
  cbn [GatherFacts.fan_requests map snd]. now rewrite IH.
Qed.

(** When the listing of the assignment folder is answered with
    [students], [gatherSubmissions] lists the folders of all the students
    at once: there is one call for each student, in the order of the
    students, and nothing is stored yet.  With no student at all the
    promise of [gatherSubmissions] is resolved with the empty mapping at
    that time; otherwise it is pending. *)
Theorem gatherSubmissions_lists_student_folders_at_once
  (d : drive) (n : option nat) (rnd : nat -> nat) (id : string)
  (students : list file) (f : nat) :
  d (GetFilesInFolder id) = Found (VFiles students) ->
  let pg := turn (16 + f) (Answer 0) (gathering d id n rnd) in
  map snd (requests (Q.world pg))
    = map (fun s => GetFilesInFolder (getUniqueId s)) students /\
  timers (Q.world pg) = [] /\
  submissions (Q.world pg) = [] /\
  promise_state gather_deferred pg
    = match students with
      | [] => Q.Settled (Q.Fulfilled VSubmissions)
      | _ :: _ => Q.Pending []
      end.
Proof.
  intros H pg. subst pg. rewrite (GatherFacts.fan_out d n rnd students id f H).
  unfold GatherFacts.build. cbn [Q.world requests timers submissions].
  split; [apply fan_requests_snd|]. split; [reflexivity|]. split; [reflexivity|].
  destruct students as [|s l]; reflexivity.
Qed.

Lemma gatherSubmissions_lists_student_folders_at_once_witness :
  map snd (requests (Q.world (turn 16 (Answer 0)
             (gathering alice_bob "root" None (fun _ => 0)))))
  = [GetFilesInFolder "a"; GetFilesInFolder "b"].
Proof.
  exact (proj1 (gatherSubmissions_lists_student_folders_at_once
                  alice_bob None (fun _ => 0) "root"
                  [GatherFacts.alice; GatherFacts.bob] 0 eq_refl)).
Defined.
End GradeCalls.

(** ** More facts about the modal prompts *)

Module ModalShow.
Import Modal ModalFacts.

(** The page with the one prompt [new Prompt(c)]. *)
Definition one_prompt (c : config) : state := snd (Prompt (Some c) loaded).

Lemma one_prompt_eq (c : config) :
  valid (Some c) = true ->
  one_prompt c =
  Q.mkState (fun p => if Nat.eqb p promptQueue then Q.Settled (Q.Fulfilled VUndefined)
                      else Q.Free)
            (fun _ => []) [] false
            (mkPage [mkPrompt c None None false false None]
                    false None "" true [] [] [] [] 1 0).
Proof. intros H. unfold one_prompt, Prompt. now rewrite H. Qed.

(** The ways to dismiss a prompt. *)
Definition dismisses (a : action) : Prop :=
  a = ClickClose \/ a = ClickModal \/ a = Key "Escape".

(** *** What [show] puts on the page *)

(** [show] returns the promise of the prompt at once, and the prompt is
    put on display only when the tick queue runs: then the modal is
    displayed with the title of the prompt and its option elements, the
    submit button is shown unless [hideSubmit] is set, and the promise is
    pending.  A prompt of style "tiles" has no radio button: a click on
    the submit button resolves its promise with [undefined]. *)
Theorem show_displays_prompt_on_next_tick (c : config) (f : nat) :
  valid (Some c) = true ->
  let st0 := snd (show 0 None (one_prompt c)) in
  let st := drain (4 + f) st0 in
  fst (show 0 None (one_prompt c)) = Q.Return (VPromise 1) /\
  visible st0 = None /\
  visible st = Some 0 /\
  title_text (Q.world st) = title c /\
  submit_shown (Q.world st) = negb (hideSubmit c) /\
  Q.heap st 1 = Q.Pending [Q.Follow 2] /\
  (String.eqb (style c) "radio" = false ->
   Q.heap (act ClickSubmit st) 1 = Q.Settled (Q.Fulfilled VUndefined)).
Proof.
  intros H. cbv zeta. rewrite (one_prompt_eq c H).
  do 6 (split; [vm_compute; reflexivity|]).
  intros T. vm_compute. vm_compute in T. now rewrite T.
Qed.

Definition pick_tile : config :=
  mkConfig "tiles" (Some [mkOption "Left" "left" None]) true "Pick one".

Lemma show_displays_prompt_on_next_tick_witness :
  valid (Some pick_tile) = true /\
  submit_shown (Q.world (drain 4 (snd (show 0 None (one_prompt pick_tile))))) = false /\
  Q.heap (act ClickSubmit (drain 4 (snd (show 0 None (one_prompt pick_tile))))) 1
  = Q.Settled (Q.Fulfilled VUndefined).
Proof.
  split; [reflexivity|].
  destruct (show_displays_prompt_on_next_tick pick_tile 0 eq_refl)
    as (_ & _ & _ & _ & S & _ & U).
  split; [exact S|exact (U eq_refl)].
Defined.

(** *** The callback given to [show] *)

Ltac run_to_callback :=
  match goal with
  | |- context [act ?a ?s] =>
      let x := eval vm_compute in (act a s) in
      replace (act a s) with x by (vm_compute; reflexivity)
  end;
  unfold drain; cbn [Nat.add Q.drain Q.ticks Q.tick Q.run_reaction call].

(** On a fresh page whose only prompt is this one, the promise
    [show(callback)] returns is the one [this.promise.then(callback)]
    gives: when the prompt is dismissed the callback is called with
    [null]; the promise is resolved with the value the callback returns,
    and rejected with what it throws. *)
Theorem show_callback_result (c : config) (cb : value -> Q.completion value)
  (f : nat) (a : action) :
  valid (Some c) = true -> dismisses a ->
  let st := drain (4 + f)
              (act a (drain (4 + f) (snd (show 0 (Some cb) (one_prompt c))))) in
  fst (show 0 (Some cb) (one_prompt c)) = Q.Return (VPromise 3) /\
  (forall v, cb VNull = Q.Return v -> as_promise v = None ->
     Q.heap st 3 = Q.Settled (Q.Fulfilled v)) /\
  (forall e, cb VNull = Q.Throw e -> Q.heap st 3 = Q.Settled (Q.Rejected e)).
Proof.
  intros H D. destruct (valid_cases c H) as (o & os & h & t & [-> | ->]);
    (cbv zeta; rewrite one_prompt_eq by reflexivity;
     split; [vm_compute; reflexivity|]; split;
     [intros v E P|intros e E];
     destruct D as [->|[->| ->]]; run_to_callback; rewrite E;
     cbn [Q.settle_with]; unfold Q.resolve, Q.reject; rewrite ?P;
     vm_compute; reflexivity).
Qed.

(** A callback that tells whether an option was chosen. *)
Definition chosen (v : value) : Q.completion value :=
  match v with
  | VNull => Q.Return (VString "nothing")
  | VString s => Q.Return (VString s)
  | _ => Q.Throw (VError "no answer")
  end.

Lemma show_callback_result_witness :
  Q.heap (drain 4 (act (Key "Escape")
            (drain 4 (snd (show 0 (Some chosen) (one_prompt yes_no)))))) 3
  = Q.Settled (Q.Fulfilled (VString "nothing")).
Proof.
  apply (show_callback_result yes_no chosen 0 (Key "Escape") eq_refl
           (or_intror (or_intror eq_refl))); reflexivity.
Defined.

(** *** A prompt shown again *)

(** On a fresh page whose only prompt is this one, a prompt that was
    dismissed or submitted can be shown again, and the second [show]
    behaves like the first: it returns a new promise, the prompt is put on
    display, and dismissing it (close button, click on the modal, Escape)
    hides the modal and resolves the new promise with [null], although
    the handlers of the first [show] are still bound: they belong to the
    same prompt. *)
Theorem show_again_after_dismissal (c : config) (f : nat) (a1 a2 : action) :
  valid (Some c) = true ->
  dismisses a1 \/ a1 = ClickSubmit -> dismisses a2 ->
  let st1 := drain (4 + f) (snd (show 0 None (one_prompt c))) in
  let st2 := drain (4 + f) (act a1 st1) in
  let st3 := drain (4 + f) (snd (show 0 None st2)) in
  let st4 := drain (4 + f) (act a2 st3) in
  is_deferred 0 st2 = false /\
  fst (show 0 None st2) = Q.Return (VPromise 3) /\
  visible st3 = Some 0 /\
  Q.heap st3 3 = Q.Pending [Q.Follow 4] /\
  Q.heap st4 3 = Q.Settled (Q.Fulfilled VNull) /\
  visible st4 = None /\
  is_deferred 0 st4 = false.
Proof.
  intros H D1 D2. destruct (valid_cases c H) as (o & os & h & t & [-> | ->]);
    (cbv zeta; rewrite one_prompt_eq by reflexivity;
     destruct D1 as [[->|[->| ->]]| ->]; destruct D2 as [->|[->| ->]];
     conjuncts; vm_compute; reflexivity).
Qed.

Lemma show_again_after_dismissal_witness :
  let st1 := drain 4 (snd (show 0 None (one_prompt yes_no))) in
  let st2 := drain 4 (act ClickSubmit st1) in
  let st3 := drain 4 (snd (show 0 None st2)) in
  Q.heap (drain 4 (act ClickClose st3)) 3 = Q.Settled (Q.Fulfilled VNull).
Proof.
  intros st1 st2 st3.
  destruct (show_again_after_dismissal yes_no 0 ClickSubmit ClickClose eq_refl
              (or_intror eq_refl) (or_introl eq_refl))
    as (_ & _ & _ & _ & R & _).
  exact R.
Defined.

(** *** The first prompt of a page *)

Lemma first_prompt_resolves_witness :
  Q.heap (act ClickSubmit (act (Select 1)
            (drain (4 + 0) (snd (show 0 None (two_prompts yes_no left_right)))))) 1
  = Q.Settled (Q.Fulfilled (VString "no")).
Proof.
  destruct (first_prompt_resolves (mkOption "Yes" "yes" None)
              [mkOption "No" "no" None] false "Continue?" left_right 0 eq_refl)
    as (_ & _ & _ & _ & _ & _ & S & _).
  exact (S 1 (mkOption "No" "no" None) eq_refl).
Defined.

End ModalShow.
